(** * latex-inliner: a shallow embedding of [src/latex-inliner.py]

    The program flattens a LaTeX project into one file: it replaces every
    [\input] and [\include] by the file it names, wrapped in comments, and
    then deletes the blank lines it finds inside math.

    The model follows the source, function by function.

    - A Python [str] is a list of Unicode code points ([N]); the string
      methods and the three regular expressions the program uses are
      functions on such lists.
    - The two scanners share the record [math_state] of their four local
      variables.  A [while] loop over an index becomes a recursion over the
      rest of the text, with the number of characters still to step over.
    - The fields of [LatexInliner] that change ([processed_files],
      [current_depth]) and what is printed are the record [inliner], passed
      in and out of every method.  The recursion of
      [resolve_input_commands] is bounded by its own counter; a [fuel]
      argument makes that structural, and the otherwise impossible outcome
      "out of fuel" is [None].
    - [pathlib] and the file system are the interface [FileSystem]:
      [exists] and [with_suffix] return or raise, [open] returns a text or
      raises.  An exception is a value: a method of the program ends in
      [Done] or in [Raise], with the object as the exception leaves it,
      and each [try] of the source is a match on that.  [Posix] is one
      implementation, used for the examples.
    - Standard output takes every text: [print] does not raise. *)

From Stdlib Require Import NArith ZArith Lia String Ascii.
From stdpp Require Import base option list gmap sets.

Local Open Scope nat_scope.

(** ** Python strings *)

Definition char := N.
Definition str := list char.

(** A literal of the source, as code points.  Rocq string literals have no
    escapes, so a backslash is written once and a newline is [nl]. *)
Definition lit (s : string) : str := N_of_ascii <$> list_ascii_of_string s.

Definition nl : str := [10%N].

Definition BACKSLASH : char := 92%N.
Definition DOLLAR : char := 36%N.
Definition LBRACKET : char := 91%N.
Definition RBRACKET : char := 93%N.
Definition LPAREN : char := 40%N.
Definition RPAREN : char := 41%N.
Definition LBRACE : char := 123%N.
Definition RBRACE : char := 125%N.
Definition NEWLINE : char := 10%N.

(** [str.isspace] on one character; [str.strip()] and the regex class [\s]
    use the same table. *)
Definition is_space (c : char) : bool :=
  ((9 <=? c) && (c <=? 13) || (28 <=? c) && (c <=? 32) || (c =? 133)
   || (c =? 160) || (c =? 5760) || (8192 <=? c) && (c <=? 8202)
   || (c =? 8232) || (c =? 8233) || (c =? 8239) || (c =? 8287)
   || (c =? 12288))%N.

(** [s.startswith(p)] *)
Fixpoint startswith (p s : str) : bool :=
  match p, s with
  | [], _ => true
  | _ :: _, [] => false
  | a :: p', b :: s' => (a =? b)%N && startswith p' s'
  end.

(** [s.endswith(p)] *)
Definition endswith (p s : str) : bool := startswith (reverse p) (reverse s).

(** [p in s] *)
Fixpoint contains (p s : str) : bool :=
  startswith p s || match s with [] => false | _ :: s' => contains p s' end.

(** [s.find(p)], counted from offset [i] of the whole string; [-1] when
    absent. *)
Fixpoint find_from (i : Z) (p s : str) : Z :=
  if startswith p s then i
  else match s with [] => (-1)%Z | _ :: s' => find_from (i + 1)%Z p s' end.

Definition find (p s : str) : Z := find_from 0 p s.

(** [s.count(p)]: occurrences that do not overlap, left to right.  [skip] is
    the number of characters of the last occurrence still to pass. *)
Fixpoint count_from (skip : nat) (p s : str) : Z :=
  match s with
  | [] => 0%Z
  | _ :: s' =>
      match skip with
      | S k => count_from k p s'
      | O => if startswith p s then (1 + count_from (length p - 1) p s')%Z
             else count_from 0 p s'
      end
  end.

Definition count (p s : str) : Z := count_from 0 p s.

(** [s.split('\n')]: never empty, one more piece than there are newlines. *)
Fixpoint split_nl (s : str) : list str :=
  match s with
  | [] => [[]]
  | c :: s' =>
      if (c =? NEWLINE)%N then [] :: split_nl s'
      else match split_nl s' with
           | [] => [[c]]
           | l :: ls => (c :: l) :: ls
           end
  end.

(** ['\n'.join(ls)] *)
Fixpoint join_nl (ls : list str) : str :=
  match ls with
  | [] => []
  | [l] => l
  | l :: ls' => l ++ nl ++ join_nl ls'
  end.

(** [s.lstrip()], [s.rstrip()], [s.strip()] *)
Fixpoint lstrip (s : str) : str :=
  match s with
  | [] => []
  | c :: s' => if is_space c then lstrip s' else s
  end.

Definition rstrip (s : str) : str := reverse (lstrip (reverse s)).

Definition strip (s : str) : str := rstrip (lstrip s).

(** [s == ''] *)
Definition is_empty (s : str) : bool :=
  match s with [] => true | _ => false end.

(** ** The recognised math environments ([self.math_environments]) *)

Definition math_environments : list str :=
  lit <$> [ "equation"; "equation*"; "align"; "align*"; "gather"; "gather*";
            "multline"; "multline*"; "flalign"; "flalign*"; "eqnarray";
            "eqnarray*"; "split"; "aligned"; "gathered"; "cases"; "matrix";
            "pmatrix"; "bmatrix"; "Bmatrix"; "vmatrix"; "Vmatrix";
            "smallmatrix"; "subequations"; "math"; "displaymath";
            "array" ]%string.

Definition is_math_env (name : str) : bool :=
  bool_decide (name ∈ math_environments).

(** ** The math-region state shared by both scanners *)

Record math_state := MathState {
  in_math : bool;
  in_display_math : bool;
  in_double_dollar : bool;
  math_env_stack : list str
}.

Definition init_state : math_state := MathState false false false [].

Definition set_in_math (b : bool) (st : math_state) : math_state :=
  MathState b (in_display_math st) (in_double_dollar st) (math_env_stack st).
Definition set_in_display_math (b : bool) (st : math_state) : math_state :=
  MathState (in_math st) b (in_double_dollar st) (math_env_stack st).
Definition set_in_double_dollar (b : bool) (st : math_state) : math_state :=
  MathState (in_math st) (in_display_math st) b (math_env_stack st).
Definition set_stack (l : list str) (st : math_state) : math_state :=
  MathState (in_math st) (in_display_math st) (in_double_dollar st) l.

(** [bool(math_env_stack)] *)
Definition stack_nonempty (st : math_state) : bool :=
  match math_env_stack st with [] => false | _ => true end.

(** [in_math or in_display_math or in_double_dollar or bool(math_env_stack)] *)
Definition any_math_mode (st : math_state) : bool :=
  in_math st || in_display_math st || in_double_dollar st || stack_nonempty st.

(** [math_env_stack.append(env_name)] and [math_env_stack.pop()] *)
Definition push_env (name : str) (st : math_state) : math_state :=
  set_stack (math_env_stack st ++ [name]) st.
Definition pop_env (st : math_state) : math_state :=
  set_stack (removelast (math_env_stack st)) st.

(** ** The regular expressions on environments

    [re.match(r'\\begin\{([^}]+)\}', s)] with [kw] the keyword including its
    backslash: the name is the longest run of characters other than the
    closing brace, it is not empty and a closing brace follows.  The result is
    [group(1)] and [len(group(0))]. *)
Fixpoint strip_prefix (p s : str) : option str :=
  match p, s with
  | [], _ => Some s
  | _ :: _, [] => None
  | a :: p', b :: s' => if (a =? b)%N then strip_prefix p' s' else None
  end.

Fixpoint until_rbrace (s : str) : str :=
  match s with
  | [] => []
  | c :: s' => if (c =? RBRACE)%N then [] else c :: until_rbrace s'
  end.

(** [\{([^}]+)\}] at the start of [s]: the group and the length matched. *)
Definition match_braced (s : str) : option (str * nat) :=
  match s with
  | c :: s' =>
      if (c =? LBRACE)%N then
        let name := until_rbrace s' in
        match name, drop (length name) s' with
        | _ :: _, _ :: _ => Some (name, length name + 2)
        | _, _ => None
        end
      else None
  | [] => None
  end.

Definition match_env (kw s : str) : option (str * nat) :=
  match strip_prefix kw s with
  | Some r =>
      match match_braced r with
      | Some (name, n) => Some (name, length kw + n)
      | None => None
      end
  | None => None
  end.

Definition BEGIN : str := lit "\begin".
Definition END : str := lit "\end".

(** ** The character-level scanner: [is_in_math_mode] *)

(** One turn of the [while] loop at index [i]: [c] is [text_before[i]], [tl]
    is [text_before[i+1:]] and [prev] is [text_before[i-1]] when [i > 0].  The
    result is the new state and what the branch adds to [i] before the final
    [i += 1]. *)
Definition scan_char (st : math_state) (prev : option char) (c : char)
    (tl : str) : math_state * nat :=
  if (c =? BACKSLASH)%N then
    match tl with
    | [] => (st, 0)
    | next_char :: _ =>
        if (next_char =? LBRACKET)%N then
          (set_in_math true (set_in_display_math true st), 1)
        else if (next_char =? RBRACKET)%N && in_display_math st then
          (set_in_math false (set_in_display_math false st), 1)
        else if (next_char =? LPAREN)%N then
          (set_in_math true st, 1)
        else if (next_char =? RPAREN)%N && in_math st
                && negb (in_display_math st) && negb (in_double_dollar st) then
          (set_in_math false st, 1)
        else if startswith BEGIN (c :: tl) then
          match match_env BEGIN (c :: tl) with
          | Some (env_name, n) =>
              (if is_math_env env_name
               then push_env env_name (set_in_math true st) else st, n - 1)
          | None => (st, 0)
          end
        else if startswith END (c :: tl) then
          match match_env END (c :: tl) with
          | Some (env_name, n) =>
              (if stack_nonempty st && is_math_env env_name then
                 let st' := pop_env st in
                 if negb (stack_nonempty st') && negb (in_display_math st')
                    && negb (in_double_dollar st')
                 then set_in_math false st' else st'
               else st, n - 1)
          | None => (st, 0)
          end
        else (st, 0)
    end
  else if (c =? DOLLAR)%N then
    match tl with
    | d :: _ =>
        if (d =? DOLLAR)%N then
          (if in_double_dollar st
           then set_in_math false (set_in_double_dollar false st)
           else set_in_math true (set_in_double_dollar true st), 1)
        else if bool_decide (prev = Some BACKSLASH) then (st, 0)
        else (set_in_math (negb (in_math st)) st, 0)
    | [] =>
        if bool_decide (prev = Some BACKSLASH) then (st, 0)
        else (set_in_math (negb (in_math st)) st, 0)
    end
  else (st, 0).

(** The loop over [text_before[i:]]; [skip] counts the characters a branch
    has stepped over. *)
Fixpoint scan_loop (st : math_state) (prev : option char) (skip : nat)
    (rest : str) : math_state :=
  match rest with
  | [] => st
  | c :: tl =>
      match skip with
      | S k => scan_loop st (Some c) k tl
      | O => let '(st', extra) := scan_char st prev c tl in
             scan_loop st' (Some c) extra tl
      end
  end.

(** The state of the scanner once it has consumed [text_before]. *)
Definition scan_state (text_before : str) : math_state :=
  scan_loop init_state None 0 text_before.

Definition is_in_math_mode (text : str) (position : nat) : bool :=
  any_math_mode (scan_state (take position text)).

(** ** The line-level state machine of [remove_blank_lines_in_math] *)

(** [re.finditer(r'\\kw\{([^}]+)\}', line)]: the [group(1)] of every match,
    left to right, matches not overlapping. *)
Fixpoint finditer_env (kw : str) (skip : nat) (line : str) : list str :=
  match line with
  | [] => []
  | _ :: tl =>
      match skip with
      | S k => finditer_env kw k tl
      | O => match match_env kw line with
             | Some (name, n) => name :: finditer_env kw (n - 1) tl
             | None => finditer_env kw 0 tl
             end
      end
  end.

(** The check for an opening [\[]. *)
Definition line_open_display (line : str) (st : math_state) : math_state :=
  if contains (lit "\[") line then
    let bracket_pos := find (lit "\[") line in
    let close_bracket_pos := find (lit "\]") line in
    if negb (in_display_math st)
       && ((close_bracket_pos =? -1) || (close_bracket_pos <? bracket_pos))%Z
    then set_in_math true (set_in_display_math true st)
    else st
  else st.

(** The check for a closing [\]]. *)
Definition line_close_display (line : str) (st : math_state) : math_state :=
  if contains (lit "\]") line && in_display_math st then
    let bracket_pos := find (lit "\]") line in
    let open_bracket_pos := find (lit "\[") line in
    if ((open_bracket_pos =? -1) || (open_bracket_pos <? bracket_pos))%Z then
      let st' := set_in_display_math false st in
      if negb (in_double_dollar st') && negb (stack_nonempty st')
      then set_in_math false st' else st'
    else st
  else st.

(** The check for [$$]. *)
Definition line_double_dollar (line : str) (st : math_state) : math_state :=
  let dollar_count := (count (lit "$$") line - count (lit "\$\$") line)%Z in
  if (0 <? dollar_count)%Z then
    if negb (in_double_dollar st)
    then set_in_math true (set_in_double_dollar true st)
    else
      let st' := set_in_double_dollar false st in
      if negb (in_display_math st') && negb (stack_nonempty st')
      then set_in_math false st' else st'
  else st.

(** The parity of the single dollars; [%] is Python's, which [Z.modulo]
    agrees with for a positive modulus. *)
Definition line_single_dollar (line : str) (st : math_state) : math_state :=
  let single_dollar_count :=
    (count (lit "$") line - 2 * count (lit "$$") line
     - count (lit "\$") line)%Z in
  if (single_dollar_count mod 2 =? 1)%Z
  then set_in_math (negb (in_math st)) st else st.

(** The checks for [\(] and [\)].  The source writes the closing token as the
    Python literal of two backslashes and a parenthesis. *)
Definition line_paren (line : str) (st : math_state) : math_state :=
  let st1 :=
    if contains (lit "\(") line && negb (contains (lit "\\)") line)
    then set_in_math true st else st in
  if contains (lit "\\)") line && in_math st1
     && negb (in_display_math st1) && negb (in_double_dollar st1)
  then set_in_math false st1 else st1.

(** The loop over [begin_matches]. *)
Definition line_begin_one (st : math_state) (env_name : str) : math_state :=
  if is_math_env env_name then set_in_math true (push_env env_name st) else st.

(** The loop over [end_matches]. *)
Definition line_end_one (st : math_state) (env_name : str) : math_state :=
  if stack_nonempty st && is_math_env env_name then
    let st' := pop_env st in
    if negb (stack_nonempty st') && negb (in_display_math st')
       && negb (in_double_dollar st')
    then set_in_math false st' else st'
  else st.

(** All the updates one line makes, in the order of the loop body. *)
Definition line_step (st : math_state) (line : str) : math_state :=
  let st := line_open_display line st in
  let st := line_close_display line st in
  let st := line_double_dollar line st in
  let st := line_single_dollar line st in
  let st := line_paren line st in
  let st := foldl line_begin_one st (finditer_env BEGIN 0 line) in
  foldl line_end_one st (finditer_env END 0 line).

(** [line.strip() == ''] *)
Definition is_blank (line : str) : bool := is_empty (strip line).

(** The [while] loop over [lines]; [result] is the list being appended to. *)
Fixpoint strip_loop (st : math_state) (lines result : list str) : list str :=
  match lines with
  | [] => result
  | line :: rest =>
      let st' := line_step st line in
      if any_math_mode st' && is_blank line
      then strip_loop st' rest result
      else strip_loop st' rest (result ++ [line])
  end.

Definition remove_blank_lines_in_math (content : str) : str :=
  join_nl (strip_loop init_state (split_nl content) []).

(** The running state of the line-level machine after the first [k] lines. *)
Definition line_state_after (lines : list str) (k : nat) : math_state :=
  foldl line_step init_state (take k lines).

(** ** The comment writer: [safe_add_math_comments], [add_inclusion_comments] *)

Definition math_delimiters : list str :=
  lit <$> [ "$$"; "\["; "\]"; "$"; "\("; "\)" ]%string.

(** [lines[1:-1]] *)
Definition interior {A} (l : list A) : list A := removelast (drop 1 l).

(** [lines[0]] and [lines[-1]] of a list known not to be empty. *)
Definition first_line (l : list str) : str := hd [] l.
Definition last_line (l : list str) : str := List.last l [].

Definition safe_add_math_comments (content filename : str) : str :=
  let content_stripped := strip content in
  let starts_with_delimiter :=
    existsb (fun d => startswith d content_stripped) math_delimiters in
  let ends_with_delimiter :=
    existsb (fun d => endswith d content_stripped) math_delimiters in
  if length content_stripped <? 10 then
    let begin_comment := lit "% Inline: " ++ filename in
    let end_comment := lit "% End: " ++ filename in
    begin_comment ++ nl ++ content ++ nl ++ end_comment ++ nl
  else if starts_with_delimiter || ends_with_delimiter then
    let lines := split_nl content in
    if 2 <=? length lines then
      let begin_comment := lit "% Begin: " ++ filename in
      let end_comment := lit "% End: " ++ filename ++ nl in
      join_nl ([first_line lines] ++ [begin_comment] ++ interior lines
               ++ [end_comment] ++ [last_line lines])
    else
      let begin_comment := lit "% Begin: " ++ filename in
      let end_comment := lit "% End: " ++ filename in
      begin_comment ++ nl ++ content ++ nl ++ end_comment ++ nl
  else
    let begin_comment := lit "% Begin: " ++ filename in
    let end_comment := lit "% End: " ++ filename in
    begin_comment ++ nl ++ content ++ nl ++ end_comment ++ nl.

Definition add_inclusion_comments (content filename : str)
    (in_math_mode : bool) : str :=
  if in_math_mode then safe_add_math_comments content filename
  else
    let begin_comment :=
      lit "% --- Begin included file: " ++ filename ++ lit " ---" ++ nl in
    let end_comment :=
      lit "% --- End included file: " ++ filename ++ lit " ---" ++ nl in
    begin_comment ++ content ++ end_comment.

(** ** The directive pattern of [resolve_input_commands]

    [r'\\(input|include)\s*(\[.*?\])?\s*\{([^}]+)\}'].  The matcher below
    follows the choices of the backtracking engine: the alternatives in
    order, [\s*] greedy, the optional group tried before it is skipped, [.*?]
    trying the nearest closing bracket first and never crossing a newline,
    [[^}]+] running up to the first closing brace. *)

Record re_match := ReMatch {
  group0 : str;          (* match.group(0) *)
  group1 : str;          (* match.group(1) *)
  group2 : option str;   (* match.group(2), None when the group took no part *)
  group3 : str           (* match.group(3) *)
}.

Definition INPUT : str := lit "input".
Definition INCLUDE : str := lit "include".

(** The characters a greedy [\s*] takes. *)
Fixpoint spaces (s : str) : str :=
  match s with
  | [] => []
  | c :: s' => if is_space c then c :: spaces s' else []
  end.

(** [\s*\{([^}]+)\}] at the start of [s]: [group(3)] and the length matched. *)
Definition match_tail (s : str) : option (str * nat) :=
  let ws := spaces s in
  match match_braced (drop (length ws) s) with
  | Some (arg, n) => Some (arg, length ws + n)
  | None => None
  end.

(** [.*?\]\s*\{([^}]+)\}] at the start of [r], just after the opening
    bracket; [k] characters are already taken by [.*?].  The result is the
    number of characters [.*?] takes, then as for [match_tail]. *)
Fixpoint match_options (k : nat) (r : str) : option (nat * (str * nat)) :=
  match r with
  | [] => None
  | c :: r' =>
      if (c =? RBRACKET)%N then
        match match_tail r' with
        | Some t => Some (k, t)
        | None => match_options (S k) r'
        end
      else if (c =? NEWLINE)%N then None
      else match_options (S k) r'
  end.

(** [(input|include)] at the start of [s]: [group(1)] and the rest. *)
Definition match_command (s : str) : option (str * str) :=
  match strip_prefix INPUT s with
  | Some r => Some (INPUT, r)
  | None =>
      match strip_prefix INCLUDE s with
      | Some r => Some (INCLUDE, r)
      | None => None
      end
  end.

(** The pattern anchored at the start of [text]. *)
Definition match_directive (text : str) : option re_match :=
  match text with
  | c :: r0 =>
      if (c =? BACKSLASH)%N then
        match match_command r0 with
        | Some (cmd, r1) =>
            let ws := spaces r1 in
            match drop (length ws) r1 with
            | b :: r3 =>
                if (b =? LBRACKET)%N then
                  match match_options 0 r3 with
                  | Some (k, (arg, n)) =>
                      let total := 1 + length cmd + length ws + (k + 2) + n in
                      Some (ReMatch (take total text) cmd
                              (Some (take (k + 2) (b :: r3))) arg)
                  | None => None
                  end
                else
                  match match_tail r1 with
                  | Some (arg, n) =>
                      let total := 1 + length cmd + n in
                      Some (ReMatch (take total text) cmd None arg)
                  | None => None
                  end
            | [] => None
            end
        | None => None
        end
      else None
  | [] => None
  end.

(** ** Exceptions

    What a call of a library method gives: its value, or the exception it
    raises, carried as its [str(e)]. *)
Inductive answer (A : Type) :=
  | Returns (a : A)
  | Raises (e : str).
Arguments Returns {A} a.
Arguments Raises {A} e.

(** How a call of a method of the program ends: it returns [a], or the
    exception [e] leaves it; [s] is the state of the object at that moment
    (what the call has done to the object stays done when it raises). *)
Inductive completion (S A : Type) :=
  | Done (a : A) (s : S)
  | Raise (e : str) (s : S).
Arguments Done {S A} a s.
Arguments Raise {S A} e s.

Definition final_state {S A : Type} (r : completion S A) : S :=
  match r with Done _ s | Raise _ s => s end.

(** One call after another: an exception of the first leaves both.  [None]
    is "out of fuel", which the source has no counterpart for. *)
Definition and_then {S A B : Type} (x : option (completion S A))
    (f : A -> S -> option (completion S B)) : option (completion S B) :=
  match x with
  | Some (Done a s) => f a s
  | Some (Raise e s) => Some (Raise e s)
  | None => None
  end.

(** [re.sub(pattern, repl, content)] with a function [repl] that reads and
    writes a state: the leftmost match at or after each position is replaced
    and the search goes on after it.  [pos] is the offset of [text] in
    [content] ([match.start()] of a match found there), [skip] what is left
    of the last match.  An exception of [repl] leaves [re.sub] at once. *)
Fixpoint re_sub {S : Type}
    (repl : re_match -> nat -> S -> option (completion S str))
    (skip pos : nat) (text : str) (s : S) : option (completion S str) :=
  match text with
  | [] => Some (Done [] s)
  | c :: tl =>
      match skip with
      | Datatypes.S k => re_sub repl k (pos + 1) tl s
      | O =>
          match match_directive text with
          | Some m =>
              and_then (repl m pos s) (fun r s1 =>
              and_then (re_sub repl (length (group0 m) - 1) (pos + 1) tl s1)
                (fun out s2 => Some (Done (r ++ out) s2)))
          | None =>
              and_then (re_sub repl 0 (pos + 1) tl s)
                (fun out s2 => Some (Done (c :: out) s2))
          end
      end
  end.

(** ** The file system and [pathlib], as the program uses them *)

Inductive encoding := UTF8 | LATIN1.

(** What [open(...).read()] gives: the text, a [UnicodeDecodeError], or any
    other exception; an exception carries its [str(e)]. *)
Inductive open_result :=
  | Read (content : str)
  | UnicodeDecodeError (e : str)
  | OtherError (e : str).

(** [with_suffix] raises [ValueError] on a path with an empty name, and
    [exists] raises the [OSError] of [stat] when it is not one of those for
    a file that is not there (a name that is too long, a directory that may
    not be searched). *)
Class FileSystem := {
  path : Type;
  path_eq_dec :: EqDecision path;
  path_countable :: Countable path;
  joinpath : path -> str -> path;          (* p / s *)
  parent : path -> path;                   (* p.parent *)
  path_name : path -> str;                 (* p.name *)
  with_suffix : path -> str -> answer path;   (* p.with_suffix(s) *)
  path_exists : path -> answer bool;          (* p.exists() *)
  open_read : path -> encoding -> open_result;
  open_write : path -> str -> option str;  (* the exception raised, if any *)
  path_str : path -> str                   (* str(p) *)
}.

(** The lines the program prints. *)
Inductive message `{FileSystem} :=
  | WarnNotFound (file_arg : str)
  | WarnCircular (file_path : path)
  | MsgInlining (file_path : path) (in_math_mode : bool)
  | MsgErrorProcessing (file_path : path) (e : str)
  | MsgMainNotFound (main : path)
  | MsgStart (main output : path)
  | MsgSuccess (output : path) (processed : nat)
  | MsgError (e : str).

(** The fields of a [LatexInliner] and what it has printed. *)
Record inliner `{FileSystem} := Inliner {
  main_file : path;
  output_file : path;
  processed_files : gset path;
  current_depth : nat;
  stdout : list message
}.

Section Inliner.
Context `{FS : FileSystem}.

Definition max_depth : nat := 10.

Definition set_depth (d : nat) (self : inliner) : inliner :=
  Inliner _ (main_file self) (output_file self) (processed_files self) d
    (stdout self).

Definition add_processed (p : path) (self : inliner) : inliner :=
  Inliner _ (main_file self) (output_file self)
    ({[ p ]} ∪ processed_files self) (current_depth self) (stdout self).

Definition print (m : message) (self : inliner) : inliner :=
  Inliner _ (main_file self) (output_file self) (processed_files self)
    (current_depth self) (stdout self ++ [m]).

(** [read_file]: the content, or the [str(e)] of the exception raised. *)
Definition read_file (file_path : path) : str + str :=
  match open_read file_path UTF8 with
  | Read c => inl c
  | UnicodeDecodeError _ =>
      match open_read file_path LATIN1 with
      | Read c => inl c
      | UnicodeDecodeError e | OtherError e => inr e
      end
  | OtherError e => inr e
  end.

(** The [for path in possible_paths ... else] loop. *)
Fixpoint first_existing (possible_paths : list path)
    : answer (option path) :=
  match possible_paths with
  | [] => Returns None
  | p :: ps =>
      match path_exists p with
      | Returns true => Returns (Some p)
      | Returns false => first_existing ps
      | Raises e => Raises e
      end
  end.

(** The path a directive resolves to, [None] when no candidate exists.
    The list of candidates is built before the loop starts. *)
Definition find_file (self : inliner) (current_dir : path) (file_arg : str)
    : answer (option path) :=
  let file_path := joinpath current_dir file_arg in
  match path_exists file_path with
  | Returns true => Returns (Some file_path)
  | Returns false =>
      match with_suffix file_path (lit ".tex") with
      | Returns with_tex =>
          first_existing
            [ file_path;
              with_tex;
              joinpath (parent (main_file self)) file_arg;
              joinpath (parent (main_file self)) (path_name file_path) ]
      | Raises e => Raises e
      end
  | Raises e => Raises e
  end.

(** [file_arg] of a match: stripped, with the extension added. *)
Definition file_arg_of (m : re_match) : str :=
  let file_arg := strip (group3 m) in
  if negb (endswith (lit ".tex") file_arg) then file_arg ++ lit ".tex"
  else file_arg.

Definition circular_comment (m : re_match) (in_math_mode : bool) : str :=
  if in_math_mode then lit "% Circular include prevented: " ++ group0 m
  else nl ++ lit "% Circular include prevented: " ++ group0 m ++ nl.

Definition error_comment (file_path : path) (e : str) (m : re_match)
    (in_math_mode : bool) : str :=
  let error_msg :=
    lit "% Error including " ++ path_str file_path ++ lit ": " ++ e in
  if in_math_mode then error_msg ++ nl ++ group0 m
  else nl ++ error_msg ++ nl ++ group0 m ++ nl.

(** How a call on a [LatexInliner] ends. *)
Definition result (A : Type) : Type := option (completion inliner A).

(** The closure [replace_command]; [resolve] is the recursive call,
    [content] and [current_dir] are the variables it captures.  The search
    for the file is outside the [try]: what it raises leaves the closure.
    What the recursive call raises is caught like a failed read, with the
    object as the call left it. *)
Definition replace_command
    (resolve : str -> path -> inliner -> result str)
    (content : str) (current_dir : path)
    (m : re_match) (match_start : nat) (self : inliner) : result str :=
  let in_math_mode := is_in_math_mode content match_start in
  let file_arg := file_arg_of m in
  match find_file self current_dir file_arg with
  | Raises e => Some (Raise e self)
  | Returns None =>
      Some (Done (group0 m) (print (WarnNotFound file_arg) self))
  | Returns (Some file_path) =>
      if bool_decide (file_path ∈ processed_files self) then
        Some (Done (circular_comment m in_math_mode)
                (print (WarnCircular file_path) self))
      else
        let self := add_processed file_path self in
        let self := print (MsgInlining file_path in_math_mode) self in
        match read_file file_path with
        | inr e =>
            Some (Done (error_comment file_path e m in_math_mode)
                    (print (MsgErrorProcessing file_path e) self))
        | inl file_content =>
            let file_content :=
              if in_math_mode then strip file_content else file_content in
            match resolve file_content (parent file_path) self with
            | Some (Done resolved_content self) =>
                Some (Done (add_inclusion_comments resolved_content
                              (path_name file_path) in_math_mode) self)
            | Some (Raise e self) =>
                Some (Done (error_comment file_path e m in_math_mode)
                        (print (MsgErrorProcessing file_path e) self))
            | None => None
            end
        end
  end.

(** [resolve_input_commands].  The recursion of the source is bounded by
    its own depth counter; [fuel] only makes that bound structural, and
    [None] is "out of fuel", which the source has no counterpart for.  An
    exception leaves the call before the counter is decremented. *)
Fixpoint resolve_input_commands (fuel : nat) (content : str)
    (current_dir : path) (self : inliner) {struct fuel} : result str :=
  if max_depth <? current_depth self then Some (Done content self)
  else
    match fuel with
    | O => None
    | S fuel' =>
        let self := set_depth (current_depth self + 1) self in
        and_then
          (re_sub (replace_command (resolve_input_commands fuel') content
                     current_dir) 0 0 content self)
          (fun content' self =>
             Some (Done content'
                     (set_depth (current_depth self - 1) self)))
    end.

(** What a run of [inline_latex] leaves behind. *)
Inductive outcome :=
  | Written (content : str)   (* returned True, [content] is in output_file *)
  | Failed.                   (* returned False *)

(** [inline_latex]; the first test is outside the [try]. *)
Definition inline_latex (fuel : nat) (self : inliner) : result outcome :=
  match path_exists (main_file self) with
  | Raises e => Some (Raise e self)
  | Returns false =>
      Some (Done Failed (print (MsgMainNotFound (main_file self)) self))
  | Returns true =>
      let self :=
        print (MsgStart (main_file self) (output_file self)) self in
      match read_file (main_file self) with
      | inr e => Some (Done Failed (print (MsgError e) self))
      | inl main_content =>
          let self := add_processed (main_file self) self in
          match resolve_input_commands fuel main_content
                  (parent (main_file self)) self with
          | Some (Done inlined_content self) =>
              let inlined_content :=
                remove_blank_lines_in_math inlined_content in
              match open_write (output_file self) inlined_content with
              | Some e => Some (Done Failed (print (MsgError e) self))
              | None =>
                  Some (Done (Written inlined_content)
                          (print (MsgSuccess (output_file self)
                                    (size (processed_files self))) self))
              end
          | Some (Raise e self) => Some (Done Failed (print (MsgError e) self))
          | None => None
          end
      end
  end.

(** The object [__init__] leaves. *)
Definition fresh (main output : path) : inliner :=
  Inliner _ main output ∅ 0 [].

(** [LatexInliner(main_file, output_file)]; the default name of the
    output is made with [with_suffix], which may raise. *)
Definition new_inliner (main : path) (output : option path)
    : answer inliner :=
  match output with
  | Some o => Returns (fresh main o)
  | None =>
      match with_suffix main (lit ".inline.tex") with
      | Returns o => Returns (fresh main o)
      | Raises e => Raises e
      end
  end.

End Inliner.

(** ** A concrete file system

    Paths are [pathlib]'s [parts]: the components in order, a leading ["/"]
    for an absolute path.  As in [pathlib], joining collapses empty and
    single-dot components and keeps double dots; the operating system follows
    the double dots when it looks a path up. *)
Module Posix.

Definition SLASH : char := 47%N.
Definition DOT : char := 46%N.

Fixpoint split_slash (s : str) : list str :=
  match s with
  | [] => [[]]
  | c :: s' =>
      if (c =? SLASH)%N then [] :: split_slash s'
      else match split_slash s' with
           | [] => [[c]]
           | l :: ls => (c :: l) :: ls
           end
  end.

Definition str_eqb (a b : str) : bool := bool_decide (a = b).

(** The parts of a path written as text. *)
Definition parse (s : str) : list str :=
  let comps :=
    List.filter (fun c => negb (is_empty c) && negb (str_eqb c [DOT]))
      (split_slash s) in
  if startswith [SLASH] s then [SLASH] :: comps else comps.

Definition join (p : list str) (s : str) : list str :=
  if startswith [SLASH] s then parse s else p ++ parse s.

Definition dirname (p : list str) : list str :=
  match p with
  | [r] => if str_eqb r [SLASH] then p else []
  | _ => removelast p
  end.

Definition basename (p : list str) : str :=
  match p with
  | [r] => if str_eqb r [SLASH] then [] else r
  | _ => List.last p []
  end.

(** The offset of the last dot of a name, when it starts a suffix. *)
Fixpoint rfind_dot (i : nat) (s : str) : option nat :=
  match s with
  | [] => None
  | c :: s' =>
      match rfind_dot (i + 1) s' with
      | Some j => Some j
      | None => if (c =? DOT)%N then Some i else None
      end
  end.

Definition stem (n : str) : str :=
  match rfind_dot 0 n with
  | Some i => if (0 <? i) && (i <? length n - 1) then take i n else n
  | None => n
  end.

Fixpoint join_slash (p : list str) : str :=
  match p with
  | [] => []
  | [c] => c
  | c :: p' => if str_eqb c [SLASH] then c ++ join_slash p'
               else c ++ [SLASH] ++ join_slash p'
  end.

Definition to_str (p : list str) : str :=
  match p with [] => [DOT] | _ => join_slash p end.

(** [p.with_suffix(suffix)] for a suffix that is a dot and a name, as the
    two the program uses are: [ValueError] when [p] has an empty name. *)
Definition replace_suffix (p : list str) (suffix : str)
    : answer (list str) :=
  if is_empty (basename p)
  then Raises (lit "PosixPath('" ++ to_str p ++ lit "') has an empty name")
  else Returns (removelast p ++ [stem (basename p) ++ suffix]).

(** A file on the disk: readable as UTF-8, readable only as Latin-1, or
    not readable at all. *)
Inductive file :=
  | Text (content : str)
  | Latin1Only (content : str)
  | Unreadable (e : str).

(** The files under the working directory, by their relative names; the
    directories are those the names go through. *)
Definition disk := list (string * file).

Fixpoint is_prefix (p q : list str) : bool :=
  match p, q with
  | [], _ :: _ => true
  | a :: p', b :: q' => str_eqb a b && is_prefix p' q'
  | _, _ => false
  end.

(** [p], without double dots, is a directory: the working directory or a
    proper prefix of the name of a file. *)
Definition is_dir (d : disk) (p : list str) : bool :=
  match p with
  | [] => true
  | _ :: _ => existsb (fun e => is_prefix p (parse (lit e.1))) d
  end.

(** The length of a text in bytes, written as UTF-8. *)
Definition utf8_length (s : str) : nat :=
  foldr (fun c n =>
           (if (c <? 128)%N then 1 else if (c <? 2048)%N then 2
            else if (c <? 65536)%N then 3 else 4) + n) 0 s.

(** The limits of the operating system on a name and on a whole path. *)
Definition NAME_MAX : nat := 255.
Definition PATH_MAX : nat := 4096.

(** Where the walk along a path ends. *)
Inductive walked :=
  | Reached (q : list str)
  | Missing
  | TooLong.

(** What the operating system does with the components of a path: [done]
    is the place reached; a double dot leaves it for its parent when it is
    a directory below the working directory; a name of more than
    [NAME_MAX] bytes is refused when it is looked up in a directory. *)
Fixpoint normalise (d : disk) (done todo : list str) : walked :=
  match todo with
  | [] => Reached done
  | c :: todo' =>
      if str_eqb c [DOT; DOT] then
        match done with
        | [] => Missing
        | _ :: _ =>
            if is_dir d done then normalise d (removelast done) todo'
            else Missing
        end
      else if NAME_MAX <? utf8_length c then
        if is_dir d done then TooLong else Missing
      else normalise d (done ++ [c]) todo'
  end.

(** The walk from the working directory; a path of [PATH_MAX] bytes or
    more is refused before it. *)
Definition walk (d : disk) (p : list str) : walked :=
  if PATH_MAX <=? utf8_length (to_str p) then TooLong
  else normalise d [] p.

(** [str(e)] of the [OSError] for a name that is too long (for a path that
    [repr] writes between single quotes as it is). *)
Definition name_too_long (p : list str) : str :=
  lit "[Errno 36] File name too long: '" ++ to_str p ++ lit "'".

Fixpoint lookup_file (d : disk) (p : list str) : option file :=
  match d with
  | [] => None
  | (n, f) :: d' =>
      if bool_decide (parse (lit n) = p) then Some f else lookup_file d' p
  end.

(** The file a path leads to. *)
Definition lookup (d : disk) (p : list str) : option file :=
  match walk d p with
  | Reached q => lookup_file d q
  | Missing | TooLong => None
  end.

(** [p.exists()]: a file or a directory; the error of a name that is too
    long is raised, that of a file that is not there is not. *)
Definition exists_on (d : disk) (p : list str) : answer bool :=
  match walk d p with
  | Reached q => Returns (bool_decide (is_Some (lookup_file d q)) || is_dir d q)
  | Missing => Returns false
  | TooLong => Raises (name_too_long p)
  end.

Definition read (d : disk) (p : list str) (enc : encoding) : open_result :=
  match lookup d p, enc with
  | Some (Text c), _ => Read c
  | Some (Latin1Only c), UTF8 => UnicodeDecodeError (lit "invalid start byte")
  | Some (Latin1Only c), LATIN1 => Read c
  | Some (Unreadable e), _ => OtherError e
  | None, _ =>
      match exists_on d p with
      | Returns true => OtherError (lit "Is a directory")
      | Returns false => OtherError (lit "No such file or directory")
      | Raises e => OtherError e
      end
  end.

Definition fs (d : disk) : FileSystem := {|
  path := list str;
  joinpath := join;
  parent := dirname;
  path_name := basename;
  with_suffix := replace_suffix;
  path_exists := exists_on d;
  open_read := read d;
  open_write := fun _ _ => None;
  path_str := to_str
|}.

(** Running the tool as [latex-inliner.py main] on a disk; no run when
    the object cannot be made. *)
Definition run (d : disk) (main : string)
    : option (completion (@inliner (fs d)) outcome) :=
  match new_inliner (FS := fs d) (parse (lit main)) None with
  | Returns self => inline_latex (FS := fs d) (max_depth + 1) self
  | Raises _ => None
  end.

(** The text such a run writes, when it writes one. *)
Definition written (d : disk) (main : string) : option str :=
  match run d main with
  | Some (Done (Written content) _) => Some content
  | _ => None
  end.

(** The messages such a run prints. *)
Definition printed (d : disk) (main : string) : list (@message (fs d)) :=
  match run d main with
  | Some r => stdout (final_state r)
  | None => []
  end.

End Posix.

(** ** Notions the properties are stated with *)

(** The lines [remove_blank_lines_in_math] is expected to keep: line [i]
    goes when it is blank and the running state after it is a math state. *)
Definition kept_lines (lines : list str) : list str :=
  omap (fun i =>
          line ← lines !! i;
          if any_math_mode (line_state_after lines (S i)) && is_blank line
          then None else Some line)
       (seq 0 (length lines)).

(** What scanning the token [\]] does to a state in display math. *)
Definition close_display (st : math_state) : math_state :=
  set_in_math false (set_in_display_math false st).

(** The pattern of [resolve_input_commands] matches somewhere in [s]. *)
Fixpoint has_directive (s : str) : bool :=
  match match_directive s with
  | Some _ => true
  | None => match s with [] => false | _ :: s' => has_directive s' end
  end.

(** A recognised math environment is opened somewhere in [s]. *)
Fixpoint has_math_begin (s : str) : bool :=
  match match_env BEGIN s with
  | Some (env_name, _) => is_math_env env_name
  | None => false
  end
  || match s with [] => false | _ :: s' => has_math_begin s' end.

(** A dollar sign of [s] is not written [\$]; [prev] is the character
    before [s]. *)
Fixpoint has_bare_dollar (prev : option char) (s : str) : bool :=
  match s with
  | [] => false
  | c :: s' =>
      (c =? DOLLAR)%N && negb (bool_decide (prev = Some BACKSLASH))
      || has_bare_dollar (Some c) s'
  end.

(** A document with no math region: no token of it opens one. *)
Definition math_free (s : str) : bool :=
  negb (has_bare_dollar None s) && negb (contains (lit "\[") s)
  && negb (contains (lit "\(") s) && negb (has_math_begin s).

(** The paths a run reports as inlined, in order. *)
Definition inlined_paths `{FileSystem} (out : list message) : list path :=
  omap (fun m => match m with MsgInlining p _ => Some p | _ => None end) out.

(** The number of circular-inclusion markers in a text. *)
Definition circular_markers (s : str) : Z :=
  count (lit "% Circular include prevented: ") s.

(** The token [\]] and what the scanner does with it. *)
Definition CLOSE : str := [BACKSLASH; RBRACKET].

Definition scan_close (st : math_state) : math_state :=
  if in_display_math st then close_display st else st.

(** [s] starts with a dollar sign. *)
Definition starts_with_dollar (s : str) : bool :=
  match s with c :: _ => (c =? DOLLAR)%N | [] => false end.

(** One state extends another: it has printed more, the paths it reports as
    inlined are distinct and were not in [processed_files], they are what
    has been added to the set, and the depth counter is not below where it
    was (a call that an exception has left does not decrement it). *)
Definition extends `{FileSystem} (self self' : inliner) : Prop :=
  main_file self' = main_file self
  /\ output_file self' = output_file self
  /\ current_depth self <= current_depth self'
  /\ exists new,
       stdout self' = stdout self ++ new
       /\ NoDup (inlined_paths new)
       /\ (forall p, p ∈ inlined_paths new -> p ∉ processed_files self)
       /\ processed_files self'
          = processed_files self ∪ list_to_set (inlined_paths new).

(** The offsets and the matches [re.sub] visits in a text, left to
    right. *)
Fixpoint directives_at (skip pos : nat) (text : str)
    : list (nat * re_match) :=
  match text with
  | [] => []
  | _ :: tl =>
      match skip with
      | S k => directives_at k (pos + 1) tl
      | O =>
          match match_directive text with
          | Some m =>
              (pos, m) :: directives_at (length (group0 m) - 1) (pos + 1) tl
          | None => directives_at 0 (pos + 1) tl
          end
      end
  end.

(** [pre ++ group0 m ++ post] holds one directive, [m], behind [pre]. *)
Definition one_directive (pre : str) (m : re_match) (post : str) : Prop :=
  (forall i, i < length pre ->
     match_directive (drop i (pre ++ group0 m ++ post)) = None)
  /\ match_directive (group0 m ++ post) = Some m
  /\ has_directive post = false.

(** A file on a chain of inclusions: its path, and its text around its one
    directive. *)
Record level `{FileSystem} := Level {
  level_path : path;
  level_pre : str;
  level_match : re_match;
  level_post : str
}.

Definition level_text `{FileSystem} (l : level) : str :=
  level_pre l ++ group0 (level_match l) ++ level_post l.

(** The directive of the text is in math. *)
Definition level_math `{FileSystem} (l : level) : bool :=
  is_in_math_mode (level_text l) (length (level_pre l)).

(** A chain of inclusions that comes back to a visited path: the directive
    of each text resolves to the file of the next one, which has not been
    visited and is read (and stripped, behind a directive in math); the
    directive of the last text resolves to [q], which has been visited.
    [dir] is the directory the first text is resolved in. *)
Fixpoint chain `{FileSystem} (self : inliner) (dir : path)
    (visited : gset path) (q : path) (ls : list level) : Prop :=
  match ls with
  | [] => False
  | l :: rest =>
      one_directive (level_pre l) (level_match l) (level_post l)
      /\ match rest with
         | [] =>
             find_file self dir (file_arg_of (level_match l))
             = Returns (Some q)
             /\ q ∈ visited
         | l' :: _ =>
             find_file self dir (file_arg_of (level_match l))
             = Returns (Some (level_path l'))
             /\ (level_path l' ∉ visited)
             /\ (exists c,
                   read_file (level_path l') = inl c
                   /\ (if level_math l then strip c else c) = level_text l')
             /\ chain self (parent (level_path l'))
                  ({[ level_path l' ]} ∪ visited) q rest
         end
  end.

(** What the first text of a chain becomes: each directive replaced by the
    next text between its comments, the last one by the marker. *)
Fixpoint chain_output `{FileSystem} (ls : list level) : str :=
  match ls with
  | [] => []
  | l :: rest =>
      level_pre l
      ++ match rest with
         | [] => circular_comment (level_match l) (level_math l)
         | l' :: _ =>
             add_inclusion_comments (chain_output rest)
               (path_name (level_path l')) (level_math l)
         end
      ++ level_post l
  end.

(** The "Inlining" lines of a chain. *)
Fixpoint chain_inlinings `{FileSystem} (ls : list level) : list message :=
  match ls with
  | [] => []
  | l :: rest =>
      match rest with
      | [] => []
      | l' :: _ =>
          MsgInlining (level_path l') (level_math l) :: chain_inlinings rest
      end
  end.

(** TeX's own reading of a text, to tell a text without math: a backslash
    takes the character behind it with it, so that [\\] is one token and a
    bracket behind it is text, and [\$] is no dollar sign.  No token of the
    text opens math: no [$], no [\[], no [\(], no [\begin] of a recognised
    environment.  [skip] characters belong to the token before. *)
Fixpoint tex_math_free (skip : nat) (s : str) : bool :=
  match s with
  | [] => true
  | c :: s' =>
      match skip with
      | S k => tex_math_free k s'
      | O =>
          if (c =? DOLLAR)%N then false
          else if (c =? BACKSLASH)%N then
            match s' with
            | [] => true
            | c2 :: _ =>
                if (c2 =? LBRACKET)%N || (c2 =? LPAREN)%N then false
                else
                  match match_env BEGIN s with
                  | Some (env_name, _) =>
                      negb (is_math_env env_name) && tex_math_free 1 s'
                  | None => tex_math_free 1 s'
                  end
            end
          else tex_math_free 0 s'
      end
  end.

(** ** Example projects *)

Module Examples.
Import Posix.

Definition root_and_sub : disk :=
  [ ("main.tex"%string, Text (lit "\input{sub}"));
    ("sub.tex"%string, Text (lit "x = 1" ++ nl)) ].

Definition self_include : disk :=
  [ ("main.tex"%string, Text (lit "a \input{main} b")) ].

Definition two_cycle : disk :=
  [ ("a.tex"%string, Text (lit "A \input{b} B"));
    ("b.tex"%string, Text (lit "<\input{a}>")) ].

(** A cycle that goes through a subdirectory and comes back with [..]. *)
Definition dotdot_cycle : disk :=
  [ ("a.tex"%string, Text (lit "A \input{sub/b} B"));
    ("sub/b.tex"%string, Text (lit "<\input{../a}>")) ].

(** Two parents including the same file. *)
Definition diamond : disk :=
  [ ("main.tex"%string, Text (lit "\input{left}\input{right}"));
    ("left.tex"%string, Text (lit "L \input{shared}" ++ nl));
    ("right.tex"%string, Text (lit "R \input{shared}" ++ nl));
    ("shared.tex"%string, Text (lit "S" ++ nl)) ].

(** A missing file and an unreadable one before a good one. *)
Definition failures : disk :=
  [ ("main.tex"%string,
     Text (lit "\input{missing} \input{locked} \input{sub}"));
    ("locked.tex"%string, Unreadable (lit "Permission denied"));
    ("sub.tex"%string, Text (lit "x = 1" ++ nl)) ].

(** A document without directives and without math. *)
Definition plain_text : disk :=
  [ ("main.tex"%string,
     Text (lit "Price: \$5" ++ nl ++ nl ++ lit "\begin{itemize}" ++ nl
           ++ lit "\item one" ++ nl ++ lit "\end{itemize}" ++ nl)) ].

(** A name of 256 bytes, one more than a directory takes. *)
Definition long_name : str := replicate 256 120%N.

(** A directive with such a name before a good one. *)
Definition too_long : disk :=
  [ ("main.tex"%string,
     Text (lit "\input{" ++ long_name ++ lit "} \input{sub}"));
    ("sub.tex"%string, Text (lit "x = 1" ++ nl)) ].

(** The same one level down. *)
Definition nested_too_long : disk :=
  [ ("main.tex"%string, Text (lit "\input{sub} \input{other}"));
    ("sub.tex"%string, Text (lit "\input{" ++ long_name ++ lit "}"));
    ("other.tex"%string, Text (lit "y = 2" ++ nl)) ].

(** Two paragraphs without math, the first one ending in a line break
    with a length. *)
Definition table_row : str :=
  lit "a & b \\[2pt]" ++ nl ++ nl ++ lit "text".

Definition table : disk := [ ("main.tex"%string, Text table_row) ].

Definition verse : str :=
  lit "one \\[1ex]" ++ nl ++ lit "two" ++ nl ++ nl ++ lit "three".

(** The state of a run once the main file is read and marked. *)
Definition started (d : disk) (main : string) : @inliner (fs d) :=
  let self :=
    fresh (FS := fs d) (parse (lit main))
      (removelast (parse (lit main))
         ++ [stem (basename (parse (lit main))) ++ lit ".inline.tex"]) in
  add_processed (FS := fs d) (parse (lit main))
    (print (FS := fs d)
       (MsgStart (main_file self) (output_file self)) self).

(** The match object of [\input{name}]. *)
Definition input_match (name : string) : re_match :=
  ReMatch (lit "\input{" ++ lit name ++ lit "}") INPUT None (lit name).

(** The block of the specification's blank-line example. *)
Definition align_block : str :=
  lit "\begin{align}" ++ nl ++ lit "A" ++ nl ++ nl ++ nl ++ lit "B" ++ nl
  ++ lit "\end{align}".

Definition align_block_stripped : str :=
  lit "\begin{align}" ++ nl ++ lit "A" ++ nl ++ lit "B" ++ nl
  ++ lit "\end{align}".

End Examples.

(** ** The command line: [LatexInliner.__init__] from strings, and [main] *)

Section Main.
Context `{FS : FileSystem}.

(** [Path(s)] *)
Variable Path : str -> path.

(** [LatexInliner(main_file, output_file)] with the arguments as [main]
    passes them; an empty [output_file] is false, like [None]. *)
Definition LatexInliner (main_file : str) (output_file : option str)
    : answer inliner :=
  new_inliner (Path main_file)
    (match output_file with
     | Some o => if is_empty o then None else Some (Path o)
     | None => None
     end).

(** What [main] does: print the usage and exit with 1, run and exit with
    the status of the run, or end on an exception nothing catches. *)
Inductive main_result :=
  | Usage
  | Ran (code : nat) (success : outcome) (self : inliner)
  | Crashed (e : str).

(** [main] on [sys.argv]. *)
Definition main (fuel : nat) (argv : list str) : option main_result :=
  if length argv <? 2 then Some Usage
  else
    let main_file := nth 1 argv [] in
    let output_file :=
      if 2 <? length argv then Some (nth 2 argv []) else None in
    match LatexInliner main_file output_file with
    | Raises e => Some (Crashed e)
    | Returns inliner =>
        match inline_latex fuel inliner with
        | Some (Done success self) =>
            Some (Ran (match success with Written _ => 0 | Failed => 1 end)
                    success self)
        | Some (Raise e _) => Some (Crashed e)
        | None => None
        end
    end.

(** The status the process ends with: that of [sys.exit], or 1 after an
    exception nothing catches. *)
Definition exit_code (r : main_result) : nat :=
  match r with Usage => 1 | Ran code _ _ => code | Crashed _ => 1 end.

End Main.

(** ** Notions for further properties *)

(** Text without a backslash and without a dollar sign. *)
Definition plain (s : str) : bool :=
  forallb (fun c => negb (c =? BACKSLASH)%N && negb (c =? DOLLAR)%N) s.

(** A line of such text. *)
Definition plain_line (s : str) : bool :=
  forallb (fun c => negb (c =? BACKSLASH)%N && negb (c =? DOLLAR)%N
                    && negb (c =? NEWLINE)%N) s.

(** The character before the text that follows [s]. *)
Definition prev_after (prev : option char) (s : str) : option char :=
  match last s with Some c => Some c | None => prev end.

(** The opening and the closing text of an environment. *)
Definition begin_env (env_name : str) : str :=
  BEGIN ++ [LBRACE] ++ env_name ++ [RBRACE].
Definition end_env (env_name : str) : str :=
  END ++ [LBRACE] ++ env_name ++ [RBRACE].

(** The delimiter pairs of the math regions the scanners know. *)
Definition region_delimiters : list (str * str) :=
  [ (lit "$", lit "$"); (lit "$$", lit "$$"); (lit "\[", lit "\]");
    (lit "\(", lit "\)") ]
  ++ ((fun e => (begin_env e, end_env e)) <$> math_environments).

(** The pairs that open and close a block when each stands on a line of
    its own. *)
Definition block_delimiters : list (str * str) :=
  [ (lit "$", lit "$"); (lit "$$", lit "$$"); (lit "\[", lit "\]") ]
  ++ ((fun e => (begin_env e, end_env e)) <$> math_environments).

(** The matches [re.sub] visits in [text], left to right. *)
Fixpoint directives (skip : nat) (text : str) : list re_match :=
  match text with
  | [] => []
  | _ :: tl =>
      match skip with
      | S k => directives k tl
      | O =>
          match match_directive text with
          | Some m => m :: directives (length (group0 m) - 1) tl
          | None => directives 0 tl
          end
      end
  end.

(** The opening and closing lines: what each does to the state, and that
    it is a line. *)
Definition block_ok (oc : str * str) : bool :=
  let st := line_step init_state oc.1 in
  let st' := line_step st oc.2 in
  any_math_mode st && negb (any_math_mode st')
  && negb (in_math st') && negb (is_blank oc.1)
  && forallb (fun ch => negb (ch =? NEWLINE)%N) oc.1
  && forallb (fun ch => negb (ch =? NEWLINE)%N) oc.2.

(** Every path [self'] has marked and [self] had not exists. *)
Definition marks_existing `{FileSystem} (self self' : inliner) : Prop :=
  forall p, p ∈ processed_files self' ->
            p ∈ processed_files self \/ path_exists p = Returns true.

(** * Properties *)

Local Arguments N.eqb : simpl never.
Local Arguments lit : simpl never.
Local Set Warnings "-clear-no-such-hyp".

(** ** The blank-line stripper *)

Section Stripper.

Implicit Types (st : math_state) (line : str) (lines pre : list str).

Lemma line_state_after_snoc pre line lines :
  line_state_after (pre ++ line :: lines) (S (length pre))
  = line_step (foldl line_step init_state pre) line.
Proof.
  unfold line_state_after.
  replace (pre ++ line :: lines) with ((pre ++ [line]) ++ lines)
    by (rewrite <- app_assoc; reflexivity).
  replace (S (length pre)) with (length (pre ++ [line]))
    by (rewrite length_app; simpl; lia).
  rewrite take_app_length, foldl_app. reflexivity.
Qed.

(** The loop appends to [result] exactly the lines [kept_lines] selects. *)
Lemma strip_loop_spec lines : forall pre result,
  strip_loop (foldl line_step init_state pre) lines result
  = result
    ++ omap (fun i =>
               line ← (pre ++ lines) !! i;
               if any_math_mode (line_state_after (pre ++ lines) (S i))
                  && is_blank line
               then None else Some line)
            (seq (length pre) (length lines)).
Proof.
  induction lines as [|line lines IH]; intros pre result; simpl.
  - rewrite app_nil_r. reflexivity.
  - rewrite list_lookup_middle by reflexivity. simpl.
    rewrite line_state_after_snoc.
    specialize (IH (pre ++ [line])).
    rewrite foldl_app in IH. simpl in IH.
    rewrite length_app in IH. simpl in IH.
    replace (length pre + 1) with (S (length pre)) in IH by lia.
    rewrite <- app_assoc in IH. simpl in IH.
    destruct (any_math_mode _ && is_blank line); rewrite IH.
    + reflexivity.
    + rewrite <- app_assoc. reflexivity.
Qed.

Lemma strip_loop_kept lines :
  strip_loop init_state lines [] = kept_lines lines.
Proof. exact (strip_loop_spec lines [] []). Qed.

(** What the loop appends is a subsequence of the lines it reads and has
    all their non-blank lines. *)
Lemma strip_loop_app lines : forall st result,
  exists ks,
    strip_loop st lines result = result ++ ks
    /\ ks `sublist_of` lines
    /\ List.filter (fun l => negb (is_blank l)) ks
       = List.filter (fun l => negb (is_blank l)) lines.
Proof.
  induction lines as [|line lines IH]; intros st result; simpl.
  - exists []. rewrite app_nil_r. repeat split. constructor.
  - destruct (any_math_mode (line_step st line) && is_blank line) eqn:E.
    + destruct (IH (line_step st line) result) as (ks & -> & Hs & Hf).
      exists ks. repeat split.
      * constructor. exact Hs.
      * apply andb_true_iff in E as [_ ->]. simpl. exact Hf.
    + destruct (IH (line_step st line) (result ++ [line]))
        as (ks & -> & Hs & Hf).
      exists (line :: ks). repeat split.
      * rewrite <- app_assoc. reflexivity.
      * constructor. exact Hs.
      * simpl. rewrite Hf. reflexivity.
Qed.

(** *** Blank lines *)

Lemma lstrip_nil (s : str) :
  lstrip s = [] -> Forall (fun c => is_space c = true) s.
Proof.
  induction s as [|c s IH]; [constructor|]. simpl.
  destruct (is_space c) eqn:E; [|discriminate].
  intros H. constructor; [exact E|apply IH, H].
Qed.

Lemma lstrip_head (s : str) c t :
  lstrip s = c :: t -> is_space c = false /\ c ∈ s.
Proof.
  induction s as [|d s IH]; [discriminate|]. simpl.
  destruct (is_space d) eqn:E.
  - intros H. destruct (IH H) as [Hc Hin]. split; [exact Hc|].
    right. exact Hin.
  - intros [= <- <-]. split; [exact E|left].
Qed.

(** A line that strips to nothing is made of whitespace. *)
Lemma is_blank_spaces line :
  is_blank line = true -> Forall (fun c => is_space c = true) line.
Proof.
  unfold is_blank, strip, rstrip. intros H.
  destruct (lstrip line) as [|c t] eqn:E; [apply lstrip_nil, E|].
  exfalso.
  destruct (reverse (lstrip (reverse (c :: t)))) eqn:R; [|discriminate].
  apply (f_equal reverse) in R. rewrite reverse_involutive in R.
  apply lstrip_nil in R. rewrite Forall_forall in R.
  assert (is_space c = true) as Hc.
  { apply R. apply elem_of_reverse. left. }
  apply lstrip_head in E as [E _]. congruence.
Qed.

Section Whitespace.

Variables (a : char) (p : str).
Hypothesis a_not_space : is_space a = false.

(** No token that starts with a visible character is found in
    whitespace. *)
Lemma startswith_spaces s :
  Forall (fun c => is_space c = true) s -> startswith (a :: p) s = false.
Proof using a_not_space.
  intros H. destruct H as [|c s Hc _]; [reflexivity|]. simpl.
  destruct (N.eqb_spec a c) as [<-|]; [congruence|reflexivity].
Qed.

Lemma contains_spaces s :
  Forall (fun c => is_space c = true) s -> contains (a :: p) s = false.
Proof using a_not_space.
  intros H. induction H as [|c s Hc Hs IH]; [reflexivity|].
  change (contains (a :: p) (c :: s))
    with (startswith (a :: p) (c :: s) || contains (a :: p) s).
  rewrite IH, startswith_spaces; [reflexivity|]. constructor; assumption.
Qed.

Lemma count_from_spaces s : forall k,
  Forall (fun c => is_space c = true) s -> count_from k (a :: p) s = 0%Z.
Proof using a_not_space.
  intros k H. revert k. induction H as [|c s Hc Hs IH]; intros k;
    [reflexivity|].
  change (count_from k (a :: p) (c :: s))
    with (match k with
          | S k' => count_from k' (a :: p) s
          | O => if startswith (a :: p) (c :: s)
                 then (1 + count_from (length (a :: p) - 1) (a :: p) s)%Z
                 else count_from 0 (a :: p) s
          end).
  destruct k; [|apply IH].
  rewrite startswith_spaces by (constructor; assumption). apply IH.
Qed.

Lemma match_env_spaces s :
  Forall (fun c => is_space c = true) s -> match_env (a :: p) s = None.
Proof using a_not_space.
  intros H. unfold match_env. destruct H as [|c s Hc _]; [reflexivity|].
  simpl. destruct (N.eqb_spec a c) as [<-|]; [congruence|reflexivity].
Qed.

Lemma finditer_env_spaces s : forall k,
  Forall (fun c => is_space c = true) s -> finditer_env (a :: p) k s = [].
Proof using a_not_space.
  intros k H. revert k. induction H as [|c s Hc Hs IH]; intros k;
    [reflexivity|].
  change (finditer_env (a :: p) k (c :: s))
    with (match k with
          | S k' => finditer_env (a :: p) k' s
          | O => match match_env (a :: p) (c :: s) with
                 | Some (name, n) => name :: finditer_env (a :: p) (n - 1) s
                 | None => finditer_env (a :: p) 0 s
                 end
          end).
  destruct k; [|apply IH].
  rewrite match_env_spaces by (constructor; assumption). apply IH.
Qed.

End Whitespace.

(** A blank line leaves the running state as it is: whether the state is
    read before or after a blank line makes no difference. *)
Lemma line_step_blank st line :
  is_blank line = true -> line_step st line = st.
Proof.
  intros H. apply is_blank_spaces in H.
  assert (forall q, contains (BACKSLASH :: q) line = false) as Hb
    by (intros q; apply contains_spaces; [reflexivity|exact H]).
  assert (forall q k, count_from k (BACKSLASH :: q) line = 0%Z) as Hcb
    by (intros q k; apply count_from_spaces; [reflexivity|exact H]).
  assert (forall q k, count_from k (DOLLAR :: q) line = 0%Z) as Hcd
    by (intros q k; apply count_from_spaces; [reflexivity|exact H]).
  assert (forall q k, finditer_env (BACKSLASH :: q) k line = []) as Hf
    by (intros q k; apply finditer_env_spaces; [reflexivity|exact H]).
  unfold line_step.
  assert (line_open_display line st = st) as ->.
  { unfold line_open_display. change (lit "\[") with [BACKSLASH; LBRACKET].
    rewrite Hb. reflexivity. }
  assert (line_close_display line st = st) as ->.
  { unfold line_close_display. change (lit "\]") with [BACKSLASH; RBRACKET].
    rewrite Hb. reflexivity. }
  assert (line_double_dollar line st = st) as ->.
  { unfold line_double_dollar, count.
    change (lit "$$") with [DOLLAR; DOLLAR].
    change (lit "\$\$") with [BACKSLASH; DOLLAR; BACKSLASH; DOLLAR].
    rewrite Hcb, Hcd. reflexivity. }
  assert (line_single_dollar line st = st) as ->.
  { unfold line_single_dollar, count.
    change (lit "$$") with [DOLLAR; DOLLAR].
    change (lit "$") with [DOLLAR].
    change (lit "\$") with [BACKSLASH; DOLLAR].
    rewrite Hcb, !Hcd. reflexivity. }
  assert (line_paren line st = st) as ->.
  { unfold line_paren. change (lit "\(") with [BACKSLASH; LPAREN].
    change (lit "\\)") with [BACKSLASH; BACKSLASH; RPAREN].
    rewrite !Hb. reflexivity. }
  change BEGIN with (BACKSLASH :: lit "begin").
  change END with (BACKSLASH :: lit "end").
  rewrite !Hf. reflexivity.
Qed.

Lemma split_nl_nonempty (s : str) : split_nl s <> [].
Proof.
  destruct s as [|c s]; simpl; [discriminate|].
  destruct (c =? NEWLINE)%N; [discriminate|].
  destruct (split_nl s); discriminate.
Qed.

(** ['\n'.join(s.split('\n')) == s] *)
Lemma join_split_nl (s : str) : join_nl (split_nl s) = s.
Proof.
  induction s as [|c s IH]; [reflexivity|]. simpl.
  destruct (N.eqb_spec c NEWLINE) as [->|Hc].
  - pose proof (split_nl_nonempty s) as Hne.
    simpl. destruct (split_nl s) as [|l ls]; [contradiction|].
    rewrite IH. reflexivity.
  - pose proof (split_nl_nonempty s) as Hne.
    destruct (split_nl s) as [|l ls]; [contradiction|].
    rewrite <- IH. destruct ls; reflexivity.
Qed.

(** When no running state is a math state, every line is kept. *)
Lemma strip_loop_inactive lines : forall pre result,
  (forall k, any_math_mode (line_state_after (pre ++ lines) k) = false) ->
  strip_loop (foldl line_step init_state pre) lines result = result ++ lines.
Proof.
  induction lines as [|line lines IH]; intros pre result H; simpl.
  - rewrite app_nil_r. reflexivity.
  - rewrite <- line_state_after_snoc with (lines := lines).
    rewrite H. simpl.
    specialize (IH (pre ++ [line]) (result ++ [line])).
    rewrite foldl_app in IH. simpl in IH.
    rewrite line_state_after_snoc.
    rewrite IH.
    + rewrite <- app_assoc. reflexivity.
    + intros k. rewrite <- app_assoc. apply H.
Qed.

Lemma remove_blank_lines_inactive (content : str) :
  (forall k,
     any_math_mode (line_state_after (split_nl content) k) = false) ->
  remove_blank_lines_in_math content = content.
Proof.
  intros H. unfold remove_blank_lines_in_math.
  pose proof (strip_loop_inactive (split_nl content) [] [] H) as E.
  simpl in E. rewrite E. apply join_split_nl.
Qed.

End Stripper.

(** C2 (as the code has it).  [remove_blank_lines_in_math] returns the
    lines of its input in
    their order and unchanged, without exactly the lines that are blank
    while the running state of the line-level machine is a math state:
    its result is the join of [kept_lines]; these are a subsequence of the
    input lines that has every non-blank line; when no running state is a
    math state the document comes back as it is; a blank line does not
    change the running state; and the two blank lines inside the [align]
    block are removed. *)
Theorem remove_blank_lines_in_math_keeps (content : str) :
  remove_blank_lines_in_math content = join_nl (kept_lines (split_nl content))
  /\ kept_lines (split_nl content) `sublist_of` split_nl content
  /\ List.filter (fun l => negb (is_blank l)) (kept_lines (split_nl content))
     = List.filter (fun l => negb (is_blank l)) (split_nl content)
  /\ ((forall k,
         any_math_mode (line_state_after (split_nl content) k) = false) ->
      remove_blank_lines_in_math content = content)
  /\ (forall st line, is_blank line = true -> line_step st line = st)
  /\ remove_blank_lines_in_math Examples.align_block
     = Examples.align_block_stripped.
Proof.
  split; [|split; [|split; [|split; [|split]]]].
  - unfold remove_blank_lines_in_math. rewrite strip_loop_kept. reflexivity.
  - rewrite <- strip_loop_kept.
    destruct (strip_loop_app (split_nl content) init_state [])
      as (ks & -> & Hs & _). exact Hs.
  - rewrite <- strip_loop_kept.
    destruct (strip_loop_app (split_nl content) init_state [])
      as (ks & -> & _ & Hf). exact Hf.
  - apply remove_blank_lines_inactive.
  - apply line_step_blank.
  - vm_compute. reflexivity.
Qed.

(** A document with blank lines outside math only: nothing is removed. *)
Lemma remove_blank_lines_in_math_keeps_witness :
  remove_blank_lines_in_math (lit "a" ++ nl ++ nl ++ lit "b")
  = lit "a" ++ nl ++ nl ++ lit "b".
Proof.
  apply (remove_blank_lines_in_math_keeps (lit "a" ++ nl ++ nl ++ lit "b")).
  intros k. do 4 (destruct k as [|k]; [vm_compute; reflexivity|]).
  vm_compute. reflexivity.
Defined.

(** ** The character-level scanner *)

Section Scanner.

Implicit Types (st : math_state) (s r tl ys : str) (c : char).

(** Appending text cannot complete a keyword that the text cannot
    continue. *)
Lemma startswith_app s : forall p ys,
  (forall k, k < length p -> startswith (drop k p) ys = false) ->
  startswith p (s ++ ys) = startswith p s.
Proof.
  induction s as [|c s IH]; intros p ys H; simpl.
  - destruct p as [|a p]; [destruct ys; reflexivity|].
    apply (H 0). simpl. lia.
  - destruct p as [|a p]; [reflexivity|].
    simpl. rewrite (IH p ys); [reflexivity|].
    intros k Hk. apply (H (S k)). simpl. lia.
Qed.

Lemma strip_prefix_app p : forall s r ys,
  strip_prefix p s = Some r -> strip_prefix p (s ++ ys) = Some (r ++ ys).
Proof.
  induction p as [|a p IH]; intros s r ys; simpl.
  - destruct s; intros [= <-]; reflexivity.
  - destruct s as [|b s]; [discriminate|]. simpl.
    destruct (a =? b)%N; [apply IH|discriminate].
Qed.

Lemma startswith_strip_prefix p : forall s,
  startswith p s = true -> exists r, strip_prefix p s = Some r.
Proof.
  induction p as [|a p IH]; intros s; simpl.
  - destruct s; eauto.
  - destruct s as [|b s]; [discriminate|].
    destruct (a =? b)%N; simpl; [apply IH|discriminate].
Qed.

Lemma strip_prefix_length p : forall s r,
  strip_prefix p s = Some r -> length s = length p + length r.
Proof.
  induction p as [|a p IH]; intros s r; simpl.
  - destruct s; intros [= <-]; reflexivity.
  - destruct s as [|b s]; [discriminate|].
    destruct (a =? b)%N; [|discriminate].
    intros H. apply IH in H. simpl. lia.
Qed.

Lemma until_rbrace_length s : length (until_rbrace s) <= length s.
Proof.
  induction s as [|c s IH]; simpl; [lia|].
  destruct (c =? RBRACE)%N; simpl; lia.
Qed.

(** The text after the name is empty or starts with the closing brace, and
    appended text without a closing brace only lengthens an unclosed
    name. *)
Lemma until_rbrace_app s ys :
  RBRACE ∉ ys ->
  (drop (length (until_rbrace s)) s = []
   /\ drop (length (until_rbrace (s ++ ys))) (s ++ ys) = [])
  \/ (drop (length (until_rbrace s)) s <> []
      /\ until_rbrace (s ++ ys) = until_rbrace s
      /\ drop (length (until_rbrace s)) (s ++ ys) <> []).
Proof.
  intros Hys. induction s as [|c s IH]; simpl.
  - left. split; [reflexivity|].
    induction ys as [|y ys IHys]; [reflexivity|]. simpl.
    destruct (N.eqb_spec y RBRACE) as [->|_].
    + exfalso. apply Hys. left.
    + simpl. apply IHys. intros H. apply Hys. right. exact H.
  - destruct (c =? RBRACE)%N; simpl.
    + right. repeat split; discriminate.
    + destruct IH as [[H1 H2]|(H1 & H2 & H3)].
      * left. split; assumption.
      * right. rewrite H2. repeat split; assumption.
Qed.

Lemma match_braced_app s ys :
  RBRACE ∉ ys -> head ys <> Some LBRACE ->
  match_braced (s ++ ys) = match_braced s.
Proof.
  intros Hys Hhd. destruct s as [|c s]; simpl.
  - destruct ys as [|y ys]; [reflexivity|]. simpl.
    destruct (N.eqb_spec y LBRACE) as [->|_]; [|reflexivity].
    exfalso. apply Hhd. reflexivity.
  - destruct (c =? LBRACE)%N; [|reflexivity].
    destruct (until_rbrace_app s ys Hys) as [[H1 H2]|(H1 & H2 & H3)].
    + destruct (until_rbrace (s ++ ys)) as [|a l] eqn:E1,
        (until_rbrace s) as [|a' l'] eqn:E2;
        simpl in H1, H2; rewrite ?H1, ?H2; reflexivity.
    + rewrite H2. destruct (until_rbrace s) as [|a l] eqn:E; [reflexivity|].
      simpl in H1, H3.
      destruct (drop (S (length l)) (s ++ ys)); [contradiction|].
      destruct (drop (S (length l)) s); [contradiction|]. reflexivity.
Qed.

Lemma match_braced_length s name n :
  match_braced s = Some (name, n) -> 2 <= n <= length s.
Proof.
  destruct s as [|c s]; [discriminate|]. unfold match_braced.
  destruct (c =? LBRACE)%N; [|discriminate]. cbv zeta.
  pose proof (length_drop s (length (until_rbrace s))) as HL.
  destruct (until_rbrace s) as [|a name']; [discriminate|].
  destruct (drop (length (a :: name')) s) as [|b rest]; [discriminate|].
  intros [= <- <-]. simpl in *. lia.
Qed.

Lemma match_env_length kw s name n :
  match_env kw s = Some (name, n) -> length kw + 2 <= n <= length s.
Proof.
  unfold match_env.
  destruct (strip_prefix kw s) as [r|] eqn:E; [|discriminate].
  destruct (match_braced r) as [[name' n']|] eqn:B; [|discriminate].
  intros [= <- <-]. apply strip_prefix_length in E.
  apply match_braced_length in B. lia.
Qed.

Lemma match_env_app kw s ys :
  RBRACE ∉ ys -> head ys <> Some LBRACE ->
  startswith kw s = true ->
  match_env kw (s ++ ys) = match_env kw s.
Proof.
  intros Hys Hhd Hs. unfold match_env.
  destruct (startswith_strip_prefix kw s Hs) as [r Hr].
  rewrite (strip_prefix_app kw s r ys Hr), Hr.
  rewrite match_braced_app by assumption. reflexivity.
Qed.

Lemma startswith_BEGIN_CLOSE s :
  startswith BEGIN (s ++ CLOSE) = startswith BEGIN s.
Proof.
  apply startswith_app. intros k Hk.
  do 6 (destruct k as [|k]; [reflexivity|]).
  exfalso. vm_compute in Hk. lia.
Qed.

Lemma startswith_END_CLOSE s :
  startswith END (s ++ CLOSE) = startswith END s.
Proof.
  apply startswith_app. intros k Hk.
  do 4 (destruct k as [|k]; [reflexivity|]).
  exfalso. vm_compute in Hk. lia.
Qed.

Lemma CLOSE_no_rbrace : RBRACE ∉ CLOSE.
Proof.
  unfold CLOSE. rewrite !elem_of_cons, elem_of_nil.
  intros [H|[H|[]]]; discriminate.
Qed.

Lemma CLOSE_head : head CLOSE <> Some LBRACE.
Proof. discriminate. Qed.

(** A branch that reads the same and steps over nothing it should not. *)
Ltac same_step := split; [reflexivity|simpl; lia].

(** One turn of the loop does not see a [\]] that follows the text, and
    steps over nothing beyond the text. *)
Lemma scan_char_app_CLOSE st prev c tl :
  scan_char st prev c (tl ++ CLOSE) = scan_char st prev c tl
  /\ (scan_char st prev c tl).2 <= length tl.
Proof.
  unfold scan_char.
  destruct (c =? BACKSLASH)%N eqn:Ec.
  - apply N.eqb_eq in Ec. subst c.
    destruct tl as [|n tl]; [same_step|].
    change ((n :: tl) ++ CLOSE) with (n :: (tl ++ CLOSE)). cbv beta iota.
    destruct (n =? LBRACKET)%N; [same_step|].
    destruct ((n =? RBRACKET)%N && in_display_math st);
      [same_step|].
    destruct (n =? LPAREN)%N; [same_step|].
    destruct ((n =? RPAREN)%N && in_math st && negb (in_display_math st)
              && negb (in_double_dollar st));
      [same_step|].
    change (BACKSLASH :: n :: tl ++ CLOSE)
      with ((BACKSLASH :: n :: tl) ++ CLOSE).
    rewrite startswith_BEGIN_CLOSE, startswith_END_CLOSE.
    destruct (startswith BEGIN (BACKSLASH :: n :: tl)) eqn:EB.
    + rewrite (match_env_app _ _ _ CLOSE_no_rbrace CLOSE_head EB).
      destruct (match_env BEGIN (BACKSLASH :: n :: tl)) as [[name k]|] eqn:EM;
        [|same_step].
      split; [reflexivity|]. apply match_env_length in EM. simpl in *. lia.
    + destruct (startswith END (BACKSLASH :: n :: tl)) eqn:EE;
        [|same_step].
      rewrite (match_env_app _ _ _ CLOSE_no_rbrace CLOSE_head EE).
      destruct (match_env END (BACKSLASH :: n :: tl)) as [[name k]|] eqn:EM;
        [|same_step].
      split; [reflexivity|]. apply match_env_length in EM. simpl in *. lia.
  - destruct (c =? DOLLAR)%N; [|same_step].
    destruct tl as [|d tl]; simpl.
    + destruct (bool_decide (prev = Some BACKSLASH)); split;
        first [reflexivity|simpl; lia].
    + destruct (d =? DOLLAR)%N; [same_step|].
      destruct (bool_decide (prev = Some BACKSLASH)); split;
        first [reflexivity|simpl; lia].
Qed.

Lemma scan_loop_CLOSE st prev : scan_loop st prev 0 CLOSE = scan_close st.
Proof.
  unfold scan_close. simpl. unfold scan_char. simpl.
  destruct (in_display_math st) eqn:E; simpl; reflexivity.
Qed.

(** Scanning a text and then a [\]] is scanning the text, then the token. *)
Lemma scan_loop_app_CLOSE s : forall st prev skip,
  skip <= length s ->
  scan_loop st prev skip (s ++ CLOSE) = scan_close (scan_loop st prev skip s).
Proof.
  induction s as [|c s IH]; intros st prev skip Hskip.
  - simpl in Hskip. assert (skip = 0) as -> by lia. apply scan_loop_CLOSE.
  - change ((c :: s) ++ CLOSE) with (c :: (s ++ CLOSE)). simpl.
    destruct skip as [|k].
    + destruct (scan_char_app_CLOSE st prev c s) as [-> Hle].
      destruct (scan_char st prev c s) as [st' extra]. apply IH. exact Hle.
    + apply IH. simpl in Hskip. lia.
Qed.

Lemma scan_state_app_CLOSE s :
  scan_state (s ++ CLOSE) = scan_close (scan_state s).
Proof. apply scan_loop_app_CLOSE. lia. Qed.

End Scanner.

(** C3 (as the code has it).  Scanning [\]] in display math clears both
    [in_display_math] and the [in_math] flag, whatever else is open; the
    other trackers are untouched, so the scanner reports math after the
    token exactly when an environment or a [$$] region is still open: with
    one open, [is_in_math_mode] just after the [\]] is true. *)
Theorem display_close_keeps_outer_math (pre post : str) :
  in_display_math (scan_state pre) = true ->
  scan_state (pre ++ lit "\]") = close_display (scan_state pre)
  /\ in_math (scan_state (pre ++ lit "\]")) = false
  /\ in_display_math (scan_state (pre ++ lit "\]")) = false
  /\ is_in_math_mode (pre ++ lit "\]" ++ post) (length pre + 2)
     = in_double_dollar (scan_state pre) || stack_nonempty (scan_state pre)
  /\ (in_double_dollar (scan_state pre) = true
      \/ math_env_stack (scan_state pre) <> [] ->
      is_in_math_mode (pre ++ lit "\]" ++ post) (length pre + 2) = true).
Proof.
  intros Hd.
  assert (scan_state (pre ++ lit "\]") = close_display (scan_state pre))
    as E.
  { change (lit "\]") with CLOSE. rewrite scan_state_app_CLOSE.
    unfold scan_close. rewrite Hd. reflexivity. }
  assert (is_in_math_mode (pre ++ lit "\]" ++ post) (length pre + 2)
          = in_double_dollar (scan_state pre)
            || stack_nonempty (scan_state pre)) as R.
  { unfold is_in_math_mode.
    replace (take (length pre + 2) (pre ++ lit "\]" ++ post))
      with (pre ++ lit "\]").
    - rewrite E. reflexivity.
    - rewrite app_assoc.
      replace (length pre + 2) with (length (pre ++ lit "\]"))
        by (rewrite length_app; reflexivity).
      rewrite take_app_length. reflexivity. }
  repeat split.
  - exact E.
  - rewrite E. reflexivity.
  - rewrite E. reflexivity.
  - exact R.
  - rewrite R. intros [->|Hs]; [reflexivity|].
    unfold stack_nonempty. destruct (math_env_stack (scan_state pre));
      [contradiction|]. apply orb_true_r.
Qed.

(** ** [re.sub] *)

Section ReSub.

Context {S : Type}.
Implicit Types (repl : re_match -> nat -> S -> option (completion S str)).
Implicit Types (text pre post : str) (s : S).

(** The characters of a match are stepped over. *)
Lemma re_sub_skip repl pre : forall pos text s,
  re_sub repl (length pre) pos (pre ++ text) s
  = re_sub repl 0 (pos + length pre) text s.
Proof.
  induction pre as [|c pre IH]; intros pos text s; simpl.
  - rewrite Nat.add_0_r. reflexivity.
  - rewrite IH. f_equal. lia.
Qed.

Lemma re_sub_cons repl c tl pos s :
  re_sub repl 0 pos (c :: tl) s
  = match match_directive (c :: tl) with
    | Some m =>
        and_then (repl m pos s) (fun r s1 =>
        and_then (re_sub repl (length (group0 m) - 1) (pos + 1) tl s1)
          (fun out s2 => Some (Done (r ++ out) s2)))
    | None =>
        and_then (re_sub repl 0 (pos + 1) tl s)
          (fun out s2 => Some (Done (c :: out) s2))
    end.
Proof. reflexivity. Qed.

Lemma re_sub_cons_skip repl c tl k pos s :
  re_sub repl (Datatypes.S k) pos (c :: tl) s = re_sub repl k (pos + 1) tl s.
Proof. reflexivity. Qed.

Lemma match_directive_group0 text m :
  match_directive text = Some m ->
  exists c d,
    group0 m = c :: d
    /\ text = group0 m ++ drop (length (group0 m)) text.
Proof.
  intros H.
  assert (exists total, group0 m = take (Datatypes.S total) text) as [total Ht].
  { unfold match_directive in H.
    destruct text as [|c r0]; [discriminate|].
    destruct (c =? BACKSLASH)%N; [|discriminate].
    destruct (match_command r0) as [[cmd r1]|]; [|discriminate].
    destruct (drop (length (spaces r1)) r1) as [|b r3]; [discriminate|].
    destruct (b =? LBRACKET)%N.
    - destruct (match_options 0 r3) as [[k [arg n]]|]; [|discriminate].
      injection H as <-. simpl. eauto.
    - destruct (match_tail r1) as [[arg n]|]; [|discriminate].
      injection H as <-. simpl. eauto. }
  destruct text as [|c text]; [discriminate|].
  exists c, (take total text). split; [rewrite Ht; reflexivity|].
  rewrite Ht. set (T := c :: text).
  destruct (Nat.le_gt_cases (Datatypes.S total) (length T)).
  - rewrite length_take, Nat.min_l by assumption.
    symmetry. apply take_drop.
  - rewrite take_ge by lia. rewrite drop_all, app_nil_r. reflexivity.
Qed.

(** At a match the replacement is spliced in and the scan resumes just
    after the matched text. *)
Lemma re_sub_match repl text m pos s :
  match_directive text = Some m ->
  re_sub repl 0 pos text s
  = and_then (repl m pos s) (fun r s1 =>
    and_then (re_sub repl 0 (pos + length (group0 m))
                (drop (length (group0 m)) text) s1)
      (fun out s2 => Some (Done (r ++ out) s2))).
Proof.
  intros H. destruct (match_directive_group0 text m H) as (c & d & Hg & Ht).
  set (post := drop (length (group0 m)) text) in *.
  assert (re_sub repl 0 pos text s
          = and_then (repl m pos s) (fun r s1 =>
            and_then (re_sub repl (length d) (pos + 1) (d ++ post) s1)
              (fun out s2 => Some (Done (r ++ out) s2)))) as ->.
  { destruct text as [|c' text']; [discriminate|].
    rewrite re_sub_cons, H. rewrite Hg in Ht. injection Ht as _ Ht.
    replace (length (group0 m) - 1) with (length d)
      by (rewrite Hg; simpl; lia).
    rewrite <- Ht. reflexivity. }
  destruct (repl m pos s) as [[r s1|e s1]|]; [|reflexivity|reflexivity].
  cbn [and_then]. rewrite re_sub_skip.
  replace (pos + 1 + length d) with (pos + length (group0 m))
    by (rewrite Hg; simpl; lia).
  reflexivity.
Qed.

(** Where nothing matches, a character is copied. *)
Lemma re_sub_copy repl c text pos s :
  match_directive (c :: text) = None ->
  re_sub repl 0 pos (c :: text) s
  = and_then (re_sub repl 0 (pos + 1) text s)
      (fun out s2 => Some (Done (c :: out) s2)).
Proof. intros H. rewrite re_sub_cons, H. reflexivity. Qed.

Lemma has_directive_cons c text :
  has_directive (c :: text)
  = match match_directive (c :: text) with
    | Some _ => true
    | None => has_directive text
    end.
Proof. reflexivity. Qed.

(** A text without directives is copied as it is. *)
Lemma re_sub_no_directive repl text : forall pos s,
  has_directive text = false ->
  re_sub repl 0 pos text s = Some (Done text s).
Proof.
  induction text as [|c text IH]; intros pos s H; [reflexivity|].
  rewrite has_directive_cons in H.
  destruct (match_directive (c :: text)) eqn:E; [discriminate|].
  rewrite re_sub_copy by assumption. rewrite IH by assumption. reflexivity.
Qed.

(** A prefix in which no match starts is copied, and the scan goes on
    behind it. *)
Lemma re_sub_prefix repl pre : forall text pos s,
  (forall i, i < length pre -> match_directive (drop i (pre ++ text)) = None) ->
  re_sub repl 0 pos (pre ++ text) s
  = and_then (re_sub repl 0 (pos + length pre) text s)
      (fun out s2 => Some (Done (pre ++ out) s2)).
Proof.
  induction pre as [|c pre IH]; intros text pos s H.
  - simpl. rewrite Nat.add_0_r.
    destruct (re_sub repl 0 pos text s) as [[out s2|e s2]|]; reflexivity.
  - change ((c :: pre) ++ text) with (c :: (pre ++ text)).
    rewrite re_sub_copy by (apply (H 0); simpl; lia).
    rewrite IH.
    + replace (pos + 1 + length pre) with (pos + length (c :: pre))
        by (simpl; lia).
      destruct (re_sub repl 0 _ text s) as [[out s2|e s2]|]; reflexivity.
    + intros i Hi. apply (H (Datatypes.S i)). simpl. lia.
Qed.

(** What every replacement guarantees, the whole substitution does: [P]
    is what the callback needs of the state, [R] relates the state it gets
    to the state it leaves, by returning or by an exception. *)
Lemma re_sub_total repl (P : S -> Prop) (R : S -> S -> Prop) :
  (forall s, R s s) ->
  (forall s1 s2 s3, R s1 s2 -> R s2 s3 -> R s1 s3) ->
  (forall s1 s2, P s1 -> R s1 s2 -> P s2) ->
  (forall m pos s,
     P s -> exists r, repl m pos s = Some r /\ R s (final_state r)) ->
  forall text skip pos s,
    P s ->
    exists r, re_sub repl skip pos text s = Some r /\ R s (final_state r).
Proof.
  intros Hrefl Htrans HP Hrepl.
  induction text as [|c text IH]; intros skip pos s Hs.
  - simpl. eexists. split; [reflexivity|]. apply Hrefl.
  - destruct skip as [|k]; [|rewrite re_sub_cons_skip; apply IH; exact Hs].
    rewrite re_sub_cons.
    destruct (match_directive (c :: text)) as [m|].
    + destruct (Hrepl m pos s Hs) as ([r s1|e s1] & -> & HR1);
        cbn [and_then final_state] in *.
      2:{ eexists. split; [reflexivity|]. exact HR1. }
      destruct (IH (length (group0 m) - 1) (pos + 1) s1 (HP _ _ Hs HR1))
        as ([out s2|e s2] & -> & HR2); cbn [and_then final_state] in *;
        eexists; (split; [reflexivity|]); cbn [final_state]; eauto.
    + destruct (IH 0 (pos + 1) s Hs) as ([out s2|e s2] & -> & HR2);
        cbn [and_then final_state] in *;
        eexists; (split; [reflexivity|]); cbn [final_state]; eauto.
Qed.

(** The same for a relation only: however the substitution ends. *)
Lemma re_sub_rel repl (R : S -> S -> Prop) :
  (forall s, R s s) ->
  (forall s1 s2 s3, R s1 s2 -> R s2 s3 -> R s1 s3) ->
  (forall m pos s r, repl m pos s = Some r -> R s (final_state r)) ->
  forall text skip pos s r,
    re_sub repl skip pos text s = Some r -> R s (final_state r).
Proof.
  intros Hrefl Htrans Hrepl.
  induction text as [|c text IH]; intros skip pos s r.
  - simpl. intros [= <-]. apply Hrefl.
  - destruct skip as [|k]; [|rewrite re_sub_cons_skip; apply IH].
    rewrite re_sub_cons.
    destruct (match_directive (c :: text)) as [m|].
    + destruct (repl m pos s) as [[r1 s1|e s1]|] eqn:E1; [| |discriminate];
        cbn [and_then]; apply Hrepl in E1; cbn [final_state] in E1.
      2:{ intros [= <-]. exact E1. }
      destruct (re_sub repl _ _ text s1) as [[out2 s2|e s2]|] eqn:E2;
        [| |discriminate]; cbn [and_then]; apply IH in E2;
        cbn [final_state] in E2; intros [= <-]; cbn [final_state]; eauto.
    + destruct (re_sub repl _ _ text s) as [[out2 s2|e s2]|] eqn:E2;
        [| |discriminate]; cbn [and_then]; apply IH in E2;
        cbn [final_state] in E2; intros [= <-]; exact E2.
Qed.

End ReSub.

(** ** The resolver *)

Section Resolver.

Context `{FS : FileSystem}.
Implicit Types (self : inliner) (content : str) (dir p : path).
Implicit Types (m : re_match) (pos fuel : nat).
Implicit Types (rec : str -> path -> inliner -> result str).

Lemma extends_refl self : extends self self.
Proof.
  split; [reflexivity|]. split; [reflexivity|]. split; [reflexivity|].
  exists []. simpl. rewrite app_nil_r.
  repeat split; [constructor|set_solver|set_solver].
Qed.

Lemma inlined_paths_app (a b : list message) :
  inlined_paths (a ++ b) = inlined_paths a ++ inlined_paths b.
Proof. apply omap_app. Qed.

Lemma extends_trans s1 s2 s3 : extends s1 s2 -> extends s2 s3 -> extends s1 s3.
Proof.
  intros (Hm1 & Ho1 & Hd1 & n1 & Hs1 & Hn1 & Hf1 & Hp1)
         (Hm2 & Ho2 & Hd2 & n2 & Hs2 & Hn2 & Hf2 & Hp2).
  split; [congruence|]. split; [congruence|]. split; [lia|].
  exists (n1 ++ n2). rewrite inlined_paths_app. repeat split.
  - rewrite Hs2, Hs1, app_assoc. reflexivity.
  - apply NoDup_app. repeat split; [exact Hn1| |exact Hn2].
    intros x Hx Hx2. apply (Hf2 x Hx2). rewrite Hp1. set_solver.
  - intros x Hx. apply elem_of_app in Hx as [Hx|Hx]; [auto|].
    intros Hin. apply (Hf2 x Hx). rewrite Hp1. set_solver.
  - rewrite Hp2, Hp1. set_solver.
Qed.

(** Printing anything but an "Inlining" line keeps a state an extension. *)
Lemma extends_print self (msg : message) :
  inlined_paths [msg] = [] -> extends self (print msg self).
Proof.
  intros H. split; [reflexivity|]. split; [reflexivity|].
  split; [reflexivity|]. exists [msg]. rewrite H. simpl.
  repeat split; [constructor|set_solver|set_solver].
Qed.

(** Marking a new file and printing its "Inlining" line. *)
Lemma extends_inlining self p b :
  p ∉ processed_files self ->
  extends self (print (MsgInlining p b) (add_processed p self)).
Proof.
  intros H. split; [reflexivity|]. split; [reflexivity|].
  split; [reflexivity|]. exists [MsgInlining p b]. simpl.
  repeat split.
  - apply NoDup_singleton.
  - intros q Hq. apply list_elem_of_singleton in Hq. subst q. exact H.
  - set_solver.
Qed.

(** The depth counter may go up. *)
Lemma extends_set_depth self d :
  current_depth self <= d -> extends self (set_depth d self).
Proof.
  intros H. split; [reflexivity|]. split; [reflexivity|].
  split; [exact H|]. exists []. simpl. rewrite app_nil_r.
  repeat split; [constructor|set_solver|set_solver].
Qed.

(** It may come down again behind an extension, not below where it
    was. *)
Lemma extends_restore self self' d :
  extends self self' -> current_depth self <= d ->
  extends self (set_depth d self').
Proof.
  intros (Hm & Ho & Hd & new & Hs & Hn & Hf & Hp) H.
  split; [exact Hm|]. split; [exact Ho|]. split; [exact H|].
  exists new. repeat split; assumption.
Qed.

Create HintDb inliner.
#[local] Hint Resolve extends_refl extends_print extends_inlining : inliner.

(** *** The cases of [replace_command] *)

Lemma replace_command_raises rec content dir m pos self e :
  find_file self dir (file_arg_of m) = Raises e ->
  replace_command rec content dir m pos self = Some (Raise e self).
Proof. intros H. unfold replace_command. rewrite H. reflexivity. Qed.

Lemma replace_command_not_found rec content dir m pos self :
  find_file self dir (file_arg_of m) = Returns None ->
  replace_command rec content dir m pos self
  = Some (Done (group0 m) (print (WarnNotFound (file_arg_of m)) self)).
Proof. intros H. unfold replace_command. rewrite H. reflexivity. Qed.

Lemma replace_command_circular rec content dir m pos self p :
  find_file self dir (file_arg_of m) = Returns (Some p) ->
  p ∈ processed_files self ->
  replace_command rec content dir m pos self
  = Some (Done (circular_comment m (is_in_math_mode content pos))
            (print (WarnCircular p) self)).
Proof.
  intros H Hin. unfold replace_command. rewrite H.
  rewrite bool_decide_eq_true_2 by exact Hin. reflexivity.
Qed.

Lemma replace_command_read_error rec content dir m pos self p e :
  find_file self dir (file_arg_of m) = Returns (Some p) ->
  p ∉ processed_files self ->
  read_file p = inr e ->
  replace_command rec content dir m pos self
  = Some (Done (error_comment p e m (is_in_math_mode content pos))
            (print (MsgErrorProcessing p e)
               (print (MsgInlining p (is_in_math_mode content pos))
                  (add_processed p self)))).
Proof.
  intros H Hin Hr. unfold replace_command. rewrite H.
  rewrite bool_decide_eq_false_2 by exact Hin. rewrite Hr. reflexivity.
Qed.

Lemma replace_command_inline rec content dir m pos self p file_content :
  find_file self dir (file_arg_of m) = Returns (Some p) ->
  p ∉ processed_files self ->
  read_file p = inl file_content ->
  replace_command rec content dir m pos self
  = match rec (if is_in_math_mode content pos then strip file_content
               else file_content)
            (parent p)
            (print (MsgInlining p (is_in_math_mode content pos))
               (add_processed p self)) with
    | Some (Done resolved_content self') =>
        Some (Done (add_inclusion_comments resolved_content (path_name p)
                      (is_in_math_mode content pos)) self')
    | Some (Raise e self') =>
        Some (Done (error_comment p e m (is_in_math_mode content pos))
                (print (MsgErrorProcessing p e) self'))
    | None => None
    end.
Proof.
  intros H Hin Hr. unfold replace_command. rewrite H.
  rewrite bool_decide_eq_false_2 by exact Hin. rewrite Hr. reflexivity.
Qed.

(** If the recursive call ends in an extension on the states [P] holds
    for, so does a replacement. *)
Lemma replace_command_total rec content dir m pos self (P : inliner -> Prop) :
  (forall s1 s2, P s1 -> extends s1 s2 -> P s2) ->
  (forall c d s,
     P s -> exists r, rec c d s = Some r /\ extends s (final_state r)) ->
  P self ->
  exists r,
    replace_command rec content dir m pos self = Some r
    /\ extends self (final_state r).
Proof.
  intros HP Hrec Hself.
  destruct (find_file self dir (file_arg_of m)) as [[p|]|e] eqn:Ef.
  - destruct (decide (p ∈ processed_files self)) as [Hin|Hin].
    + rewrite (replace_command_circular _ _ _ _ _ _ p Ef Hin).
      eexists. split; [reflexivity|]. cbn [final_state].
      auto with inliner.
    + destruct (read_file p) as [c|e] eqn:Er.
      * rewrite (replace_command_inline _ _ _ _ _ _ p c Ef Hin Er).
        pose proof (extends_inlining self p (is_in_math_mode content pos) Hin)
          as He.
        destruct (Hrec (if is_in_math_mode content pos then strip c else c)
                    (parent p) _ (HP _ _ Hself He))
          as ([o s'|e s'] & -> & He'); cbn [final_state] in He';
          (eexists; split; [reflexivity|]); cbn [final_state].
        -- eapply extends_trans; eassumption.
        -- eapply extends_trans; [exact He|].
           eapply extends_trans; [exact He'|].
           apply extends_print. reflexivity.
      * rewrite (replace_command_read_error _ _ _ _ _ _ p e Ef Hin Er).
        eexists. split; [reflexivity|]. cbn [final_state].
        eapply extends_trans; [apply extends_inlining, Hin|].
        apply extends_print. reflexivity.
  - rewrite (replace_command_not_found _ _ _ _ _ _ Ef).
    eexists. split; [reflexivity|]. apply extends_print. reflexivity.
  - rewrite (replace_command_raises _ _ _ _ _ _ e Ef).
    eexists. split; [reflexivity|]. apply extends_refl.
Qed.

(** *** [resolve_input_commands] *)

Lemma set_depth_restore self d :
  set_depth (current_depth (set_depth (current_depth self + 1) self) - 1)
    (set_depth d self) = self.
Proof.
  destruct self. unfold set_depth. simpl. f_equal. lia.
Qed.

(** Above the ceiling nothing is expanded. *)
Lemma resolve_above_ceiling fuel content dir self :
  max_depth < current_depth self ->
  resolve_input_commands fuel content dir self = Some (Done content self).
Proof.
  intros H. destruct fuel; simpl.
  all: destruct (Nat.ltb_spec max_depth (current_depth self));
    [reflexivity|lia].
Qed.

Lemma resolve_below_ceiling fuel content dir self :
  current_depth self <= max_depth ->
  resolve_input_commands (S fuel) content dir self
  = and_then
      (re_sub (replace_command (resolve_input_commands fuel) content dir) 0 0
         content (set_depth (current_depth self + 1) self))
      (fun content' self' =>
         Some (Done content' (set_depth (current_depth self' - 1) self'))).
Proof.
  intros H. simpl.
  destruct (Nat.ltb_spec max_depth (current_depth self)); [lia|reflexivity].
Qed.

(** With the fuel the ceiling calls for, a call ends, by returning or by
    an exception, in an extension of the state it was given. *)
Lemma resolve_total fuel : forall content dir self,
  max_depth + 1 <= fuel + current_depth self ->
  exists r,
    resolve_input_commands fuel content dir self = Some r
    /\ extends self (final_state r).
Proof.
  induction fuel as [|fuel IH]; intros content dir self Hfuel.
  - rewrite resolve_above_ceiling by lia.
    eexists. split; [reflexivity|]. apply extends_refl.
  - destruct (Nat.le_gt_cases (current_depth self) max_depth) as [Hle|Hgt].
    2:{ rewrite resolve_above_ceiling by lia.
        eexists. split; [reflexivity|]. apply extends_refl. }
    rewrite resolve_below_ceiling by exact Hle.
    set (s1 := set_depth (current_depth self + 1) self).
    destruct (re_sub_total
                (replace_command (resolve_input_commands fuel) content dir)
                (fun s => current_depth self + 1 <= current_depth s)
                extends extends_refl extends_trans) with (text := content)
      (skip := 0) (pos := 0) (s := s1) as (r & -> & He).
    + intros a b Ha (_ & _ & Hd & _). lia.
    + intros m pos s Hs. apply replace_command_total
        with (P := fun s => current_depth self + 1 <= current_depth s).
      * intros a b Ha (_ & _ & Hd & _). lia.
      * intros c d s' Hs'. apply IH. lia.
      * exact Hs.
    + reflexivity.
    + assert (extends self s1) as H1
        by (apply extends_set_depth; simpl; lia).
      destruct r as [out s2|e s2]; cbn [and_then final_state] in *;
        (eexists; split; [reflexivity|]); cbn [final_state].
      * apply extends_restore.
        -- eapply extends_trans; eassumption.
        -- destruct He as (_ & _ & Hd & _). subst s1. simpl in Hd. lia.
      * eapply extends_trans; eassumption.
Qed.

(** However a replacement or a call ends, it ends in an extension. *)
Lemma replace_command_extends rec content dir m pos self r :
  (forall c d s r', rec c d s = Some r' -> extends s (final_state r')) ->
  replace_command rec content dir m pos self = Some r ->
  extends self (final_state r).
Proof.
  intros Hrec.
  destruct (find_file self dir (file_arg_of m)) as [[p|]|e] eqn:Ef.
  - destruct (decide (p ∈ processed_files self)) as [Hin|Hin].
    + rewrite (replace_command_circular _ _ _ _ _ _ p Ef Hin).
      intros [= <-]. apply extends_print. reflexivity.
    + pose proof (extends_inlining self p (is_in_math_mode content pos) Hin)
        as He.
      destruct (read_file p) as [c|e] eqn:Er.
      * rewrite (replace_command_inline _ _ _ _ _ _ p c Ef Hin Er).
        destruct (rec _ _ _) as [[o s'|e s']|] eqn:Hr; [| |discriminate];
          intros [= <-]; apply Hrec in Hr; cbn [final_state] in *.
        -- eapply extends_trans; eassumption.
        -- eapply extends_trans; [exact He|].
           eapply extends_trans; [exact Hr|].
           apply extends_print. reflexivity.
      * rewrite (replace_command_read_error _ _ _ _ _ _ p e Ef Hin Er).
        intros [= <-]. cbn [final_state].
        eapply extends_trans; [exact He|].
        apply extends_print. reflexivity.
  - rewrite (replace_command_not_found _ _ _ _ _ _ Ef).
    intros [= <-]. apply extends_print. reflexivity.
  - rewrite (replace_command_raises _ _ _ _ _ _ e Ef).
    intros [= <-]. apply extends_refl.
Qed.

Lemma resolve_extends fuel : forall content dir self r,
  resolve_input_commands fuel content dir self = Some r ->
  extends self (final_state r).
Proof.
  induction fuel as [|fuel IH]; intros content dir self r.
  - destruct (Nat.le_gt_cases (current_depth self) max_depth) as [Hle|Hgt].
    + simpl. destruct (Nat.ltb_spec max_depth (current_depth self));
        [lia|discriminate].
    + rewrite resolve_above_ceiling by lia.
      intros [= <-]. apply extends_refl.
  - destruct (Nat.le_gt_cases (current_depth self) max_depth) as [Hle|Hgt].
    2:{ rewrite resolve_above_ceiling by lia.
        intros [= <-]. apply extends_refl. }
    rewrite resolve_below_ceiling by exact Hle.
    destruct (re_sub _ 0 0 content _) as [r1|] eqn:Hr; [|discriminate].
    apply (re_sub_rel _ extends extends_refl extends_trans) in Hr.
    2:{ intros m pos s r'. apply replace_command_extends. exact IH. }
    assert (extends self (set_depth (current_depth self + 1) self)) as H1
      by (apply extends_set_depth; lia).
    destruct r1 as [out s2|e s2]; cbn [and_then final_state] in *;
      intros [= <-]; cbn [final_state].
    + apply extends_restore.
      * eapply extends_trans; eassumption.
      * destruct Hr as (_ & _ & Hd & _).
        unfold set_depth in Hd. cbn [current_depth] in Hd. lia.
    + eapply extends_trans; eassumption.
Qed.

(** The counter stays within one of the ceiling. *)
Lemma replace_command_bounded rec content dir m pos self r :
  (forall c d s r',
     rec c d s = Some r' ->
     current_depth s <= max_depth + 1 ->
     current_depth (final_state r') <= max_depth + 1) ->
  replace_command rec content dir m pos self = Some r ->
  current_depth self <= max_depth + 1 ->
  current_depth (final_state r) <= max_depth + 1.
Proof.
  intros Hrec.
  destruct (find_file self dir (file_arg_of m)) as [[p|]|e] eqn:Ef.
  - destruct (decide (p ∈ processed_files self)) as [Hin|Hin].
    + rewrite (replace_command_circular _ _ _ _ _ _ p Ef Hin).
      intros [= <-]. auto.
    + destruct (read_file p) as [c|e] eqn:Er.
      * rewrite (replace_command_inline _ _ _ _ _ _ p c Ef Hin Er).
        destruct (rec _ _ _) as [[o s'|e s']|] eqn:Hr; [| |discriminate];
          intros [= <-] Hd; apply Hrec in Hr; auto.
      * rewrite (replace_command_read_error _ _ _ _ _ _ p e Ef Hin Er).
        intros [= <-]. auto.
  - rewrite (replace_command_not_found _ _ _ _ _ _ Ef).
    intros [= <-]. auto.
  - rewrite (replace_command_raises _ _ _ _ _ _ e Ef).
    intros [= <-]. auto.
Qed.

Lemma resolve_bounded fuel : forall content dir self r,
  resolve_input_commands fuel content dir self = Some r ->
  current_depth self <= max_depth + 1 ->
  current_depth (final_state r) <= max_depth + 1.
Proof.
  induction fuel as [|fuel IH]; intros content dir self r.
  - destruct (Nat.le_gt_cases (current_depth self) max_depth) as [Hle|Hgt].
    + simpl. destruct (Nat.ltb_spec max_depth (current_depth self));
        [lia|discriminate].
    + rewrite resolve_above_ceiling by lia. intros [= <-]. auto.
  - destruct (Nat.le_gt_cases (current_depth self) max_depth) as [Hle|Hgt].
    2:{ rewrite resolve_above_ceiling by lia. intros [= <-]. auto. }
    rewrite resolve_below_ceiling by exact Hle.
    destruct (re_sub _ 0 0 content _) as [r1|] eqn:Hr; [|discriminate].
    apply (re_sub_rel _
             (fun s s' => current_depth s <= max_depth + 1 ->
                          current_depth s' <= max_depth + 1)) in Hr.
    + destruct r1 as [out s2|e s2]; cbn [and_then final_state] in *;
        intros [= <-] _; cbn [final_state]; [|exact Hr].
      unfold set_depth. cbn [current_depth]. lia.
    + auto.
    + auto.
    + intros m pos s r'. apply replace_command_bounded. exact IH.
    + unfold set_depth. cbn [current_depth]. lia.
Qed.

End Resolver.

(** ** Termination, failures, and paths inlined once *)

Section ResolverClaims.

Context `{FS : FileSystem}.
Implicit Types (self : inliner) (content pre post : str) (dir p : path).
Implicit Types (m : re_match) (pos fuel : nat).
Implicit Types (rec : str -> path -> inliner -> result str).

Lemma set_depth_print_restore self (msg : message) :
  set_depth
    (current_depth (print msg (set_depth (current_depth self + 1) self)) - 1)
    (print msg (set_depth (current_depth self + 1) self))
  = print msg self.
Proof. destruct self. unfold set_depth, print. simpl. f_equal. lia. Qed.

(** The search for a file reads the main file's path only. *)
Lemma find_file_main self self' dir file_arg :
  main_file self' = main_file self ->
  find_file self' dir file_arg = find_file self dir file_arg.
Proof. intros H. unfold find_file. rewrite H. reflexivity. Qed.

(** A content with one directive that resolves to a visited path. *)
Lemma resolve_single_circular fuel pre m post dir self p :
  current_depth self <= max_depth ->
  one_directive pre m post ->
  find_file self dir (file_arg_of m) = Returns (Some p) ->
  p ∈ processed_files self ->
  resolve_input_commands (S fuel) (pre ++ group0 m ++ post) dir self
  = Some (Done (pre
                ++ circular_comment m
                     (is_in_math_mode (pre ++ group0 m ++ post) (length pre))
                ++ post)
            (print (WarnCircular p) self)).
Proof.
  intros Hd (Hpre & Hm & Hpost) Hf Hin.
  rewrite resolve_below_ceiling by exact Hd.
  rewrite re_sub_prefix by exact Hpre.
  rewrite (re_sub_match _ _ m _ _ Hm).
  rewrite (replace_command_circular _ _ _ _ _ _ p) by assumption.
  cbn [and_then]. rewrite drop_app_length.
  rewrite re_sub_no_directive by exact Hpost. cbn [and_then].
  do 2 f_equal. destruct self. unfold set_depth, print. simpl. f_equal. lia.
Qed.

(** *** Every directive of a content that resolves to a visited path *)

(** A directive [re.sub] visits is handed to the callback in a state
    reached from the first one, and what the callback returns for it is
    part of the result. *)
Lemma re_sub_visit {S : Type}
    (repl : re_match -> nat -> S -> option (completion S str))
    (R : S -> S -> Prop) :
  (forall s, R s s) ->
  (forall s1 s2 s3, R s1 s2 -> R s2 s3 -> R s1 s3) ->
  (forall m pos s r, repl m pos s = Some r -> R s (final_state r)) ->
  forall text skip pos s out s' pos' m,
    re_sub repl skip pos text s = Some (Done out s') ->
    (pos', m) ∈ directives_at skip pos text ->
    exists s1 r1 s2 before after,
      R s s1 /\ repl m pos' s1 = Some (Done r1 s2) /\ R s2 s'
      /\ out = before ++ r1 ++ after.
Proof.
  intros Hrefl Htrans Hrepl.
  induction text as [|c text IH]; intros skip pos s out s' pos' m Hsub Hin.
  { inversion Hin. }
  destruct skip as [|k].
  2:{ rewrite re_sub_cons_skip in Hsub. cbn [directives_at] in Hin.
      eapply IH; eassumption. }
  rewrite re_sub_cons in Hsub. cbn [directives_at] in Hin.
  destruct (match_directive (c :: text)) as [m0|].
  - destruct (repl m0 pos s) as [[r0 s0|e s0]|] eqn:E0;
      cbn [and_then] in Hsub; [|discriminate|discriminate].
    destruct (re_sub repl _ _ text s0) as [[out1 s3|e s3]|] eqn:E1;
      cbn [and_then] in Hsub; [|discriminate|discriminate].
    injection Hsub as <- <-.
    apply elem_of_cons in Hin as [[= -> ->]|Hin].
    + exists s, r0, s0, [], out1. repeat split; [apply Hrefl|exact E0|].
      apply (re_sub_rel repl R Hrefl Htrans Hrepl) in E1. exact E1.
    + destruct (IH _ _ _ _ _ _ _ E1 Hin)
        as (s1 & r1 & s2 & before & after & H1 & H2 & H3 & ->).
      exists s1, r1, s2, (r0 ++ before), after.
      repeat split; [|exact H2|exact H3|rewrite <- app_assoc; reflexivity].
      eapply Htrans; [|exact H1]. apply (Hrepl _ _ _ _ E0).
  - destruct (re_sub repl _ _ text s) as [[out1 s3|e s3]|] eqn:E1;
      cbn [and_then] in Hsub; [|discriminate|discriminate].
    injection Hsub as <- <-.
    destruct (IH _ _ _ _ _ _ _ E1 Hin)
      as (s1 & r1 & s2 & before & after & H1 & H2 & H3 & ->).
    exists s1, r1, s2, (c :: before), after.
    repeat split; assumption.
Qed.

(** Whatever else a content holds, every directive of it that resolves to
    a path visited before the call is replaced by the comment. *)
Lemma resolve_marks_visited fuel content dir self pos m p out self' :
  current_depth self <= max_depth ->
  (pos, m) ∈ directives_at 0 0 content ->
  find_file self dir (file_arg_of m) = Returns (Some p) ->
  p ∈ processed_files self ->
  resolve_input_commands (S fuel) content dir self = Some (Done out self') ->
  exists before after,
    out = before ++ circular_comment m (is_in_math_mode content pos)
                 ++ after
    /\ WarnCircular p ∈ stdout self'.
Proof.
  intros Hd Hin Hf Hp.
  rewrite resolve_below_ceiling by exact Hd.
  set (s0 := set_depth (current_depth self + 1) self).
  destruct (re_sub _ 0 0 content s0) as [[out1 s3|e s3]|] eqn:E;
    cbn [and_then]; [|discriminate|discriminate].
  intros [= <- <-].
  destruct (re_sub_visit
              (replace_command (resolve_input_commands fuel) content dir)
              extends extends_refl extends_trans)
    with (text := content) (skip := 0) (pos := 0) (s := s0) (out := out1)
         (s' := s3) (pos' := pos) (m := m)
    as (s1 & r1 & s2 & before & after & H1 & H2 & H3 & ->).
  - intros m' pos' s r. apply replace_command_extends.
    apply resolve_extends.
  - exact E.
  - exact Hin.
  - destruct H1 as (Hm1 & _ & _ & new1 & Hs1 & _ & _ & Hp1).
    rewrite (replace_command_circular _ _ _ _ _ _ p) in H2.
    + injection H2 as <- <-. exists before, after. split; [reflexivity|].
      destruct H3 as (_ & _ & _ & new3 & Hs3 & _).
      cbn [stdout set_depth]. rewrite Hs3. cbn [stdout print].
      set_solver.
    + rewrite (find_file_main self s1); [exact Hf|]. rewrite Hm1.
      reflexivity.
    + rewrite Hp1. subst s0. cbn [processed_files set_depth]. set_solver.
Qed.

(** *** Chains of inclusions *)

Lemma chain_resolves (rest : list level) :
  forall (l : level) fuel dir self0 self q,
    main_file self = main_file self0 ->
    chain self0 dir (processed_files self) q (l :: rest) ->
    current_depth self + length rest <= max_depth ->
    length rest < fuel ->
    resolve_input_commands fuel (level_text l) dir self
    = Some (Done (chain_output (l :: rest))
              (Inliner _ (main_file self) (output_file self)
                 (list_to_set (level_path <$> rest) ∪ processed_files self)
                 (current_depth self)
                 (stdout self ++ chain_inlinings (l :: rest)
                    ++ [WarnCircular q]))).
Proof.
  induction rest as [|l' rest IH]; intros l fuel dir self0 self q Hmain Hc Hd
    Hfuel.
  - destruct fuel as [|fuel]; [simpl in Hfuel; lia|].
    destruct Hc as (Hone & Hf & Hq).
    rewrite <- (find_file_main self0 self) in Hf by exact Hmain.
    unfold level_text.
    rewrite (resolve_single_circular _ _ _ _ _ _ q)
      by (assumption || (simpl in Hd; lia)).
    do 2 f_equal. destruct self. unfold print. cbn. f_equal.
    set_solver.
  - destruct fuel as [|fuel]; [simpl in Hfuel; lia|].
    destruct Hc as (Hone & Hf & Hnew & (c & Hread & Hbody) & Hrest).
    destruct Hone as (Hpre & Hm & Hpost).
    rewrite <- (find_file_main self0 self) in Hf by exact Hmain.
    cbn [length] in Hd, Hfuel.
    unfold level_text at 1.
    rewrite resolve_below_ceiling by lia.
    rewrite re_sub_prefix by exact Hpre.
    rewrite (re_sub_match _ _ _ _ _ Hm).
    set (s0 := set_depth (current_depth self + 1) self).
    rewrite (replace_command_inline _ _ _ _ _ s0 (level_path l') c);
      [|rewrite (find_file_main self s0) by reflexivity; exact Hf
       |exact Hnew|exact Hread].
    cbn [plus]. change (is_in_math_mode _ (length (level_pre l)))
      with (level_math l).
    rewrite Hbody.
    set (s1 := print (MsgInlining (level_path l') (level_math l))
                 (add_processed (level_path l') s0)).
    rewrite (IH l' fuel (parent (level_path l')) self0 s1 q).
    + cbn [and_then]. rewrite drop_app_length.
      rewrite re_sub_no_directive by exact Hpost. cbn [and_then].
      do 2 f_equal. destruct self. subst s1 s0.
      unfold set_depth, print, add_processed. cbn.
      f_equal; [set_solver|lia|].
      rewrite <- !app_assoc. reflexivity.
    + subst s1 s0. cbn. exact Hmain.
    + exact Hrest.
    + subst s1 s0. unfold set_depth, print, add_processed.
      cbn [current_depth]. lia.
    + lia.
Qed.

(** C5 (as the code has it).  Resolution terminates within the ceiling:
    with fuel for the top-level call and the ten nested ones a call of
    [resolve_input_commands] ends, by returning or by an exception of the
    search for a file, with the depth counter not below where it was and
    never more than one above the ceiling; a call entered above the
    ceiling returns its content as it is.  Whatever a content holds, every
    directive of it that resolves to a path visited before the call is
    replaced by the circular-inclusion comment, with its warning printed.
    And a chain of inclusions that comes back to a visited path as it is
    written, each file with the one directive, becomes the nested texts
    with exactly one comment, for the directive that closes the cycle: one
    warning is printed, behind the "Inlining" lines of the files on the
    chain, and these files are what is added to the visited set.  (A cycle
    that comes back to a file under another path is not seen by the
    visited set; the ceiling ends it.) *)
Theorem resolve_terminates_marks_visited :
  (forall fuel content dir self,
     max_depth + 1 <= fuel + current_depth self ->
     exists r,
       resolve_input_commands fuel content dir self = Some r
       /\ current_depth self <= current_depth (final_state r)
       /\ (current_depth self <= max_depth + 1 ->
           current_depth (final_state r) <= max_depth + 1))
  /\ (forall fuel content dir self,
        max_depth < current_depth self ->
        resolve_input_commands fuel content dir self
        = Some (Done content self))
  /\ (forall fuel content dir self pos m p out self',
        current_depth self <= max_depth ->
        (pos, m) ∈ directives_at 0 0 content ->
        find_file self dir (file_arg_of m) = Returns (Some p) ->
        p ∈ processed_files self ->
        resolve_input_commands (S fuel) content dir self
        = Some (Done out self') ->
        exists before after,
          out = before
                ++ circular_comment m (is_in_math_mode content pos)
                ++ after
          /\ WarnCircular p ∈ stdout self')
  /\ (forall (l : level) (rest : list level) fuel dir self q,
        chain self dir (processed_files self) q (l :: rest) ->
        current_depth self + length rest <= max_depth ->
        length rest < fuel ->
        resolve_input_commands fuel (level_text l) dir self
        = Some (Done (chain_output (l :: rest))
                  (Inliner _ (main_file self) (output_file self)
                     (list_to_set (level_path <$> rest)
                        ∪ processed_files self)
                     (current_depth self)
                     (stdout self ++ chain_inlinings (l :: rest)
                        ++ [WarnCircular q])))).
Proof.
  split; [|split; [|split]].
  - intros fuel content dir self H.
    destruct (resolve_total fuel content dir self H)
      as (r & E & _ & _ & Hd & _).
    exists r. split; [exact E|]. split; [exact Hd|].
    apply (resolve_bounded _ _ _ _ _ E).
  - apply resolve_above_ceiling.
  - apply resolve_marks_visited.
  - intros l rest fuel dir self q. apply chain_resolves. reflexivity.
Qed.

(** *** Failures of a directive *)

(** The error comment is the comment line and then the directive. *)
Lemma error_comment_shape p e m (b : bool) :
  error_comment p e m b
  = (if b then [] else nl)
    ++ (lit "% Error including " ++ path_str p ++ lit ": " ++ e)
    ++ nl ++ group0 m ++ (if b then [] else nl).
Proof.
  unfold error_comment. destruct b; simpl.
  - rewrite app_nil_r. reflexivity.
  - reflexivity.
Qed.

(** The first test of the search decides when it raises. *)
Lemma find_file_raises self dir file_arg e :
  path_exists (joinpath dir file_arg) = Raises e ->
  find_file self dir file_arg = Raises e.
Proof. intros H. unfold find_file. rewrite H. reflexivity. Qed.

(** An exception of the search leaves the call at the first directive,
    with the counter incremented. *)
Lemma resolve_raises fuel pre m post dir self e :
  current_depth self <= max_depth ->
  (forall i, i < length pre ->
     match_directive (drop i (pre ++ group0 m ++ post)) = None) ->
  match_directive (group0 m ++ post) = Some m ->
  find_file self dir (file_arg_of m) = Raises e ->
  resolve_input_commands (S fuel) (pre ++ group0 m ++ post) dir self
  = Some (Raise e (set_depth (current_depth self + 1) self)).
Proof.
  intros Hd Hpre Hm Hf.
  rewrite resolve_below_ceiling by exact Hd.
  rewrite re_sub_prefix by exact Hpre.
  rewrite (re_sub_match _ _ m _ _ Hm).
  rewrite (replace_command_raises _ _ _ _ _ _ e) by exact Hf.
  reflexivity.
Qed.

(** The ways [inline_latex] goes. *)
Lemma inline_latex_raises fuel self e :
  path_exists (main_file self) = Raises e ->
  inline_latex fuel self = Some (Raise e self).
Proof. intros H. unfold inline_latex. rewrite H. reflexivity. Qed.

Lemma inline_latex_missing fuel self :
  path_exists (main_file self) = Returns false ->
  inline_latex fuel self
  = Some (Done Failed (print (MsgMainNotFound (main_file self)) self)).
Proof. intros H. unfold inline_latex. rewrite H. reflexivity. Qed.

Lemma inline_latex_unreadable fuel self e :
  path_exists (main_file self) = Returns true ->
  read_file (main_file self) = inr e ->
  inline_latex fuel self
  = Some (Done Failed
            (print (MsgError e)
               (print (MsgStart (main_file self) (output_file self)) self))).
Proof.
  intros H Hr. unfold inline_latex. rewrite H. simpl. rewrite Hr.
  reflexivity.
Qed.

Lemma inline_latex_read fuel self main_content :
  path_exists (main_file self) = Returns true ->
  read_file (main_file self) = inl main_content ->
  inline_latex fuel self
  = match resolve_input_commands fuel main_content
            (parent (main_file self))
            (add_processed (main_file self)
               (print (MsgStart (main_file self) (output_file self)) self))
    with
    | Some (Done inlined_content self') =>
        match open_write (output_file self')
                (remove_blank_lines_in_math inlined_content) with
        | Some e => Some (Done Failed (print (MsgError e) self'))
        | None =>
            Some (Done (Written (remove_blank_lines_in_math inlined_content))
                    (print (MsgSuccess (output_file self')
                              (size (processed_files self'))) self'))
        end
    | Some (Raise e self') => Some (Done Failed (print (MsgError e) self'))
    | None => None
    end.
Proof.
  intros H Hr. unfold inline_latex. rewrite H. simpl. rewrite Hr.
  reflexivity.
Qed.

(** C8 (where the code leaves it).  An exception of [exists()] is not
    isolated.  The search for the file of a directive is outside the
    [try]: when its first test raises, the call of
    [resolve_input_commands] is left at that directive, with the depth
    counter incremented and whatever follows the directive not looked at;
    a run whose main file holds the directive returns [False], prints the
    exception and writes nothing; one level down the exception is caught
    by the handler of the including directive, which writes the error
    comment for the whole included file. *)
Theorem raising_exists_aborts_run :
  (forall fuel pre m post dir self e,
     current_depth self <= max_depth ->
     (forall i, i < length pre ->
        match_directive (drop i (pre ++ group0 m ++ post)) = None) ->
     match_directive (group0 m ++ post) = Some m ->
     path_exists (joinpath dir (file_arg_of m)) = Raises e ->
     resolve_input_commands (S fuel) (pre ++ group0 m ++ post) dir self
     = Some (Raise e (set_depth (current_depth self + 1) self)))
  /\ (forall fuel pre m post self e,
        current_depth self <= max_depth ->
        path_exists (main_file self) = Returns true ->
        read_file (main_file self) = inl (pre ++ group0 m ++ post) ->
        (forall i, i < length pre ->
           match_directive (drop i (pre ++ group0 m ++ post)) = None) ->
        match_directive (group0 m ++ post) = Some m ->
        path_exists (joinpath (parent (main_file self)) (file_arg_of m))
        = Raises e ->
        inline_latex (S fuel) self
        = Some (Done Failed
                  (print (MsgError e)
                     (set_depth (current_depth self + 1)
                        (add_processed (main_file self)
                           (print (MsgStart (main_file self)
                                     (output_file self)) self))))))
  /\ (forall rec content dir m pos self p file_content e self',
        find_file self dir (file_arg_of m) = Returns (Some p) ->
        p ∉ processed_files self ->
        read_file p = inl file_content ->
        rec (if is_in_math_mode content pos then strip file_content
             else file_content)
          (parent p)
          (print (MsgInlining p (is_in_math_mode content pos))
             (add_processed p self))
        = Some (Raise e self') ->
        replace_command rec content dir m pos self
        = Some (Done (error_comment p e m (is_in_math_mode content pos))
                  (print (MsgErrorProcessing p e) self'))).
Proof.
  split; [|split].
  - intros fuel pre m post dir self e Hd Hpre Hm He.
    apply resolve_raises; try assumption.
    apply find_file_raises, He.
  - intros fuel pre m post self e Hd Hex Hr Hpre Hm He.
    rewrite (inline_latex_read _ _ _ Hex Hr).
    rewrite (resolve_raises _ _ _ _ _ _ e); try assumption.
    + reflexivity.
    + apply find_file_raises, He.
  - intros rec content dir m pos self p c e self' Hf Hin Hr Hrec.
    rewrite (replace_command_inline _ _ _ _ _ _ p c Hf Hin Hr), Hrec.
    reflexivity.
Qed.

(** X13.  When the search for a file answers, a directive that fails does
    not stop the others.  When no candidate path exists the warning is
    printed and the directive is left as it is; when reading the file
    fails the replacement is the error comment followed by the directive;
    in both cases the substitution goes on with the text after the
    directive. *)
Theorem directive_failures_are_isolated rec content dir text m pos self :
  match_directive text = Some m ->
  (find_file self dir (file_arg_of m) = Returns None ->
   replace_command rec content dir m pos self
   = Some (Done (group0 m) (print (WarnNotFound (file_arg_of m)) self))
   /\ re_sub (replace_command rec content dir) 0 pos text self
      = and_then
          (re_sub (replace_command rec content dir) 0
             (pos + length (group0 m)) (drop (length (group0 m)) text)
             (print (WarnNotFound (file_arg_of m)) self))
          (fun out self' => Some (Done (group0 m ++ out) self')))
  /\ (forall p e,
        find_file self dir (file_arg_of m) = Returns (Some p) ->
        p ∉ processed_files self ->
        read_file p = inr e ->
        let in_math_mode := is_in_math_mode content pos in
        let self1 :=
          print (MsgErrorProcessing p e)
            (print (MsgInlining p in_math_mode) (add_processed p self)) in
        let comment :=
          (if in_math_mode then [] else nl)
          ++ (lit "% Error including " ++ path_str p ++ lit ": " ++ e)
          ++ nl ++ group0 m ++ (if in_math_mode then [] else nl) in
        replace_command rec content dir m pos self
        = Some (Done comment self1)
        /\ re_sub (replace_command rec content dir) 0 pos text self
           = and_then
               (re_sub (replace_command rec content dir) 0
                  (pos + length (group0 m)) (drop (length (group0 m)) text)
                  self1)
               (fun out self' => Some (Done (comment ++ out) self'))).
Proof.
  intros Hm. split.
  - intros Hf.
    pose proof (replace_command_not_found rec content dir m pos self Hf) as E.
    split; [exact E|]. rewrite (re_sub_match _ _ m _ _ Hm), E. reflexivity.
  - intros p e Hf Hin Hr in_math_mode self1 comment.
    pose proof (replace_command_read_error rec content dir m pos self p e
                  Hf Hin Hr) as E.
    rewrite error_comment_shape in E.
    split; [exact E|]. rewrite (re_sub_match _ _ m _ _ Hm), E. reflexivity.
Qed.


End ResolverClaims.

(** ** Documents without math *)

Section MathFree.

Implicit Types (st : math_state) (s l p : str) (c : char).

Lemma contains_cons p c s :
  contains p (c :: s) = startswith p (c :: s) || contains p s.
Proof. reflexivity. Qed.

Lemma has_bare_dollar_cons prev c s :
  has_bare_dollar prev (c :: s)
  = (c =? DOLLAR)%N && negb (bool_decide (prev = Some BACKSLASH))
    || has_bare_dollar (Some c) s.
Proof. reflexivity. Qed.

Lemma has_math_begin_cons c s :
  has_math_begin (c :: s)
  = match match_env BEGIN (c :: s) with
    | Some (env_name, _) => is_math_env env_name
    | None => false
    end || has_math_begin s.
Proof. reflexivity. Qed.

Lemma count_from_cons k p c s :
  count_from k p (c :: s)
  = match k with
    | S k' => count_from k' p s
    | O => if startswith p (c :: s)
           then (1 + count_from (length p - 1) p s)%Z
           else count_from 0 p s
    end.
Proof. reflexivity. Qed.

Lemma count_from_nonneg p s : forall k, (0 <= count_from k p s)%Z.
Proof.
  induction s as [|c s IH]; intros k; [simpl; lia|].
  rewrite count_from_cons. destruct k; [|apply IH].
  destruct (startswith p (c :: s)); [specialize (IH (length p - 1)); lia|].
  apply IH.
Qed.

(** Without a bare dollar there is no [$$]. *)
Lemma count_double_dollar s : forall prev k,
  has_bare_dollar prev s = false -> count_from k (lit "$$") s = 0%Z.
Proof.
  induction s as [|c s IH]; intros prev k H; [reflexivity|].
  rewrite has_bare_dollar_cons in H. apply orb_false_iff in H as [H1 H2].
  rewrite count_from_cons. destruct k as [|k]; [|eapply IH, H2].
  destruct (startswith (lit "$$") (c :: s)) eqn:E; [|eapply IH, H2].
  exfalso. change (lit "$$") with [DOLLAR; DOLLAR] in E. simpl in E.
  destruct (N.eqb_spec DOLLAR c) as [<-|]; [|discriminate]. simpl in E.
  destruct s as [|d s]; [discriminate|]. simpl in E.
  destruct (N.eqb_spec DOLLAR d) as [<-|]; [|discriminate].
  rewrite has_bare_dollar_cons, N.eqb_refl in H2.
  rewrite bool_decide_eq_false_2 in H2 by discriminate. discriminate.
Qed.

(** Without a bare dollar every dollar is in a [\$], and the two counts of
    the single-dollar parity cancel. *)
Lemma count_escaped_dollar s : forall prev,
  has_bare_dollar prev s = false ->
  (count_from 0 (lit "$") s
   = count_from 0 (lit "\$") s + (if starts_with_dollar s then 1 else 0))%Z
  /\ (starts_with_dollar s = true ->
      count_from 0 (lit "$") s = 1 + count_from 1 (lit "\$") s)%Z.
Proof.
  induction s as [|c s IH]; intros prev H; [split; [reflexivity|discriminate]|].
  rewrite has_bare_dollar_cons in H. apply orb_false_iff in H as [H1 H2].
  destruct (IH _ H2) as [IH1 IH2].
  assert (starts_with_dollar s = true -> c = BACKSLASH) as Hnext.
  { destruct s as [|d s]; [discriminate|]. simpl. intros Hd.
    rewrite has_bare_dollar_cons, Hd in H2. simpl in H2.
    apply orb_false_iff in H2 as [H2 _]. apply negb_false_iff in H2.
    apply bool_decide_eq_true in H2. congruence. }
  change (lit "$") with [DOLLAR] in *.
  change (lit "\$") with [BACKSLASH; DOLLAR] in *.
  rewrite !count_from_cons. simpl length. simpl Nat.sub.
  simpl starts_with_dollar.
  assert (startswith [DOLLAR] (c :: s) = (c =? DOLLAR)%N) as ->.
  { simpl. rewrite andb_true_r. apply N.eqb_sym. }
  assert (startswith [BACKSLASH; DOLLAR] (c :: s)
          = (c =? BACKSLASH)%N && starts_with_dollar s) as ->.
  { simpl. rewrite (N.eqb_sym BACKSLASH c). f_equal.
    destruct s as [|d s]; [reflexivity|]. simpl.
    rewrite andb_true_r. apply N.eqb_sym. }
  destruct (N.eqb_spec c DOLLAR) as [->|Hc].
  - (* the dollar itself: the next character is not a dollar *)
    assert (starts_with_dollar s = false) as Hs.
    { destruct (starts_with_dollar s); [|reflexivity].
      specialize (Hnext eq_refl). discriminate. }
    rewrite Hs in IH1. simpl. split; [lia|]. intros _. lia.
  - split; [|discriminate].
    destruct (N.eqb_spec c BACKSLASH) as [->|Hb]; simpl.
    + destruct (starts_with_dollar s) eqn:Hs.
      * rewrite (IH2 eq_refl). lia.
      * lia.
    + destruct (starts_with_dollar s) eqn:Hs; [|lia].
      specialize (Hnext eq_refl). contradiction.
Qed.

(** A line that opens nothing leaves a state that is not in math as it
    is. *)
Lemma foldl_line_begin_quiet names st :
  Forall (fun n => is_math_env n = false) names ->
  foldl line_begin_one st names = st.
Proof.
  intros H. revert st. induction H as [|n names Hn _ IH]; intros st;
    [reflexivity|].
  simpl. unfold line_begin_one at 2. rewrite Hn. apply IH.
Qed.

Lemma foldl_line_end_quiet names st :
  stack_nonempty st = false -> foldl line_end_one st names = st.
Proof.
  intros H. induction names as [|n names IH]; [reflexivity|].
  simpl. unfold line_end_one at 2. rewrite H. simpl. exact IH.
Qed.

Lemma finditer_env_cons kw k c s :
  finditer_env kw k (c :: s)
  = match k with
    | S k' => finditer_env kw k' s
    | O => match match_env kw (c :: s) with
           | Some (name, n) => name :: finditer_env kw (n - 1) s
           | None => finditer_env kw 0 s
           end
    end.
Proof. reflexivity. Qed.

Lemma finditer_begin_quiet s : forall k,
  has_math_begin s = false ->
  Forall (fun n => is_math_env n = false) (finditer_env BEGIN k s).
Proof.
  induction s as [|c s IH]; intros k H; [constructor|].
  rewrite has_math_begin_cons in H. apply orb_false_iff in H as [H1 H2].
  rewrite finditer_env_cons. destruct k as [|k]; [|apply IH, H2].
  destruct (match_env BEGIN (c :: s)) as [[name n]|]; [|apply IH, H2].
  constructor; [exact H1|apply IH, H2].
Qed.

Lemma line_step_quiet l :
  has_bare_dollar None l = false ->
  contains (lit "\[") l = false ->
  contains (lit "\(") l = false ->
  has_math_begin l = false ->
  line_step init_state l = init_state.
Proof.
  intros Hd Hb Hp He. unfold line_step.
  assert (line_open_display l init_state = init_state) as ->.
  { unfold line_open_display. rewrite Hb. reflexivity. }
  assert (line_close_display l init_state = init_state) as ->.
  { unfold line_close_display. simpl. rewrite andb_false_r. reflexivity. }
  assert (line_double_dollar l init_state = init_state) as ->.
  { unfold line_double_dollar, count.
    rewrite (count_double_dollar l None 0 Hd).
    pose proof (count_from_nonneg (lit "\$\$") l 0).
    destruct (Z.ltb_spec 0 (0 - count_from 0 (lit "\$\$") l)); [lia|].
    reflexivity. }
  assert (line_single_dollar l init_state = init_state) as ->.
  { unfold line_single_dollar, count.
    rewrite (count_double_dollar l None 0 Hd).
    destruct (count_escaped_dollar l None Hd) as [E1 E2].
    assert (starts_with_dollar l = false) as Hs.
    { destruct l as [|c l]; [reflexivity|]. simpl.
      rewrite has_bare_dollar_cons in Hd.
      apply orb_false_iff in Hd as [Hd _].
      rewrite bool_decide_eq_false_2 in Hd by discriminate.
      simpl in Hd. rewrite andb_true_r in Hd. exact Hd. }
    rewrite Hs in E1. rewrite E1.
    replace (count_from 0 (lit "\$") l + 0 - 2 * 0
             - count_from 0 (lit "\$") l)%Z with 0%Z by lia.
    reflexivity. }
  assert (line_paren l init_state = init_state) as ->.
  { unfold line_paren. rewrite Hp. simpl. rewrite andb_false_r. reflexivity. }
  rewrite foldl_line_begin_quiet by (apply finditer_begin_quiet, He).
  apply foldl_line_end_quiet. reflexivity.
Qed.

(** *** From the document to its lines *)

Lemma startswith_app_true p : forall a b,
  startswith p a = true -> startswith p (a ++ b) = true.
Proof.
  induction p as [|x p IH]; intros a b H; [destruct (a ++ b); reflexivity|].
  destruct a as [|y a]; [discriminate|]. simpl in *.
  apply andb_true_iff in H as [-> H]. simpl. apply IH, H.
Qed.

(** The first line of a text is a prefix of it. *)
Lemma split_nl_cons c s :
  split_nl (c :: s)
  = if (c =? NEWLINE)%N then [] :: split_nl s
    else match split_nl s with
         | [] => [[c]]
         | l :: ls => (c :: l) :: ls
         end.
Proof. reflexivity. Qed.

Lemma split_nl_head s :
  exists l ls rest, split_nl s = l :: ls /\ s = l ++ rest.
Proof.
  induction s as [|c s (l & ls & rest & E & Hs)].
  - exists [], [], []. split; reflexivity.
  - rewrite split_nl_cons. destruct (c =? NEWLINE)%N.
    + exists [], (split_nl s), (c :: s). split; reflexivity.
    + rewrite E. exists (c :: l), ls, rest. split; [reflexivity|].
      simpl. rewrite <- Hs. reflexivity.
Qed.

Lemma contains_lines p s :
  contains p s = false ->
  Forall (fun l => contains p l = false) (split_nl s).
Proof.
  induction s as [|c s IH]; intros H.
  - simpl. constructor; [exact H|constructor].
  - rewrite contains_cons in H. apply orb_false_iff in H as [H1 H2].
    specialize (IH H2). rewrite split_nl_cons.
    destruct (split_nl_head s) as (l & ls & rest & E & Hs).
    destruct (c =? NEWLINE)%N.
    + constructor; [|exact IH].
      destruct p as [|x p]; [discriminate|reflexivity].
    + rewrite E in *. apply Forall_cons in IH as [Hl Hls].
      constructor; [|exact Hls].
      rewrite contains_cons, Hl, orb_false_r.
      destruct (startswith p (c :: l)) eqn:Es; [|reflexivity].
      apply (startswith_app_true _ _ rest) in Es. simpl in Es.
      rewrite <- Hs in Es. congruence.
Qed.

Lemma has_bare_dollar_prev prev prev' s :
  prev <> Some BACKSLASH -> prev' <> Some BACKSLASH ->
  has_bare_dollar prev s = has_bare_dollar prev' s.
Proof.
  intros H H'. destruct s as [|c s]; [reflexivity|].
  rewrite !has_bare_dollar_cons.
  rewrite !bool_decide_eq_false_2 by assumption. reflexivity.
Qed.

Lemma has_bare_dollar_lines s : forall prev,
  has_bare_dollar prev s = false ->
  exists l ls,
    split_nl s = l :: ls
    /\ has_bare_dollar prev l = false
    /\ Forall (fun l => has_bare_dollar None l = false) ls.
Proof.
  induction s as [|c s IH]; intros prev H.
  - exists [], []. repeat split. constructor.
  - rewrite has_bare_dollar_cons in H. apply orb_false_iff in H as [H1 H2].
    destruct (IH _ H2) as (l & ls & E & Hl & Hls).
    rewrite split_nl_cons. destruct (N.eqb_spec c NEWLINE) as [->|Hc].
    + exists [], (split_nl s). repeat split. rewrite E.
      constructor; [|exact Hls].
      rewrite <- Hl. apply has_bare_dollar_prev; discriminate.
    + rewrite E. exists (c :: l), ls. repeat split; [|exact Hls].
      rewrite has_bare_dollar_cons, H1, Hl. reflexivity.
Qed.

Lemma until_rbrace_cons c s :
  until_rbrace (c :: s) = if (c =? RBRACE)%N then [] else c :: until_rbrace s.
Proof. reflexivity. Qed.

(** A name that is closed is not changed by what follows the text. *)
Lemma until_rbrace_closed s b :
  drop (length (until_rbrace s)) s <> [] ->
  until_rbrace (s ++ b) = until_rbrace s.
Proof.
  induction s as [|c s IH]; intros H; [contradiction|].
  change ((c :: s) ++ b) with (c :: (s ++ b)).
  rewrite !until_rbrace_cons. rewrite until_rbrace_cons in H.
  destruct (c =? RBRACE)%N; [reflexivity|].
  rewrite IH; [reflexivity|exact H].
Qed.

Lemma match_braced_app_true s b r :
  match_braced s = Some r -> match_braced (s ++ b) = Some r.
Proof.
  destruct s as [|c s]; [discriminate|].
  change ((c :: s) ++ b) with (c :: (s ++ b)). unfold match_braced.
  destruct (c =? LBRACE)%N; [|discriminate]. cbv zeta.
  pose proof (until_rbrace_length s) as HL.
  pose proof (until_rbrace_closed s b) as HC.
  destruct (until_rbrace s) as [|a nm] eqn:U; [discriminate|].
  destruct (drop (length (a :: nm)) s) as [|x rest] eqn:D; [discriminate|].
  rewrite HC by discriminate.
  rewrite drop_app_le by exact HL. rewrite D. auto.
Qed.

Lemma match_env_app_true kw s b r :
  match_env kw s = Some r -> match_env kw (s ++ b) = Some r.
Proof.
  unfold match_env.
  destruct (strip_prefix kw s) as [t|] eqn:E; [|discriminate].
  rewrite (strip_prefix_app kw s t b E).
  destruct (match_braced t) as [[name n]|] eqn:B; [|discriminate].
  rewrite (match_braced_app_true t b _ B). auto.
Qed.

Lemma has_math_begin_lines s :
  has_math_begin s = false ->
  Forall (fun l => has_math_begin l = false) (split_nl s).
Proof.
  induction s as [|c s IH]; intros H.
  - simpl. constructor; [reflexivity|constructor].
  - rewrite has_math_begin_cons in H. apply orb_false_iff in H as [H1 H2].
    specialize (IH H2). rewrite split_nl_cons.
    destruct (split_nl_head s) as (l & ls & rest & E & Hs).
    destruct (c =? NEWLINE)%N.
    + constructor; [reflexivity|exact IH].
    + rewrite E in *. apply Forall_cons in IH as [Hl Hls].
      constructor; [|exact Hls].
      rewrite has_math_begin_cons, Hl, orb_false_r.
      destruct (match_env BEGIN (c :: l)) as [[name n]|] eqn:Em;
        [|reflexivity].
      apply (match_env_app_true _ _ rest) in Em. simpl in Em.
      rewrite <- Hs in Em. rewrite Em in H1. exact H1.
Qed.

(** In a document without math regions the line-level machine never
    leaves its initial state. *)
Lemma math_free_state s k :
  math_free s = true -> line_state_after (split_nl s) k = init_state.
Proof.
  unfold math_free. rewrite !andb_true_iff, !negb_true_iff.
  intros [[[Hd Hb] Hp] He].
  apply contains_lines in Hb, Hp. apply has_math_begin_lines in He.
  destruct (has_bare_dollar_lines s None Hd) as (l & ls & E & Hl & Hls).
  assert (Forall (fun l => line_step init_state l = init_state)
            (split_nl s)) as Hq.
  { rewrite E in *. pose proof (Forall_cons_2 _ _ _ Hl Hls) as Hd'.
    clear Hl Hls Hd E. revert Hd' Hb Hp He.
    generalize (l :: ls). intros lines.
    rewrite !Forall_forall. intros. apply line_step_quiet; auto. }
  unfold line_state_after.
  assert (Forall (fun l => line_step init_state l = init_state)
            (take k (split_nl s))) as Hq'.
  { apply Forall_take, Hq. }
  induction Hq' as [|x xs Hx _ IH]; [reflexivity|].
  simpl. rewrite Hx. exact IH.
Qed.

End MathFree.

Section Pipeline.

Context `{FS : FileSystem}.

(** C7 (as the code has it).  On a document without directives
    [resolve_input_commands] returns the document and leaves the state
    alone; on a document in which no token opens math as the scanners read
    it (no dollar sign but [\$], no backslash before a bracket or a
    parenthesis anywhere, no [\begin] of a recognised environment)
    [remove_blank_lines_in_math] is the identity; so a run on a main file
    with neither writes the main file's content. *)
Theorem directive_and_math_free_identity :
  (forall fuel content dir self,
     has_directive content = false ->
     resolve_input_commands (S fuel) content dir self
     = Some (Done content self))
  /\ (forall content,
        math_free content = true ->
        remove_blank_lines_in_math content = content)
  /\ (forall fuel self content,
        path_exists (main_file self) = Returns true ->
        read_file (main_file self) = inl content ->
        open_write (output_file self) content = None ->
        has_directive content = false ->
        math_free content = true ->
        exists self',
          inline_latex (S fuel) self = Some (Done (Written content) self')).
Proof.
  assert (forall fuel content dir self,
            has_directive content = false ->
            resolve_input_commands (S fuel) content dir self
            = Some (Done content self)) as Hres.
  { intros fuel content dir self H.
    destruct (Nat.le_gt_cases (current_depth self) max_depth) as [Hle|Hgt].
    - rewrite resolve_below_ceiling by exact Hle.
      rewrite re_sub_no_directive by exact H. cbn [and_then].
      do 2 f_equal. destruct self. unfold set_depth. simpl. f_equal. lia.
    - apply resolve_above_ceiling. lia. }
  assert (forall content,
            math_free content = true ->
            remove_blank_lines_in_math content = content) as Hstrip.
  { intros content H. apply remove_blank_lines_inactive.
    intros k. rewrite math_free_state by exact H. reflexivity. }
  split; [exact Hres|]. split; [exact Hstrip|].
  intros fuel self content Hex Hread Hwrite Hdir Hmath.
  rewrite (inline_latex_read _ _ content Hex Hread).
  rewrite Hres by exact Hdir.
  rewrite Hstrip by exact Hmath.
  change (output_file (add_processed _ (print _ self)))
    with (output_file self).
  rewrite Hwrite. eauto.
Qed.

End Pipeline.

(** ** The comment writer *)

Section Comments.

Implicit Types (s a b content filename : str) (xs : list str).

Lemma join_nl_snoc xs b :
  xs <> [] -> join_nl (xs ++ [b]) = join_nl xs ++ nl ++ b.
Proof.
  induction xs as [|x xs IH]; [contradiction|]. intros _.
  destruct xs as [|y xs]; [reflexivity|].
  change (join_nl ((x :: y :: xs) ++ [b]))
    with (x ++ nl ++ join_nl ((y :: xs) ++ [b])).
  rewrite IH by discriminate.
  change (join_nl (x :: y :: xs)) with (x ++ nl ++ join_nl (y :: xs)).
  rewrite <- !app_assoc. reflexivity.
Qed.

(** In math mode, content of two lines or more with a delimiter at a
    boundary gets an empty line between the end comment and its last
    line. *)
Lemma safe_add_math_comments_multiline content filename :
  10 <= length (strip content) ->
  existsb (fun d => startswith d (strip content)) math_delimiters
  || existsb (fun d => endswith d (strip content)) math_delimiters = true ->
  2 <= length (split_nl content) ->
  safe_add_math_comments content filename
  = join_nl ([first_line (split_nl content); lit "% Begin: " ++ filename]
             ++ interior (split_nl content))
    ++ nl ++ (lit "% End: " ++ filename) ++ nl
    ++ nl ++ last_line (split_nl content).
Proof.
  intros Hlen Hdelim Hlines. unfold safe_add_math_comments.
  destruct (Nat.ltb_spec (length (strip content)) 10) as [|_]; [lia|].
  rewrite Hdelim.
  destruct (Nat.leb_spec 2 (length (split_nl content))) as [_|]; [|lia].
  set (body := [first_line (split_nl content); lit "% Begin: " ++ filename]
               ++ interior (split_nl content)).
  change ([first_line (split_nl content)] ++ [lit "% Begin: " ++ filename]
          ++ interior (split_nl content)
          ++ [lit "% End: " ++ filename ++ nl]
          ++ [last_line (split_nl content)])
    with (body ++ [lit "% End: " ++ filename ++ nl]
               ++ [last_line (split_nl content)]).
  rewrite app_assoc.
  rewrite join_nl_snoc by (subst body; discriminate).
  rewrite join_nl_snoc by (subst body; discriminate).
  rewrite <- !app_assoc. reflexivity.
Qed.

Lemma split_nl_app a : forall b,
  split_nl (a ++ b)
  = removelast (split_nl a)
    ++ [List.last (split_nl a) [] ++ hd [] (split_nl b)]
    ++ tl (split_nl b).
Proof.
  induction a as [|c a IH]; intros b.
  - simpl. pose proof (split_nl_nonempty b).
    destruct (split_nl b); [contradiction|reflexivity].
  - change ((c :: a) ++ b) with (c :: (a ++ b)).
    rewrite !split_nl_cons, IH.
    pose proof (split_nl_nonempty a) as Ha.
    destruct (split_nl a) as [|l ls]; [contradiction|].
    destruct (c =? NEWLINE)%N.
    + reflexivity.
    + destruct ls as [|l2 ls]; reflexivity.
Qed.

Lemma split_nl_one_line s : NEWLINE ∉ s -> split_nl s = [s].
Proof.
  induction s as [|c s IH]; intros H; [reflexivity|].
  rewrite split_nl_cons.
  destruct (N.eqb_spec c NEWLINE) as [->|_].
  - exfalso. apply H. left.
  - rewrite IH; [reflexivity|]. intros Hin. apply H. right. exact Hin.
Qed.

Lemma no_newline_check s :
  forallb (fun c => negb (c =? NEWLINE)%N) s = true -> NEWLINE ∉ s.
Proof.
  induction s as [|c s IH]; simpl; intros H Hin.
  - inversion Hin.
  - apply andb_true_iff in H as [Hc Hs].
    apply elem_of_cons in Hin as [<-|Hin]; [|exact (IH Hs Hin)].
    rewrite N.eqb_refl in Hc. discriminate.
Qed.

(** A line, its newline and the rest. *)
Lemma split_nl_line a b :
  NEWLINE ∉ a -> split_nl (a ++ nl ++ b) = a :: split_nl b.
Proof.
  intros H.
  assert (split_nl (nl ++ b) = [] :: split_nl b) as E.
  { change (nl ++ b) with (NEWLINE :: b).
    rewrite split_nl_cons, N.eqb_refl. reflexivity. }
  rewrite split_nl_app, E, (split_nl_one_line a H). simpl.
  rewrite app_nil_r. reflexivity.
Qed.

(** In text mode the lines of the result are the begin comment, the lines
    of the content, the end comment added to the last of them, and the
    empty piece after the final newline. *)
Lemma add_inclusion_comments_lines content filename :
  NEWLINE ∉ filename ->
  split_nl (add_inclusion_comments content filename false)
  = [lit "% --- Begin included file: " ++ filename ++ lit " ---"]
    ++ removelast (split_nl content)
    ++ [last_line (split_nl content)
        ++ lit "% --- End included file: " ++ filename ++ lit " ---"]
    ++ [[]].
Proof.
  intros H. unfold add_inclusion_comments.
  assert (forall p q, NEWLINE ∉ lit p -> NEWLINE ∉ lit q ->
                      NEWLINE ∉ lit p ++ filename ++ lit q) as Hline.
  { intros p q Hp Hq. rewrite !elem_of_app. tauto. }
  rewrite <- !app_assoc.
  rewrite (app_assoc (lit "% --- Begin included file: ")).
  rewrite (app_assoc _ (lit " ---") (nl ++ _)).
  rewrite split_nl_line.
  2:{ rewrite <- app_assoc.
      apply Hline; apply no_newline_check; reflexivity. }
  change ([?x] ++ ?l) with (x :: l). rewrite <- app_assoc. f_equal.
  rewrite split_nl_app.
  pose proof (split_nl_line
                (lit "% --- End included file: " ++ filename ++ lit " ---")
                []) as E.
  rewrite app_nil_r, <- !app_assoc in E. rewrite E.
  2:{ apply Hline; apply no_newline_check; reflexivity. }
  cbn [hd tl split_nl]. unfold last_line. reflexivity.
Qed.

End Comments.

(** ** Two tokens the scanners misread *)

(** The double-dollar toggle of the character-level scanner. *)
Lemma scan_escaped_dollar_dollar st prev rest :
  scan_loop st prev 0 (lit "\$$" ++ rest)
  = scan_loop
      (if in_double_dollar st
       then set_in_math false (set_in_double_dollar false st)
       else set_in_math true (set_in_double_dollar true st))
      (Some DOLLAR) 0 rest.
Proof.
  change (lit "\$$" ++ rest) with (BACKSLASH :: DOLLAR :: DOLLAR :: rest).
  destruct st as [m d dd stack]. destruct dd; reflexivity.
Qed.

(** Without the two-backslash token on the line, [\(] sets [in_math] and
    nothing on the line clears it. *)
Lemma line_paren_never_closes st line :
  contains (lit "\\)") line = false ->
  line_paren line st
  = if contains (lit "\(") line then set_in_math true st else st.
Proof.
  intros H. unfold line_paren. rewrite H. simpl.
  rewrite andb_true_r. destruct (contains (lit "\(") line); reflexivity.
Qed.

(** ** The claims on concrete inputs *)

(** C1.  For content that has a delimiter at a boundary and more than one
    line, [safe_add_math_comments] puts a newline at the end of the end
    comment and then joins with newlines: an empty line stands between the
    end comment and the last line.  With [$$], a formula and [$$] on three
    lines, the content has no blank line and the result has one, inside the
    [$$] region. *)
Theorem safe_add_math_comments_blank_line :
  (forall content filename,
     10 <= length (strip content) ->
     existsb (fun d => startswith d (strip content)) math_delimiters
     || existsb (fun d => endswith d (strip content)) math_delimiters = true ->
     2 <= length (split_nl content) ->
     add_inclusion_comments content filename true
     = join_nl ([first_line (split_nl content); lit "% Begin: " ++ filename]
                ++ interior (split_nl content))
       ++ nl ++ (lit "% End: " ++ filename) ++ nl
       ++ nl ++ last_line (split_nl content))
  /\ (let content := lit "$$" ++ nl ++ lit "x + y = z" ++ nl ++ lit "$$" in
      let out := add_inclusion_comments content (lit "f.tex") true in
      out = lit "$$" ++ nl ++ lit "% Begin: f.tex" ++ nl ++ lit "x + y = z"
            ++ nl ++ lit "% End: f.tex" ++ nl ++ nl ++ lit "$$"
      /\ List.filter is_blank (split_nl content) = []
      /\ List.filter is_blank (split_nl out) = [[]]).
Proof.
  split.
  - intros content filename. apply safe_add_math_comments_multiline.
  - vm_compute. repeat split.
Qed.

Lemma safe_add_math_comments_blank_line_witness :
  add_inclusion_comments
    (lit "$$" ++ nl ++ lit "x + y = z" ++ nl ++ lit "$$") (lit "f.tex") true
  = join_nl [lit "$$"; lit "% Begin: f.tex"; lit "x + y = z"]
    ++ nl ++ lit "% End: f.tex" ++ nl ++ nl ++ lit "$$".
Proof.
  apply (proj1 safe_add_math_comments_blank_line
           (lit "$$" ++ nl ++ lit "x + y = z" ++ nl ++ lit "$$")
           (lit "f.tex")).
  - vm_compute. lia.
  - reflexivity.
  - vm_compute. lia.
Defined.

(** C4.  The line-level machine looks for the closing parenthesis token
    with two backslashes: on a line without that text [\(] sets [in_math]
    and [\)] does not clear it.  On the one-line document [\(x\)] the
    character-level scanner is out of math at the end of the line and the
    line-level machine is in math, and stays so: a blank line after it, in
    plain text, is removed.  The line [$$x$$] is counted as one toggle, with
    the same effect. *)
Theorem line_machine_disagrees_with_scanner :
  (forall st line,
     contains (lit "\\)") line = false ->
     line_paren line st
     = if contains (lit "\(") line then set_in_math true st else st)
  /\ is_in_math_mode (lit "\(x\)") 5 = false
  /\ any_math_mode (line_state_after (split_nl (lit "\(x\)")) 1) = true
  /\ remove_blank_lines_in_math (lit "\(x\)" ++ nl ++ nl ++ lit "text")
     = lit "\(x\)" ++ nl ++ lit "text"
  /\ is_in_math_mode (lit "$$x$$") 5 = false
  /\ any_math_mode (line_state_after (split_nl (lit "$$x$$")) 1) = true.
Proof.
  split; [exact line_paren_never_closes|]. vm_compute. repeat split.
Qed.

Lemma line_machine_disagrees_with_scanner_witness :
  line_paren (lit "\(x\)") init_state = set_in_math true init_state.
Proof.
  apply (proj1 line_machine_disagrees_with_scanner init_state (lit "\(x\)")).
  reflexivity.
Defined.

(** C6.  A backslash before a dollar is only looked at in the
    single-dollar branch: in every state and before every text the three
    characters [\$$] toggle [in_double_dollar].  So the scanner is out of
    math after [$x$] and in double-dollar math after [\$$x$], the same
    document with an escaped dollar put in front. *)
Theorem escaped_dollar_joins_double_dollar :
  (forall st prev rest,
     scan_loop st prev 0 (lit "\$$" ++ rest)
     = scan_loop
         (if in_double_dollar st
          then set_in_math false (set_in_double_dollar false st)
          else set_in_math true (set_in_double_dollar true st))
         (Some DOLLAR) 0 rest)
  /\ is_in_math_mode (lit "$x$") 3 = false
  /\ is_in_math_mode (lit "\$" ++ lit "$x$") 5 = true
  /\ scan_state (lit "$x$") = MathState false false false []
  /\ scan_state (lit "\$" ++ lit "$x$") = MathState false false true []
  /\ scan_state (lit "\$$") = MathState true false true [].
Proof.
  split; [exact scan_escaped_dollar_dollar|]. vm_compute. repeat split.
Qed.

(** C9.  In text mode the end comment is appended to the content with
    nothing in between: the lines of the result are the begin comment, the
    lines of the content but the last, and the last line of the content
    continued by the end comment.  When the content does not end with a
    newline, as [x = 1], the end comment is not on a line of its own. *)
Theorem end_comment_joins_last_line :
  (forall content filename,
     NEWLINE ∉ filename ->
     split_nl (add_inclusion_comments content filename false)
     = [lit "% --- Begin included file: " ++ filename ++ lit " ---"]
       ++ removelast (split_nl content)
       ++ [last_line (split_nl content)
           ++ lit "% --- End included file: " ++ filename ++ lit " ---"]
       ++ [[]])
  /\ add_inclusion_comments (lit "x = 1") (lit "sub.tex") false
     = lit "% --- Begin included file: sub.tex ---" ++ nl
       ++ lit "x = 1% --- End included file: sub.tex ---" ++ nl
  /\ split_nl (add_inclusion_comments (lit "x = 1") (lit "sub.tex") false)
     = [ lit "% --- Begin included file: sub.tex ---";
         lit "x = 1% --- End included file: sub.tex ---";
         [] ].
Proof.
  split; [exact add_inclusion_comments_lines|]. vm_compute. repeat split.
Qed.

Lemma end_comment_joins_last_line_witness :
  split_nl (add_inclusion_comments (lit "x = 1") (lit "sub.tex") false)
  = [lit "% --- Begin included file: " ++ lit "sub.tex" ++ lit " ---"]
    ++ removelast (split_nl (lit "x = 1"))
    ++ [last_line (split_nl (lit "x = 1"))
        ++ lit "% --- End included file: " ++ lit "sub.tex" ++ lit " ---"]
    ++ [[]].
Proof.
  apply (proj1 end_comment_joins_last_line (lit "x = 1") (lit "sub.tex")).
  apply no_newline_check. reflexivity.
Defined.

(** The end-to-end case of the specification, the included file ending
    with a newline. *)
Lemma end_to_end_text_mode :
  Posix.written Examples.root_and_sub "main.tex"
  = Some (lit "% --- Begin included file: sub.tex ---" ++ nl
          ++ lit "x = 1" ++ nl
          ++ lit "% --- End included file: sub.tex ---" ++ nl)
  /\ inlined_paths (Posix.printed Examples.root_and_sub "main.tex")
     = [Posix.parse (lit "sub.tex")].
Proof. vm_compute. repeat split. Qed.

(** C3 as stated fails on the flag: after [$$\[x\]] the [in_math] flag is
    false although the [$$] region is open. *)
Lemma display_close_clears_in_math :
  ~ (forall pre : str,
       in_display_math (scan_state pre) = true ->
       in_math (scan_state (pre ++ lit "\]")) = false ->
       math_env_stack (scan_state pre) = []
       /\ in_double_dollar (scan_state pre) = false).
Proof.
  intros H. specialize (H (lit "$$\[x") eq_refl eq_refl).
  destruct H as [_ H]. vm_compute in H. discriminate.
Qed.

Lemma display_close_keeps_outer_math_witness :
  in_display_math (scan_state (lit "$$\[x")) = true
  /\ is_in_math_mode (lit "$$\[x" ++ lit "\]" ++ lit " y") 7 = true.
Proof.
  split; [reflexivity|].
  apply (display_close_keeps_outer_math (lit "$$\[x") (lit " y"));
    [reflexivity|left; reflexivity].
Defined.

(** C2 as stated fails on its last clause.  [Examples.verse] has no math
    region: its only backslash before a bracket is the second one of the
    line break [\\].  The line-level machine takes it for the opening of
    display math, and the blank line between the second and the third
    line, outside any math region, is removed. *)
Lemma blank_line_outside_math_removed :
  tex_math_free 0 Examples.verse = true
  /\ split_nl Examples.verse
     = [lit "one \\[1ex]"; lit "two"; []; lit "three"]
  /\ split_nl (remove_blank_lines_in_math Examples.verse)
     = [lit "one \\[1ex]"; lit "two"; lit "three"]
  /\ remove_blank_lines_in_math Examples.verse <> Examples.verse.
Proof. vm_compute. repeat split. discriminate. Qed.

(** C5 as stated fails when a cycle returns to a file under another path:
    [a.tex] includes [sub/b.tex], which includes [../a]; the main file is
    inlined again as [sub/../a.tex], and again, until the ceiling; no
    circular-inclusion comment is written. *)
Lemma cycle_through_dotdot_has_no_marker :
  exists out,
    Posix.written Examples.dotdot_cycle "a.tex" = Some out
    /\ circular_markers out = 0%Z
    /\ circular_markers out <> 1%Z
    /\ Posix.walk Examples.dotdot_cycle
         <$> inlined_paths (Posix.printed Examples.dotdot_cycle "a.tex")
       = (Posix.Reached ∘ Posix.parse ∘ lit)
         <$> [ "sub/b.tex"; "a.tex"; "sub/b.tex"; "a.tex"; "sub/b.tex";
               "a.tex"; "sub/b.tex"; "a.tex"; "sub/b.tex"; "a.tex";
               "sub/b.tex" ]%string.
Proof. eexists. vm_compute. repeat split. discriminate. Qed.

(** The cycle of [Examples.two_cycle]: [a.tex] includes [b.tex], which
    includes [a.tex]; one marker, in [b.tex], in place of the directive
    that comes back. *)
Lemma resolve_terminates_marks_visited_witness :
  let FS := Posix.fs Examples.two_cycle in
  let self := Examples.started Examples.two_cycle "a.tex" in
  let a := Posix.parse (lit "a.tex") in
  let b := Posix.parse (lit "b.tex") in
  let la := Level _ a (lit "A ") (Examples.input_match "b") (lit " B") in
  let lb := Level _ b (lit "<") (Examples.input_match "a") (lit ">") in
  resolve_input_commands 2 (lit "A \input{b} B") [] self
  = Some (Done (chain_output [la; lb])
            (Inliner _ (main_file self) (output_file self)
               (list_to_set (level_path <$> [lb]) ∪ processed_files self)
               (current_depth self)
               (stdout self ++ chain_inlinings [la; lb]
                  ++ [WarnCircular a]))).
Proof.
  intros FS self a b la lb.
  apply (proj2 (proj2 (proj2 (resolve_terminates_marks_visited (FS := FS))))
           la [lb] 2 [] self a).
  - split; [|split; [|split; [|split]]].
    + split; [|split; reflexivity].
      intros i Hi. do 2 (destruct i as [|i]; [reflexivity|]).
      vm_compute in Hi. lia.
    + vm_compute. reflexivity.
    + apply (bool_decide_unpack _). vm_compute. exact I.
    + exists (lit "<\input{a}>"). split; vm_compute; reflexivity.
    + split; [|split].
      * split; [|split; reflexivity].
        intros i Hi. destruct i as [|i]; [reflexivity|].
        vm_compute in Hi. lia.
      * vm_compute. reflexivity.
      * apply (bool_decide_unpack _). vm_compute. exact I.
  - vm_compute. lia.
  - vm_compute. lia.
Defined.

(** What the chain of the two files is. *)
Lemma two_cycle_run :
  Posix.written Examples.two_cycle "a.tex"
  = Some (lit "A % --- Begin included file: b.tex ---" ++ nl
          ++ lit "<" ++ nl
          ++ lit "% Circular include prevented: \input{a}" ++ nl
          ++ lit ">% --- End included file: b.tex ---" ++ nl
          ++ lit " B")
  /\ (exists out,
        Posix.written Examples.two_cycle "a.tex" = Some out
        /\ circular_markers out = 1%Z)
  /\ (exists out,
        Posix.written Examples.self_include "main.tex" = Some out
        /\ circular_markers out = 1%Z).
Proof.
  split; [vm_compute; reflexivity|].
  split; eexists; vm_compute; split; reflexivity.
Qed.

(** C7 as stated fails on a document without math whose first paragraph
    ends in a line break with a length: [Examples.table_row] has no
    directive and no math region, the blank line after its first line is
    removed, and the run writes the two paragraphs as one. *)
Lemma line_break_with_length_loses_paragraph :
  has_directive Examples.table_row = false
  /\ tex_math_free 0 Examples.table_row = true
  /\ remove_blank_lines_in_math Examples.table_row
     = lit "a & b \\[2pt]" ++ nl ++ lit "text"
  /\ remove_blank_lines_in_math Examples.table_row <> Examples.table_row
  /\ Posix.written Examples.table "main.tex"
     = Some (lit "a & b \\[2pt]" ++ nl ++ lit "text")
  /\ Posix.written Examples.table "main.tex" <> Some Examples.table_row.
Proof. vm_compute. repeat split; discriminate. Qed.

(** A document with an escaped dollar, an environment that is not math and
    a blank line is written as it is. *)
Lemma directive_and_math_free_identity_witness :
  exists self',
    inline_latex (FS := Posix.fs Examples.plain_text) 1
      (fresh (FS := Posix.fs Examples.plain_text)
         (Posix.parse (lit "main.tex")) (Posix.parse (lit "out.tex")))
    = Some (Done (Written
                    (lit "Price: \$5" ++ nl ++ nl ++ lit "\begin{itemize}"
                     ++ nl ++ lit "\item one" ++ nl ++ lit "\end{itemize}"
                     ++ nl))
              self').
Proof.
  apply (proj2 (proj2
           (directive_and_math_free_identity
              (FS := Posix.fs Examples.plain_text))));
    vm_compute; reflexivity.
Defined.

(** The directive of [Examples.too_long] with a name of 256 bytes: the
    run fails on it, and the directive after it is not looked at. *)
Lemma raising_exists_aborts_run_witness :
  let FS := Posix.fs Examples.too_long in
  let main := Posix.parse (lit "main.tex") in
  let self := fresh main (Posix.parse (lit "out.tex")) in
  let e :=
    Posix.name_too_long (Posix.parse (Examples.long_name ++ lit ".tex")) in
  inline_latex 1 self
  = Some (Done Failed
            (print (MsgError e)
               (set_depth 1
                  (add_processed main
                     (print (MsgStart main (Posix.parse (lit "out.tex")))
                        self))))).
Proof.
  intros FS main self e.
  apply (proj1 (proj2 (raising_exists_aborts_run (FS := FS)))
           0 [] (ReMatch (lit "\input{" ++ Examples.long_name ++ lit "}")
                   INPUT None Examples.long_name)
           (lit " \input{sub}") self e).
  - vm_compute. lia.
  - vm_compute. reflexivity.
  - vm_compute. reflexivity.
  - intros i Hi. inversion Hi.
  - vm_compute. reflexivity.
  - vm_compute. reflexivity.
Defined.

(** The same one level down: the handler of [\input{sub}] catches the
    exception, the rest of the main file is expanded, and the depth
    counter is left at one. *)
Lemma nested_exists_error_run :
  match Posix.run Examples.nested_too_long "main.tex" with
  | Some (Done (Written out) self) =>
      take 27 out = nl ++ lit "% Error including sub.tex:"
      /\ current_depth self = 1
      /\ inlined_paths (stdout self)
         = (Posix.parse ∘ lit) <$> [ "sub.tex"; "other.tex" ]%string
  | _ => False
  end.
Proof. vm_compute. repeat split. Qed.

(** The missing file of [Examples.failures]: the directive stays, and the
    scan goes on with the two directives after it. *)
Lemma directive_failures_are_isolated_witness :
  let FS := Posix.fs Examples.failures in
  let content := lit "\input{missing} \input{locked} \input{sub}" in
  let self := Examples.started Examples.failures "main.tex" in
  let repl := replace_command (resolve_input_commands 10) content [] in
  re_sub repl 0 0 content self
  = and_then
      (re_sub repl 0 15 (lit " \input{locked} \input{sub}")
         (print (WarnNotFound (lit "missing.tex")) self))
      (fun out self' => Some (Done (lit "\input{missing}" ++ out) self')).
Proof.
  intros FS content self repl.
  apply (proj1 (directive_failures_are_isolated (FS := FS)
                  (resolve_input_commands 10) content [] content
                  (Examples.input_match "missing") 0 self eq_refl)).
  vm_compute. reflexivity.
Defined.


(** The whole run on the diamond: [shared.tex] is inlined under the first
    parent and refused under the second. *)
Lemma diamond_run :
  Posix.written Examples.diamond "main.tex"
  = Some (lit "% --- Begin included file: left.tex ---" ++ nl
          ++ lit "L % --- Begin included file: shared.tex ---" ++ nl
          ++ lit "S" ++ nl
          ++ lit "% --- End included file: shared.tex ---" ++ nl
          ++ nl
          ++ lit "% --- End included file: left.tex ---" ++ nl
          ++ lit "% --- Begin included file: right.tex ---" ++ nl
          ++ lit "R " ++ nl
          ++ lit "% Circular include prevented: \input{shared}" ++ nl
          ++ nl
          ++ lit "% --- End included file: right.tex ---" ++ nl)
  /\ inlined_paths (Posix.printed Examples.diamond "main.tex")
     = (Posix.parse ∘ lit)
       <$> [ "left.tex"; "shared.tex"; "right.tex" ]%string.
Proof. vm_compute. repeat split. Qed.

(** The run on [Examples.failures]: both failures are reported in place
    and the last directive is expanded. *)
Lemma failures_run :
  Posix.written Examples.failures "main.tex"
  = Some (lit "\input{missing} " ++ nl
          ++ lit "% Error including locked.tex: Permission denied" ++ nl
          ++ lit "\input{locked}" ++ nl
          ++ lit " % --- Begin included file: sub.tex ---" ++ nl
          ++ lit "x = 1" ++ nl
          ++ lit "% --- End included file: sub.tex ---" ++ nl).
Proof. vm_compute. reflexivity. Qed.

(** * Further properties *)

(** ** The scanner on documents without math *)

Section ScannerQuiet.

Implicit Types (st : math_state) (s a b tl : str) (c : char).

Lemma scan_loop_cons st prev skip c tl :
  scan_loop st prev skip (c :: tl)
  = match skip with
    | S k => scan_loop st (Some c) k tl
    | O => let '(st', extra) := scan_char st prev c tl in
           scan_loop st' (Some c) extra tl
    end.
Proof. reflexivity. Qed.

Lemma startswith_cons x p c s :
  startswith (x :: p) (c :: s) = (x =? c)%N && startswith p s.
Proof. reflexivity. Qed.

(** One turn of the loop on a text that opens nothing keeps the initial
    state. *)
Lemma scan_char_quiet prev c tl :
  has_bare_dollar prev (c :: tl) = false ->
  contains (lit "\[") (c :: tl) = false ->
  contains (lit "\(") (c :: tl) = false ->
  has_math_begin (c :: tl) = false ->
  (scan_char init_state prev c tl).1 = init_state.
Proof.
  intros Hd Hb Hp He.
  rewrite has_bare_dollar_cons in Hd. apply orb_false_iff in Hd as [Hd1 Hd2].
  rewrite contains_cons in Hb, Hp.
  apply orb_false_iff in Hb as [Hb _]. apply orb_false_iff in Hp as [Hp _].
  rewrite has_math_begin_cons in He. apply orb_false_iff in He as [He _].
  change (lit "\[") with [BACKSLASH; LBRACKET] in Hb.
  change (lit "\(") with [BACKSLASH; LPAREN] in Hp.
  unfold scan_char.
  destruct (N.eqb_spec c BACKSLASH) as [->|Hc].
  - destruct tl as [|n tl]; [reflexivity|].
    rewrite !startswith_cons, N.eqb_refl in Hb, Hp. simpl in Hb, Hp.
    rewrite andb_true_r in Hb, Hp.
    rewrite (N.eqb_sym n LBRACKET), Hb, (N.eqb_sym n LPAREN), Hp.
    cbn -[startswith match_env BEGIN END N.eqb is_math_env].
    rewrite !andb_false_r.
    destruct (startswith BEGIN (BACKSLASH :: n :: tl)).
    + destruct (match_env BEGIN (BACKSLASH :: n :: tl)) as [[name k]|];
        [|reflexivity].
      rewrite He. reflexivity.
    + destruct (startswith END (BACKSLASH :: n :: tl)); [|reflexivity].
      destruct (match_env END (BACKSLASH :: n :: tl)) as [[name k]|];
        reflexivity.
  - destruct (N.eqb_spec c DOLLAR) as [->|Hc2]; [|reflexivity].
    simpl in Hd1.
    apply negb_false_iff in Hd1. rewrite Hd1.
    destruct tl as [|d tl]; [reflexivity|].
    rewrite has_bare_dollar_cons in Hd2.
    apply orb_false_iff in Hd2 as [Hd2 _].
    rewrite bool_decide_eq_false_2 in Hd2 by discriminate.
    simpl in Hd2. rewrite andb_true_r in Hd2. rewrite Hd2. reflexivity.
Qed.

Lemma scan_loop_quiet s : forall prev skip,
  has_bare_dollar prev s = false ->
  contains (lit "\[") s = false ->
  contains (lit "\(") s = false ->
  has_math_begin s = false ->
  scan_loop init_state prev skip s = init_state.
Proof.
  induction s as [|c s IH]; intros prev skip Hd Hb Hp He; [reflexivity|].
  pose proof (scan_char_quiet prev c s Hd Hb Hp He) as Hq.
  rewrite has_bare_dollar_cons in Hd. apply orb_false_iff in Hd as [_ Hd].
  rewrite contains_cons in Hb, Hp.
  apply orb_false_iff in Hb as [_ Hb]. apply orb_false_iff in Hp as [_ Hp].
  rewrite has_math_begin_cons in He. apply orb_false_iff in He as [_ He].
  rewrite scan_loop_cons. destruct skip as [|k]; [|apply IH; assumption].
  destruct (scan_char init_state prev c s) as [st' extra]. simpl in Hq.
  subst st'. apply IH; assumption.
Qed.

(** What a prefix has, the text has. *)
Lemma contains_app_true p a b :
  contains p a = true -> contains p (a ++ b) = true.
Proof.
  induction a as [|c a IH]; intros H.
  - simpl in H. rewrite orb_false_r in H.
    destruct p; [|discriminate]. destruct b; reflexivity.
  - change ((c :: a) ++ b) with (c :: (a ++ b)). rewrite contains_cons in *.
    apply orb_true_iff in H as [H|H].
    + apply (startswith_app_true _ _ b) in H. simpl in H. rewrite H.
      reflexivity.
    + rewrite IH by exact H. apply orb_true_r.
Qed.

Lemma has_bare_dollar_app_true a : forall prev b,
  has_bare_dollar prev a = true -> has_bare_dollar prev (a ++ b) = true.
Proof.
  induction a as [|c a IH]; intros prev b H; [discriminate|].
  change ((c :: a) ++ b) with (c :: (a ++ b)).
  rewrite has_bare_dollar_cons in *.
  apply orb_true_iff in H as [H|H]; [rewrite H; reflexivity|].
  rewrite IH by exact H. apply orb_true_r.
Qed.

Lemma has_math_begin_app_true a b :
  has_math_begin a = true -> has_math_begin (a ++ b) = true.
Proof.
  induction a as [|c a IH]; intros H; [discriminate|].
  change ((c :: a) ++ b) with (c :: (a ++ b)).
  rewrite has_math_begin_cons in *.
  apply orb_true_iff in H as [H|H].
  - destruct (match_env BEGIN (c :: a)) as [[name n]|] eqn:E; [|discriminate].
    apply (match_env_app_true _ _ b) in E. simpl in E. rewrite E, H.
    reflexivity.
  - rewrite IH by exact H. apply orb_true_r.
Qed.

Lemma math_free_take s p : math_free s = true -> math_free (take p s) = true.
Proof.
  unfold math_free. rewrite !andb_true_iff, !negb_true_iff.
  intros [[[Hd Hb] Hp] He].
  rewrite <- (take_drop p s) in Hd, Hb, Hp, He.
  repeat split.
  - destruct (has_bare_dollar None (take p s)) eqn:E; [|reflexivity].
    rewrite has_bare_dollar_app_true in Hd by exact E. discriminate.
  - destruct (contains (lit "\[") (take p s)) eqn:E; [|reflexivity].
    rewrite contains_app_true in Hb by exact E. discriminate.
  - destruct (contains (lit "\(") (take p s)) eqn:E; [|reflexivity].
    rewrite contains_app_true in Hp by exact E. discriminate.
  - destruct (has_math_begin (take p s)) eqn:E; [|reflexivity].
    rewrite has_math_begin_app_true in He by exact E. discriminate.
Qed.

End ScannerQuiet.

(** X1.  On a document in which no token opens a math region (no dollar
    sign other than [\$], no [\[], no [\(], no [\begin] of a recognised
    environment) the two scanners agree: [is_in_math_mode] is false at
    every position and the line-level machine is in its initial state after
    every line. *)
Theorem scanners_agree_without_math (text : str) (position k : nat) :
  math_free text = true ->
  is_in_math_mode text position = false
  /\ line_state_after (split_nl text) k = init_state
  /\ any_math_mode (line_state_after (split_nl text) k)
     = is_in_math_mode text position.
Proof.
  intros H.
  assert (is_in_math_mode text position = false) as E.
  { pose proof (math_free_take text position H) as Ht.
    unfold math_free in Ht. rewrite !andb_true_iff, !negb_true_iff in Ht.
    destruct Ht as [[[Hd Hb] Hp] He].
    unfold is_in_math_mode, scan_state.
    rewrite scan_loop_quiet by assumption. reflexivity. }
  pose proof (math_free_state text k H) as L.
  split; [exact E|]. split; [exact L|]. rewrite L, E. reflexivity.
Qed.

Lemma scanners_agree_without_math_witness :
  is_in_math_mode (lit "cost: \$5 \end{x} \]" ++ nl ++ lit "b") 9 = false.
Proof.
  apply (scanners_agree_without_math
           (lit "cost: \$5 \end{x} \]" ++ nl ++ lit "b") 9 0).
  reflexivity.
Defined.

(** ** The scanner on one math region *)

Section ScannerRegion.

Implicit Types (st : math_state) (s a b c r tl : str) (prev : option char).

Lemma plain_cons x s :
  plain (x :: s) = true -> x <> BACKSLASH /\ x <> DOLLAR /\ plain s = true.
Proof.
  unfold plain. simpl. rewrite !andb_true_iff, !negb_true_iff.
  intros [[H1 H2] H3]. apply N.eqb_neq in H1, H2. auto.
Qed.

Lemma plain_take s : forall k, plain s = true -> plain (take k s) = true.
Proof.
  induction s as [|x s IH]; intros k H; [destruct k; reflexivity|].
  destruct k as [|k]; [reflexivity|].
  unfold plain in *. simpl in *. apply andb_true_iff in H as [-> H].
  simpl. apply IH, H.
Qed.

Lemma plain_no_dollar_head s :
  plain s = true -> starts_with_dollar s = false.
Proof.
  destruct s as [|x s]; [reflexivity|]. intros H.
  apply plain_cons in H as (_ & H & _). simpl. apply N.eqb_neq, H.
Qed.

Lemma prev_after_cons prev x s :
  prev_after prev (x :: s) = prev_after (Some x) s.
Proof.
  unfold prev_after. rewrite last_cons. destruct (last s); reflexivity.
Qed.

Lemma prev_after_plain s : forall prev,
  plain s = true -> prev <> Some BACKSLASH ->
  prev_after prev s <> Some BACKSLASH.
Proof.
  induction s as [|x s IH]; intros prev H Hp; [exact Hp|].
  rewrite prev_after_cons. apply plain_cons in H as (Hx & _ & Hs).
  apply IH; [exact Hs|congruence].
Qed.

(** Plain text leaves the state as it is. *)
Lemma scan_loop_plain s : forall st prev r,
  plain s = true ->
  scan_loop st prev 0 (s ++ r) = scan_loop st (prev_after prev s) 0 r.
Proof.
  induction s as [|x s IH]; intros st prev r H; [reflexivity|].
  apply plain_cons in H as (Hb & Hd & Hs).
  change ((x :: s) ++ r) with (x :: (s ++ r)).
  rewrite scan_loop_cons, prev_after_cons. unfold scan_char.
  apply N.eqb_neq in Hb, Hd. rewrite Hb, Hd. apply IH, Hs.
Qed.

(** The characters of a token that a branch steps over. *)
Lemma scan_loop_skip s : forall st prev r,
  scan_loop st prev (length s) (s ++ r)
  = scan_loop st (prev_after prev s) 0 r.
Proof.
  induction s as [|x s IH]; intros st prev r; [reflexivity|].
  change ((x :: s) ++ r) with (x :: (s ++ r)).
  rewrite prev_after_cons. apply IH.
Qed.

Lemma scan_state_plain s : plain s = true -> scan_state s = init_state.
Proof.
  intros H. unfold scan_state. rewrite <- (app_nil_r s).
  rewrite scan_loop_plain by exact H. reflexivity.
Qed.

(** *** A region between an opening and a closing text *)

Section Pair.

Variables (o cl : str) (st_in : math_state) (F : str -> Prop).

Hypothesis o_last : forall prev, prev_after prev o <> Some BACKSLASH.
Hypothesis open_enters : forall prev r,
  prev <> Some BACKSLASH -> F r ->
  scan_loop init_state prev 0 (o ++ r)
  = scan_loop st_in (prev_after prev o) 0 r.
Hypothesis close_leaves : forall prev r,
  prev <> Some BACKSLASH -> starts_with_dollar r = false ->
  scan_loop st_in prev 0 (cl ++ r)
  = scan_loop init_state (prev_after prev cl) 0 r.
Hypothesis inside : any_math_mode st_in = true.

Lemma region_before a b c p :
  plain a = true -> p <= length a ->
  is_in_math_mode (a ++ o ++ b ++ cl ++ c) p = false.
Proof using Type.
  intros Ha Hp. unfold is_in_math_mode.
  rewrite take_app_le by exact Hp.
  rewrite scan_state_plain by (apply plain_take, Ha). reflexivity.
Qed.

Lemma region_inside a b c p :
  plain a = true -> plain b = true ->
  (forall k, F (take k b)) ->
  length a + length o <= p <= length a + length o + length b ->
  is_in_math_mode (a ++ o ++ b ++ cl ++ c) p = true.
Proof using o_last open_enters inside.
  intros Ha Hb HF Hp. unfold is_in_math_mode, scan_state.
  assert (take p (a ++ o ++ b ++ cl ++ c)
          = a ++ o ++ take (p - length a - length o) b ++ []) as ->.
  { rewrite take_app_ge by lia. f_equal.
    rewrite take_app_ge by lia. f_equal.
    rewrite take_app_le by lia. rewrite app_nil_r. reflexivity. }
  rewrite scan_loop_plain by exact Ha.
  rewrite app_nil_r.
  rewrite open_enters;
    [|apply prev_after_plain; [exact Ha|discriminate]|apply HF].
  rewrite <- (app_nil_r (take _ b)).
  rewrite scan_loop_plain by (apply plain_take, Hb). exact inside.
Qed.

Lemma region_after a b c p :
  plain a = true -> plain b = true -> plain c = true ->
  (forall r, F (b ++ cl ++ r)) ->
  (forall prev, prev_after prev cl <> Some BACKSLASH) ->
  length a + length o + length b + length cl <= p ->
  is_in_math_mode (a ++ o ++ b ++ cl ++ c) p = false.
Proof using o_last open_enters close_leaves.
  intros Ha Hb Hc HF Hcl Hp. unfold is_in_math_mode, scan_state.
  assert (take p (a ++ o ++ b ++ cl ++ c)
          = a ++ o ++ b ++ cl
            ++ take (p - length a - length o - length b - length cl) c
            ++ []) as ->.
  { rewrite take_app_ge by lia. f_equal.
    rewrite take_app_ge by lia. f_equal.
    rewrite take_app_ge by lia. f_equal.
    rewrite take_app_ge by lia. f_equal.
    rewrite app_nil_r. reflexivity. }
  rewrite scan_loop_plain by exact Ha.
  rewrite open_enters;
    [|apply prev_after_plain; [exact Ha|discriminate]|apply HF].
  rewrite scan_loop_plain by exact Hb.
  rewrite close_leaves.
  - rewrite scan_loop_plain by (apply plain_take, Hc). reflexivity.
  - apply prev_after_plain; [exact Hb|apply o_last].
  - rewrite app_nil_r. apply plain_no_dollar_head, plain_take, Hc.
Qed.

End Pair.

(** *** The opening and closing texts *)

Lemma scan_dollar st prev r :
  prev <> Some BACKSLASH -> starts_with_dollar r = false ->
  scan_loop st prev 0 (lit "$" ++ r)
  = scan_loop (set_in_math (negb (in_math st)) st)
      (prev_after prev (lit "$")) 0 r.
Proof.
  intros Hp Hr. change (lit "$" ++ r) with (DOLLAR :: r).
  rewrite scan_loop_cons. unfold scan_char.
  change ((DOLLAR =? BACKSLASH)%N) with false.
  change ((DOLLAR =? DOLLAR)%N) with true. cbv iota.
  rewrite bool_decide_eq_false_2 by exact Hp.
  destruct r as [|d r]; [reflexivity|]. simpl in Hr. rewrite Hr.
  reflexivity.
Qed.

Lemma until_rbrace_name e r :
  RBRACE ∉ e -> until_rbrace (e ++ RBRACE :: r) = e.
Proof.
  induction e as [|x e IH]; intros H.
  - change ([] ++ RBRACE :: r) with (RBRACE :: r).
    rewrite until_rbrace_cons, N.eqb_refl. reflexivity.
  - change ((x :: e) ++ RBRACE :: r) with (x :: (e ++ RBRACE :: r)).
    rewrite until_rbrace_cons.
    destruct (N.eqb_spec x RBRACE) as [->|_]; [exfalso; apply H; left|].
    rewrite IH; [reflexivity|]. intros Hin. apply H. right. exact Hin.
Qed.

Lemma strip_prefix_same p r : strip_prefix p (p ++ r) = Some r.
Proof.
  induction p as [|x p IH]; [destruct r; reflexivity|].
  simpl. rewrite N.eqb_refl. exact IH.
Qed.

Lemma startswith_same p r : startswith p (p ++ r) = true.
Proof.
  induction p as [|x p IH]; [destruct r; reflexivity|].
  simpl. rewrite N.eqb_refl. exact IH.
Qed.

(** The pattern on [kw{name}]. *)
Lemma match_env_name kw e r :
  e <> [] -> RBRACE ∉ e ->
  match_env kw (kw ++ [LBRACE] ++ e ++ [RBRACE] ++ r)
  = Some (e, length (kw ++ [LBRACE] ++ e ++ [RBRACE])).
Proof.
  intros He Hr. unfold match_env. rewrite strip_prefix_same.
  change ([LBRACE] ++ e ++ [RBRACE] ++ r) with (LBRACE :: (e ++ RBRACE :: r)).
  unfold match_braced. rewrite N.eqb_refl. cbv zeta.
  rewrite until_rbrace_name by exact Hr.
  destruct e as [|x e]; [contradiction|]. cbv iota.
  rewrite (drop_app_length (x :: e)).
  f_equal. f_equal. rewrite !length_app. simpl. lia.
Qed.

(** The branches of [scan_char] for [\begin] and [\end]. *)
Lemma scan_char_begin st prev tl :
  startswith BEGIN (BACKSLASH :: tl) = true ->
  scan_char st prev BACKSLASH tl
  = match match_env BEGIN (BACKSLASH :: tl) with
    | Some (env_name, n) =>
        (if is_math_env env_name
         then push_env env_name (set_in_math true st) else st, n - 1)
    | None => (st, 0)
    end.
Proof.
  intros H. destruct tl as [|n tl]; [discriminate|].
  assert (n = 98%N) as ->.
  { change BEGIN with (BACKSLASH :: 98%N :: lit "egin") in H.
    rewrite !startswith_cons in H.
    apply andb_true_iff in H as [_ H]. apply andb_true_iff in H as [H _].
    apply N.eqb_eq in H. congruence. }
  unfold scan_char. rewrite H. reflexivity.
Qed.

Lemma scan_char_end st prev tl :
  startswith END (BACKSLASH :: tl) = true ->
  scan_char st prev BACKSLASH tl
  = match match_env END (BACKSLASH :: tl) with
    | Some (env_name, n) =>
        (if stack_nonempty st && is_math_env env_name then
           let st' := pop_env st in
           if negb (stack_nonempty st') && negb (in_display_math st')
              && negb (in_double_dollar st')
           then set_in_math false st' else st'
         else st, n - 1)
    | None => (st, 0)
    end.
Proof.
  intros H. destruct tl as [|n tl]; [discriminate|].
  assert (n = 101%N) as ->.
  { change END with (BACKSLASH :: 101%N :: lit "nd") in H.
    rewrite !startswith_cons in H.
    apply andb_true_iff in H as [_ H]. apply andb_true_iff in H as [H _].
    apply N.eqb_eq in H. congruence. }
  unfold scan_char. rewrite H. reflexivity.
Qed.

Lemma keyword_token kw e r :
  (kw ++ [LBRACE] ++ e ++ [RBRACE]) ++ r
  = kw ++ [LBRACE] ++ e ++ [RBRACE] ++ r.
Proof. rewrite <- !app_assoc. reflexivity. Qed.

Lemma scan_begin_env st prev e r :
  e <> [] -> RBRACE ∉ e -> is_math_env e = true ->
  scan_loop st prev 0 (begin_env e ++ r)
  = scan_loop (push_env e (set_in_math true st))
      (prev_after prev (begin_env e)) 0 r.
Proof.
  intros He Hr Hm.
  pose proof (match_env_name BEGIN e r He Hr) as E.
  pose proof (startswith_same BEGIN ([LBRACE] ++ e ++ [RBRACE] ++ r)) as Es.
  unfold begin_env. rewrite (keyword_token BEGIN).
  set (tok' := lit "begin" ++ [LBRACE] ++ e ++ [RBRACE]).
  change (BEGIN ++ [LBRACE] ++ e ++ [RBRACE] ++ r)
    with (BACKSLASH :: (lit "begin" ++ [LBRACE] ++ e ++ [RBRACE] ++ r))
    in *.
  change (BEGIN ++ [LBRACE] ++ e ++ [RBRACE]) with (BACKSLASH :: tok') in *.
  rewrite scan_loop_cons, scan_char_begin by exact Es.
  rewrite E, Hm, prev_after_cons.
  replace (lit "begin" ++ [LBRACE] ++ e ++ [RBRACE] ++ r) with (tok' ++ r)
    by (subst tok'; rewrite <- !app_assoc; reflexivity).
  replace (length (BACKSLASH :: tok') - 1) with (length tok')
    by (simpl; lia).
  apply scan_loop_skip.
Qed.

Lemma scan_end_env st prev e r :
  e <> [] -> RBRACE ∉ e -> is_math_env e = true ->
  in_display_math st = false -> in_double_dollar st = false ->
  math_env_stack st = [e] ->
  scan_loop st prev 0 (end_env e ++ r)
  = scan_loop (set_in_math false (pop_env st))
      (prev_after prev (end_env e)) 0 r.
Proof.
  intros He Hr Hm Hd Hdd Hs.
  pose proof (match_env_name END e r He Hr) as E.
  pose proof (startswith_same END ([LBRACE] ++ e ++ [RBRACE] ++ r)) as Es.
  unfold end_env. rewrite (keyword_token END).
  set (tok' := lit "end" ++ [LBRACE] ++ e ++ [RBRACE]).
  change (END ++ [LBRACE] ++ e ++ [RBRACE] ++ r)
    with (BACKSLASH :: (lit "end" ++ [LBRACE] ++ e ++ [RBRACE] ++ r)) in *.
  change (END ++ [LBRACE] ++ e ++ [RBRACE]) with (BACKSLASH :: tok') in *.
  rewrite scan_loop_cons, scan_char_end by exact Es.
  rewrite E, Hm, prev_after_cons.
  assert (stack_nonempty st = true) as ->
    by (unfold stack_nonempty; rewrite Hs; reflexivity).
  cbn [andb]. cbv zeta.
  assert (stack_nonempty (pop_env st) = false) as ->
    by (unfold stack_nonempty, pop_env; simpl; rewrite Hs; reflexivity).
  change (in_display_math (pop_env st)) with (in_display_math st).
  change (in_double_dollar (pop_env st)) with (in_double_dollar st).
  rewrite Hd, Hdd. cbn [andb negb].
  replace (lit "end" ++ [LBRACE] ++ e ++ [RBRACE] ++ r) with (tok' ++ r)
    by (subst tok'; rewrite <- !app_assoc; reflexivity).
  replace (length (BACKSLASH :: tok') - 1) with (length tok')
    by (simpl; lia).
  apply scan_loop_skip.
Qed.

Lemma math_environments_names e :
  e ∈ math_environments ->
  e <> [] /\ (RBRACE ∉ e) /\ is_math_env e = true.
Proof.
  intros H.
  assert (forallb (fun e => negb (is_empty e)
                            && forallb (fun ch : char => negb (ch =? RBRACE)%N) e)
            math_environments = true) as Hall by (vm_compute; reflexivity).
  rewrite forallb_forall in Hall. apply list_elem_of_In in H as Hin.
  apply Hall in Hin. apply andb_true_iff in Hin as [Hne Hrb].
  split; [destruct e; [discriminate|discriminate]|]. split.
  - intros Hr. rewrite forallb_forall in Hrb.
    apply list_elem_of_In, Hrb in Hr. rewrite N.eqb_refl in Hr. discriminate.
  - unfold is_math_env. apply bool_decide_eq_true_2, H.
Qed.

Lemma prev_after_env prev kw e :
  prev_after prev (kw ++ [LBRACE] ++ e ++ [RBRACE]) <> Some BACKSLASH.
Proof.
  unfold prev_after. rewrite !app_assoc, last_snoc. discriminate.
Qed.

End ScannerRegion.

(** X2.  Around one math region the scanner is right.  In a document made
    of plain text, an opening delimiter, plain text, the matching closing
    delimiter and plain text, for any of [$ $], [$$ $$], [\[ \]], [\( \)]
    and [\begin{e} \end{e}] with [e] a recognised environment,
    [is_in_math_mode] is false up to the opening delimiter, true from just
    after it up to the closing delimiter, and false from just after the
    closing delimiter on.  (Between single dollars the text must not be
    empty: [$$] is the double dollar.) *)
Theorem scanner_single_region (o cl a b c : str) (p : nat) :
  (o, cl) ∈ region_delimiters ->
  plain a = true -> plain b = true -> plain c = true ->
  (o = lit "$" -> b <> []) ->
  (p <= length a -> is_in_math_mode (a ++ o ++ b ++ cl ++ c) p = false)
  /\ (length a + length o <= p <= length a + length o + length b ->
      is_in_math_mode (a ++ o ++ b ++ cl ++ c) p = true)
  /\ (length a + length o + length b + length cl <= p ->
      is_in_math_mode (a ++ o ++ b ++ cl ++ c) p = false).
Proof.
  intros Hin Ha Hb Hc Hne.
  split; [intros Hp; apply region_before; assumption|].
  unfold region_delimiters in Hin. apply elem_of_app in Hin as [Hin|Hin].
  - repeat (apply elem_of_cons in Hin as [Hin|Hin]); [| | | |inversion Hin];
      injection Hin as -> ->.
    + (* single dollars *)
      assert (forall r, starts_with_dollar (b ++ lit "$" ++ r) = false) as HF.
      { intros r. destruct b as [|x b']; [exfalso; apply Hne; reflexivity|].
        apply plain_cons in Hb as (_ & Hx & _). simpl.
        apply N.eqb_neq, Hx. }
      split; intros Hp.
      * apply (region_inside (lit "$") (lit "$") (set_in_math true init_state)
                 (fun r => starts_with_dollar r = false));
          [discriminate| |reflexivity|exact Ha|exact Hb| |exact Hp].
        -- intros prev r H1 H2. apply (scan_dollar init_state); assumption.
        -- intros k. apply plain_no_dollar_head, plain_take, Hb.
      * apply (region_after (lit "$") (lit "$") (set_in_math true init_state)
                 (fun r => starts_with_dollar r = false));
          [discriminate| | |exact Ha|exact Hb|exact Hc|exact HF|discriminate
          |exact Hp].
        -- intros prev r H1 H2. apply (scan_dollar init_state); assumption.
        -- intros prev r H1 H2.
           apply (scan_dollar (set_in_math true init_state)); assumption.
    + (* double dollars *)
      split; intros Hp.
      * apply (region_inside (lit "$$") (lit "$$")
                 (set_in_math true (set_in_double_dollar true init_state))
                 (fun _ => True));
          [discriminate| |reflexivity|exact Ha|exact Hb|auto|exact Hp].
        intros prev r _ _. reflexivity.
      * apply (region_after (lit "$$") (lit "$$")
                 (set_in_math true (set_in_double_dollar true init_state))
                 (fun _ => True));
          [discriminate| | |exact Ha|exact Hb|exact Hc|auto|discriminate
          |exact Hp].
        -- intros prev r _ _. reflexivity.
        -- intros prev r _ _. reflexivity.
    + (* display brackets *)
      split; intros Hp.
      * apply (region_inside (lit "\[") (lit "\]")
                 (set_in_math true (set_in_display_math true init_state))
                 (fun _ => True));
          [discriminate| |reflexivity|exact Ha|exact Hb|auto|exact Hp].
        intros prev r _ _. reflexivity.
      * apply (region_after (lit "\[") (lit "\]")
                 (set_in_math true (set_in_display_math true init_state))
                 (fun _ => True));
          [discriminate| | |exact Ha|exact Hb|exact Hc|auto|discriminate
          |exact Hp].
        -- intros prev r _ _. reflexivity.
        -- intros prev r _ _. reflexivity.
    + (* parentheses *)
      split; intros Hp.
      * apply (region_inside (lit "\(") (lit "\)")
                 (set_in_math true init_state) (fun _ => True));
          [discriminate| |reflexivity|exact Ha|exact Hb|auto|exact Hp].
        intros prev r _ _. reflexivity.
      * apply (region_after (lit "\(") (lit "\)")
                 (set_in_math true init_state) (fun _ => True));
          [discriminate| | |exact Ha|exact Hb|exact Hc|auto|discriminate
          |exact Hp].
        -- intros prev r _ _. reflexivity.
        -- intros prev r _ _. reflexivity.
  - apply list_elem_of_fmap in Hin as (e & Heq & He).
    injection Heq as -> ->.
    destruct (math_environments_names e He) as (Hne' & Hrb & Hm).
    split; intros Hp.
    + apply (region_inside (begin_env e) (end_env e)
               (push_env e (set_in_math true init_state)) (fun _ => True));
        [intros prev; apply prev_after_env| |reflexivity|exact Ha|exact Hb
        |auto|exact Hp].
      intros prev r _ _. apply scan_begin_env; assumption.
    + apply (region_after (begin_env e) (end_env e)
               (push_env e (set_in_math true init_state)) (fun _ => True));
        [intros prev; apply prev_after_env| | |exact Ha|exact Hb|exact Hc
        |auto|intros prev; apply prev_after_env|exact Hp].
      * intros prev r _ _. apply scan_begin_env; assumption.
      * intros prev r _ _.
        apply (scan_end_env (push_env e (set_in_math true init_state)));
          auto.
Qed.

Lemma scanner_single_region_witness :
  is_in_math_mode
    (lit "see " ++ begin_env (lit "align") ++ lit "x = y" ++ end_env (lit "align")
     ++ lit " and") 20 = true.
Proof.
  apply (scanner_single_region (begin_env (lit "align"))
           (end_env (lit "align")) (lit "see ") (lit "x = y") (lit " and") 20).
  - apply elem_of_app. right.
    apply list_elem_of_fmap. exists (lit "align"). split; [reflexivity|].
    apply (bool_decide_eq_true_1 _ (eq_refl : is_math_env (lit "align") = true)).
  - reflexivity.
  - reflexivity.
  - reflexivity.
  - discriminate.
  - vm_compute. lia.
Defined.

(** ** The blank-line stripper, once more *)

Section StripperAgain.

Implicit Types (st : math_state) (line : str) (lines ks result : list str).

Lemma strip_loop_cons st line lines result :
  strip_loop st (line :: lines) result
  = if any_math_mode (line_step st line) && is_blank line
    then strip_loop (line_step st line) lines result
    else strip_loop (line_step st line) lines (result ++ [line]).
Proof. reflexivity. Qed.

(** The list being appended to is only ever appended to. *)
Lemma strip_loop_result lines : forall st result,
  strip_loop st lines result = result ++ strip_loop st lines [].
Proof.
  induction lines as [|line lines IH]; intros st result.
  - simpl. rewrite app_nil_r. reflexivity.
  - rewrite !strip_loop_cons.
    destruct (any_math_mode (line_step st line) && is_blank line).
    + apply IH.
    + rewrite (IH _ (result ++ [line])), (IH _ ([] ++ [line])).
      rewrite <- app_assoc. reflexivity.
Qed.

(** Stripping what has been stripped removes nothing more. *)
Lemma strip_loop_idempotent lines : forall st,
  strip_loop st (strip_loop st lines []) [] = strip_loop st lines [].
Proof.
  induction lines as [|line lines IH]; intros st; [reflexivity|].
  rewrite strip_loop_cons.
  destruct (any_math_mode (line_step st line) && is_blank line) eqn:E.
  - apply andb_true_iff in E as [_ E].
    rewrite (line_step_blank st line E). apply IH.
  - rewrite (strip_loop_result lines _ ([] ++ [line])).
    change (([] ++ [line]) ++ strip_loop (line_step st line) lines [])
      with (line :: strip_loop (line_step st line) lines []).
    rewrite strip_loop_cons, E.
    rewrite (strip_loop_result _ _ ([] ++ [line])), IH. reflexivity.
Qed.

(** In what is left every blank line stands where the running state is not
    a math state. *)
Lemma strip_loop_clean lines : forall st k1 line k2,
  strip_loop st lines [] = k1 ++ line :: k2 ->
  is_blank line = true ->
  any_math_mode (foldl line_step st (k1 ++ [line])) = false.
Proof.
  induction lines as [|l lines IH]; intros st k1 line k2 H Hb.
  - destruct k1; discriminate.
  - rewrite strip_loop_cons in H.
    destruct (any_math_mode (line_step st l) && is_blank l) eqn:E.
    + apply andb_true_iff in E as [_ E].
      rewrite (line_step_blank st l E) in H. eapply IH; eassumption.
    + rewrite (strip_loop_result lines _ ([] ++ [l])) in H.
      change (([] ++ [l]) ++ strip_loop (line_step st l) lines [])
        with (l :: strip_loop (line_step st l) lines []) in H.
      destruct k1 as [|x k1]; injection H as -> H.
      * simpl. rewrite Hb, andb_true_r in E. exact E.
      * simpl. eapply IH; eassumption.
Qed.

(** The first line is never removed. *)
Lemma strip_loop_first line lines :
  exists ks, strip_loop init_state (line :: lines) [] = line :: ks.
Proof.
  rewrite strip_loop_cons.
  destruct (any_math_mode (line_step init_state line) && is_blank line) eqn:E.
  - apply andb_true_iff in E as [E1 E2].
    rewrite (line_step_blank _ _ E2) in E1. discriminate.
  - rewrite strip_loop_result. eexists. reflexivity.
Qed.

(** *** Lines and texts *)

Lemma split_nl_lines s : Forall (fun l => NEWLINE ∉ l) (split_nl s).
Proof.
  induction s as [|c s IH].
  { simpl. constructor; [apply not_elem_of_nil|constructor]. }
  rewrite split_nl_cons.
  destruct (N.eqb_spec c NEWLINE) as [_|Hc].
  - constructor; [apply not_elem_of_nil|exact IH].
  - destruct (split_nl s) as [|l ls].
    { constructor; [|constructor]. intros Hin.
      apply list_elem_of_singleton in Hin. congruence. }
    apply Forall_cons in IH as [Hl Hls]. constructor; [|exact Hls].
    intros Hin. apply elem_of_cons in Hin as [E|Hin]; [congruence|auto].
Qed.

(** [('\n'.join(ls)).split('\n') == ls] for lines without newlines. *)
Lemma split_join_nl ls :
  ls <> [] -> Forall (fun l => NEWLINE ∉ l) ls -> split_nl (join_nl ls) = ls.
Proof.
  intros Hne H. induction H as [|l ls Hl Hls IH]; [contradiction|].
  destruct ls as [|l2 ls].
  - simpl. apply split_nl_one_line, Hl.
  - change (join_nl (l :: l2 :: ls)) with (l ++ nl ++ join_nl (l2 :: ls)).
    rewrite split_nl_line by exact Hl. rewrite IH by discriminate.
    reflexivity.
Qed.

Lemma sublist_Forall {A} (P : A -> Prop) (k l : list A) :
  k `sublist_of` l -> Forall P l -> Forall P k.
Proof.
  intros Hs H. rewrite Forall_forall in *. intros x Hx. apply H.
  eapply elem_of_sublist; eassumption.
Qed.

(** The lines of the result are what the loop leaves. *)
Lemma remove_blank_lines_lines (content : str) :
  split_nl (remove_blank_lines_in_math content)
  = strip_loop init_state (split_nl content) [].
Proof.
  unfold remove_blank_lines_in_math. apply split_join_nl.
  - pose proof (split_nl_nonempty content) as Hne.
    destruct (split_nl content) as [|l ls]; [contradiction|].
    destruct (strip_loop_first l ls) as [ks ->]. discriminate.
  - destruct (strip_loop_app (split_nl content) init_state [])
      as (ks & -> & Hs & _).
    simpl. eapply sublist_Forall; [exact Hs|apply split_nl_lines].
Qed.

End StripperAgain.

(** X3.  Stripping is idempotent: what [remove_blank_lines_in_math]
    returns, it returns unchanged. *)
Theorem remove_blank_lines_idempotent (content : str) :
  remove_blank_lines_in_math (remove_blank_lines_in_math content)
  = remove_blank_lines_in_math content.
Proof.
  unfold remove_blank_lines_in_math at 1.
  rewrite remove_blank_lines_lines, strip_loop_idempotent. reflexivity.
Qed.

(** X4.  After stripping, no blank line is left where the line-level
    machine is in a math state. *)
Theorem remove_blank_lines_leaves_none (content : str) (i : nat) line :
  split_nl (remove_blank_lines_in_math content) !! i = Some line ->
  is_blank line = true ->
  any_math_mode
    (line_state_after (split_nl (remove_blank_lines_in_math content)) (S i))
  = false.
Proof.
  rewrite remove_blank_lines_lines. intros Hi Hb.
  set (ks := strip_loop init_state (split_nl content) []) in *.
  pose proof (take_drop_middle ks i line Hi) as E.
  unfold line_state_after.
  rewrite (take_S_r ks i line Hi).
  apply (strip_loop_clean (split_nl content) init_state (take i ks) line
           (drop (S i) ks)); [|exact Hb].
  symmetry. exact E.
Qed.

Lemma remove_blank_lines_leaves_none_witness :
  any_math_mode
    (line_state_after
       (split_nl (remove_blank_lines_in_math
                    (lit "a" ++ nl ++ nl ++ lit "$$" ++ nl ++ nl ++ lit "x")))
       2) = false.
Proof.
  apply (remove_blank_lines_leaves_none
           (lit "a" ++ nl ++ nl ++ lit "$$" ++ nl ++ nl ++ lit "x") 1 []);
    reflexivity.
Defined.

(** ** Blocks of math between plain lines *)

Section Absent.

Variables (x : char) (p : str).

(** No text that starts with [x] is found where [x] does not occur. *)
Lemma startswith_absent s : x ∉ s -> startswith (x :: p) s = false.
Proof.
  intros H. destruct s as [|c s]; [reflexivity|]. simpl.
  destruct (N.eqb_spec x c) as [<-|]; [|reflexivity].
  exfalso. apply H. left.
Qed.

Lemma contains_absent s : x ∉ s -> contains (x :: p) s = false.
Proof.
  induction s as [|c s IH]; intros H; [reflexivity|].
  rewrite contains_cons, startswith_absent by exact H.
  apply IH. intros Hin. apply H. right. exact Hin.
Qed.

Lemma count_from_absent s : forall k, x ∉ s -> count_from k (x :: p) s = 0%Z.
Proof.
  induction s as [|c s IH]; intros k H; [reflexivity|].
  assert (x ∉ s) as Hs by (intros Hin; apply H; right; exact Hin).
  rewrite count_from_cons. destruct k; [|apply IH, Hs].
  rewrite startswith_absent by exact H. apply IH, Hs.
Qed.

Lemma match_env_absent s : x ∉ s -> match_env (x :: p) s = None.
Proof.
  intros H. unfold match_env. destruct s as [|c s]; [reflexivity|]. simpl.
  destruct (N.eqb_spec x c) as [<-|]; [|reflexivity].
  exfalso. apply H. left.
Qed.

Lemma finditer_env_absent s : forall k,
  x ∉ s -> finditer_env (x :: p) k s = [].
Proof.
  induction s as [|c s IH]; intros k H; [reflexivity|].
  assert (x ∉ s) as Hs by (intros Hin; apply H; right; exact Hin).
  rewrite finditer_env_cons. destruct k; [|apply IH, Hs].
  rewrite match_env_absent by exact H. apply IH, Hs.
Qed.

End Absent.

Section Blocks.

Implicit Types (st : math_state) (line : str) (lines a body c : list str).

Lemma plain_line_spec line :
  plain_line line = true ->
  (BACKSLASH ∉ line) /\ (DOLLAR ∉ line) /\ (NEWLINE ∉ line).
Proof.
  unfold plain_line. rewrite forallb_forall. intros H.
  repeat split; intros Hin; apply list_elem_of_In, H in Hin;
    rewrite !andb_true_iff, !negb_true_iff in Hin;
    destruct Hin as [[H1 H2] H3]; rewrite N.eqb_refl in *; discriminate.
Qed.

(** A line without a backslash and without a dollar sign leaves the
    running state as it is. *)
Lemma line_step_plain st line :
  BACKSLASH ∉ line -> DOLLAR ∉ line -> line_step st line = st.
Proof.
  intros Hb Hd.
  assert (forall q, contains (BACKSLASH :: q) line = false) as Hcb
    by (intros q; apply contains_absent, Hb).
  assert (forall q k, count_from k (BACKSLASH :: q) line = 0%Z) as Hnb
    by (intros q k; apply count_from_absent, Hb).
  assert (forall q k, count_from k (DOLLAR :: q) line = 0%Z) as Hnd
    by (intros q k; apply count_from_absent, Hd).
  assert (forall q k, finditer_env (BACKSLASH :: q) k line = []) as Hf
    by (intros q k; apply finditer_env_absent, Hb).
  unfold line_step.
  assert (line_open_display line st = st) as ->.
  { unfold line_open_display. change (lit "\[") with [BACKSLASH; LBRACKET].
    rewrite Hcb. reflexivity. }
  assert (line_close_display line st = st) as ->.
  { unfold line_close_display. change (lit "\]") with [BACKSLASH; RBRACKET].
    rewrite Hcb. reflexivity. }
  assert (line_double_dollar line st = st) as ->.
  { unfold line_double_dollar, count.
    change (lit "$$") with [DOLLAR; DOLLAR].
    change (lit "\$\$") with [BACKSLASH; DOLLAR; BACKSLASH; DOLLAR].
    rewrite Hnb, Hnd. reflexivity. }
  assert (line_single_dollar line st = st) as ->.
  { unfold line_single_dollar, count.
    change (lit "$$") with [DOLLAR; DOLLAR].
    change (lit "$") with [DOLLAR].
    change (lit "\$") with [BACKSLASH; DOLLAR].
    rewrite Hnb, !Hnd. reflexivity. }
  assert (line_paren line st = st) as ->.
  { unfold line_paren. change (lit "\(") with [BACKSLASH; LPAREN].
    change (lit "\\)") with [BACKSLASH; BACKSLASH; RPAREN].
    rewrite !Hcb. reflexivity. }
  change BEGIN with (BACKSLASH :: lit "begin").
  change END with (BACKSLASH :: lit "end").
  rewrite !Hf. reflexivity.
Qed.

(** Plain lines outside math are all kept. *)
Lemma strip_loop_plain_outside a : forall st rest,
  Forall (fun l => plain_line l = true) a ->
  any_math_mode st = false ->
  strip_loop st (a ++ rest) [] = a ++ strip_loop st rest [].
Proof.
  induction a as [|l a IH]; intros st rest H Hst; [reflexivity|].
  apply Forall_cons in H as [Hl Ha].
  apply plain_line_spec in Hl as (Hb & Hd & _).
  change ((l :: a) ++ rest) with (l :: (a ++ rest)).
  rewrite strip_loop_cons, (line_step_plain st l Hb Hd), Hst.
  cbn [andb]. rewrite strip_loop_result, IH by assumption. reflexivity.
Qed.

(** Plain lines inside math: the blank ones go. *)
Lemma strip_loop_plain_inside body : forall st rest,
  Forall (fun l => plain_line l = true) body ->
  any_math_mode st = true ->
  strip_loop st (body ++ rest) []
  = List.filter (fun l => negb (is_blank l)) body ++ strip_loop st rest [].
Proof.
  induction body as [|l body IH]; intros st rest H Hst; [reflexivity|].
  apply Forall_cons in H as [Hl Hbody].
  apply plain_line_spec in Hl as (Hb & Hd & _).
  change ((l :: body) ++ rest) with (l :: (body ++ rest)).
  rewrite strip_loop_cons, (line_step_plain st l Hb Hd), Hst.
  cbn [andb List.filter]. destruct (is_blank l); cbn [negb].
  - apply IH; assumption.
  - rewrite strip_loop_result, IH by assumption. reflexivity.
Qed.

Section Pair.

Variables (o cl : str) (st_in : math_state).
Hypothesis open_enters : line_step init_state o = st_in.
Hypothesis inside : any_math_mode st_in = true.
Hypothesis close_leaves : line_step st_in cl = init_state.
Hypothesis o_not_blank : is_blank o = false.

Lemma strip_loop_block a body c :
  Forall (fun l => plain_line l = true) a ->
  Forall (fun l => plain_line l = true) body ->
  Forall (fun l => plain_line l = true) c ->
  strip_loop init_state (a ++ [o] ++ body ++ [cl] ++ c) []
  = a ++ [o] ++ List.filter (fun l => negb (is_blank l)) body ++ [cl] ++ c.
Proof using open_enters inside close_leaves o_not_blank.
  intros Ha Hbody Hc.
  rewrite strip_loop_plain_outside by (exact Ha || reflexivity). f_equal.
  change ([o] ++ body ++ [cl] ++ c) with (o :: (body ++ cl :: c)).
  rewrite strip_loop_cons, open_enters, o_not_blank, andb_false_r.
  rewrite strip_loop_result. cbn [app]. f_equal.
  rewrite strip_loop_plain_inside by assumption. f_equal.
  rewrite strip_loop_cons, close_leaves. cbn [any_math_mode init_state
    in_math in_display_math in_double_dollar stack_nonempty math_env_stack
    orb andb].
  rewrite strip_loop_result. cbn [app]. f_equal.
  rewrite <- (app_nil_r c) at 1.
  rewrite strip_loop_plain_outside by (exact Hc || reflexivity).
  apply app_nil_r.
Qed.

End Pair.

End Blocks.

Lemma block_delimiters_ok : forallb block_ok block_delimiters = true.
Proof. vm_compute. reflexivity. Qed.

Lemma block_ok_spec (oc : str * str) :
  block_ok oc = true ->
  any_math_mode (line_step init_state oc.1) = true
  /\ line_step (line_step init_state oc.1) oc.2 = init_state
  /\ is_blank oc.1 = false /\ (NEWLINE ∉ oc.1) /\ (NEWLINE ∉ oc.2).
Proof.
  unfold block_ok. cbv zeta.
  rewrite !andb_true_iff, !negb_true_iff, !forallb_forall.
  intros [[[[[H1 H2] H3] H4] H5] H6].
  split; [exact H1|]. split.
  - destruct (line_step (line_step init_state oc.1) oc.2)
      as [m d dd stack].
    unfold any_math_mode, stack_nonempty in H2. simpl in H2, H3.
    subst m. destruct d, dd, stack; try discriminate. reflexivity.
  - split; [exact H4|].
    split; intros Hin; apply list_elem_of_In in Hin.
    + apply H5 in Hin. rewrite negb_true_iff, N.eqb_refl in Hin.
      discriminate.
    + apply H6 in Hin. rewrite negb_true_iff, N.eqb_refl in Hin.
      discriminate.
Qed.

(** X5. A block of math opened and closed on lines of their own, among
    lines without backslash or dollar sign: [remove_blank_lines_in_math]
    removes exactly the blank lines between the two delimiter lines and
    keeps every other line, blank or not, in place. *)
Theorem remove_blank_lines_block (o cl : str) (a body c : list str) :
  (o, cl) ∈ block_delimiters ->
  Forall (fun l => plain_line l = true) a ->
  Forall (fun l => plain_line l = true) body ->
  Forall (fun l => plain_line l = true) c ->
  remove_blank_lines_in_math (join_nl (a ++ [o] ++ body ++ [cl] ++ c))
  = join_nl
      (a ++ [o] ++ List.filter (fun l => negb (is_blank l)) body
         ++ [cl] ++ c).
Proof.
  intros Hin Ha Hbody Hc.
  pose proof block_delimiters_ok as Hok.
  rewrite forallb_forall in Hok.
  apply list_elem_of_In, Hok, block_ok_spec in Hin.
  cbn [fst snd] in Hin. destruct Hin as (Hin & Hout & Hnb & Hno & Hncl).
  assert (forall ls, Forall (fun l => plain_line l = true) ls ->
                     Forall (fun l => NEWLINE ∉ l) ls) as Hlines.
  { intros ls H. eapply Forall_impl; [exact H|].
    intros l Hl. apply plain_line_spec in Hl. tauto. }
  unfold remove_blank_lines_in_math. rewrite split_join_nl.
  - rewrite (strip_loop_block o cl (line_step init_state o))
      by (reflexivity || assumption).
    reflexivity.
  - destruct a; discriminate.
  - repeat (apply Forall_app; split); auto.
Qed.

Lemma remove_blank_lines_block_witness :
  remove_blank_lines_in_math
    (join_nl ([lit "a"; []] ++ [lit "\begin{align}"]
                ++ [lit "x"; []; lit " "; lit "y"]
                ++ [lit "\end{align}"] ++ [[]; lit "b"]))
  = join_nl
      ([lit "a"; []] ++ [lit "\begin{align}"]
         ++ List.filter (fun l => negb (is_blank l))
              [lit "x"; []; lit " "; lit "y"]
         ++ [lit "\end{align}"] ++ [[]; lit "b"]).
Proof.
  apply (remove_blank_lines_block (lit "\begin{align}") (lit "\end{align}")).
  - vm_compute. do 5 right. left.
  - repeat constructor.
  - repeat constructor.
  - repeat constructor.
Defined.

(** ** The lines of wrapped content *)

Section Wrapped.

Implicit Types (s content filename : str) (ls : list str).

Lemma split_nl_joined ls s :
  ls <> [] -> Forall (fun l => NEWLINE ∉ l) ls ->
  split_nl (join_nl ls ++ nl ++ s) = ls ++ split_nl s.
Proof.
  intros Hne H. induction H as [|l ls Hl Hls IH]; [contradiction|].
  destruct ls as [|l2 ls].
  - simpl. apply split_nl_line, Hl.
  - change (join_nl (l :: l2 :: ls)) with (l ++ nl ++ join_nl (l2 :: ls)).
    rewrite <- !app_assoc. rewrite split_nl_line by exact Hl.
    rewrite IH by discriminate. reflexivity.
Qed.

Lemma comment_line (p : string) filename :
  forallb (fun c => negb (c =? NEWLINE)%N) (lit p) = true ->
  NEWLINE ∉ filename -> NEWLINE ∉ lit p ++ filename.
Proof.
  intros Hp Hf. apply no_newline_check in Hp. rewrite elem_of_app. tauto.
Qed.

(** The lines of [begin ++ nl ++ content ++ nl ++ end ++ nl]. *)
Lemma split_nl_wrapped b e content :
  NEWLINE ∉ b -> NEWLINE ∉ e ->
  split_nl (b ++ nl ++ content ++ nl ++ e ++ nl)
  = [b] ++ split_nl content ++ [e; []].
Proof.
  intros Hb He. rewrite split_nl_line by exact Hb. cbn [app]. f_equal.
  rewrite <- (join_split_nl content) at 1.
  rewrite split_nl_joined.
  - f_equal. pose proof (split_nl_line e [] He) as E.
    rewrite app_nil_r in E. exact E.
  - apply split_nl_nonempty.
  - apply split_nl_lines.
Qed.

Lemma first_interior_last ls :
  2 <= length ls -> ls = [first_line ls] ++ interior ls ++ [last_line ls].
Proof.
  destruct ls as [|l ls]; [simpl; lia|].
  destruct ls as [|l2 ls]; [simpl; lia|]. intros _.
  unfold first_line, interior, last_line. cbn [hd drop app].
  f_equal. change (List.last (l :: l2 :: ls) []) with (List.last (l2 :: ls) []).
  apply app_removelast_last. discriminate.
Qed.

(** X6. In math mode, for a file name without a newline, the lines of the
    wrapped content are the lines of the content, in order, with three
    lines added, each on its own: the begin comment (before the first line,
    or after it), the end comment and an empty line (after the last line,
    or before it). *)
Theorem safe_add_math_comments_lines content filename :
  NEWLINE ∉ filename ->
  let lines := split_nl content in
  let out := split_nl (safe_add_math_comments content filename) in
  let e := lit "% End: " ++ filename in
  exists b,
    (b = lit "% Inline: " ++ filename \/ b = lit "% Begin: " ++ filename)
    /\ (out = [b] ++ lines ++ [e; []]
        \/ lines = [first_line lines] ++ interior lines ++ [last_line lines]
           /\ out = [first_line lines; b] ++ interior lines
                      ++ [e; []; last_line lines])
    /\ lines `sublist_of` out
    /\ length out = length lines + 3.
Proof.
  intros Hf lines out e.
  assert (NEWLINE ∉ lit "% Inline: " ++ filename) as Hi
    by (apply comment_line; [reflexivity|exact Hf]).
  assert (NEWLINE ∉ lit "% Begin: " ++ filename) as Hb
    by (apply comment_line; [reflexivity|exact Hf]).
  assert (NEWLINE ∉ e) as He
    by (apply comment_line; [reflexivity|exact Hf]).
  assert (forall b, NEWLINE ∉ b ->
            let o := [b] ++ lines ++ [e; []] in
            lines `sublist_of` o /\ length o = length lines + 3) as Hshort.
  { intros b _ o. subst o. split.
    - apply sublist_cons, sublist_inserts_r. reflexivity.
    - rewrite !length_app. simpl. lia. }
  subst out. unfold safe_add_math_comments. cbv zeta.
  destruct (Nat.ltb_spec (length (strip content)) 10) as [_|Hlen].
  { exists (lit "% Inline: " ++ filename). split; [left; reflexivity|].
    rewrite split_nl_wrapped by assumption.
    split; [left; reflexivity|]. apply Hshort, Hi. }
  exists (lit "% Begin: " ++ filename). split; [right; reflexivity|].
  destruct (existsb _ math_delimiters || existsb _ math_delimiters) eqn:Hd.
  2:{ rewrite split_nl_wrapped by assumption.
      split; [left; reflexivity|]. apply Hshort, Hb. }
  fold lines.
  destruct (Nat.leb_spec 2 (length lines)) as [H2|_].
  2:{ rewrite split_nl_wrapped by assumption.
      split; [left; reflexivity|]. apply Hshort, Hb. }
  pose proof (first_interior_last lines H2) as Hshape.
  pose proof (split_nl_lines content) as Hlines. fold lines in Hlines.
  rewrite Hshape in Hlines.
  apply Forall_app in Hlines as [Hfirst Hrest].
  apply Forall_app in Hrest as [Hint Hlast].
  apply Forall_inv in Hfirst, Hlast.
  assert (split_nl
            (join_nl ([first_line lines] ++ [lit "% Begin: " ++ filename]
                        ++ interior lines
                        ++ [lit "% End: " ++ filename ++ nl]
                        ++ [last_line lines]))
          = [first_line lines; lit "% Begin: " ++ filename]
              ++ interior lines ++ [e; []; last_line lines]) as E.
  { change ([first_line lines] ++ [lit "% Begin: " ++ filename]
              ++ interior lines ++ [lit "% End: " ++ filename ++ nl]
              ++ [last_line lines])
      with (([first_line lines; lit "% Begin: " ++ filename]
               ++ interior lines)
              ++ [e ++ nl] ++ [last_line lines]).
    rewrite app_assoc, !join_nl_snoc by discriminate.
    rewrite <- !app_assoc, split_nl_joined.
    - rewrite <- app_assoc. do 3 f_equal.
      rewrite split_nl_line by exact He.
      pose proof (split_nl_line [] (last_line lines)) as E.
      cbn [app] in E. change (nl ++ last_line lines) with
        (NEWLINE :: last_line lines).
      rewrite split_nl_cons, N.eqb_refl.
      rewrite split_nl_one_line by exact Hlast. reflexivity.
    - discriminate.
    - repeat constructor; assumption. }
  rewrite E. clear E Hfirst Hint Hlast. revert Hshape.
  generalize (first_line lines) (interior lines) (last_line lines).
  intros f mid la Hshape.
  split; [right; split; [exact Hshape|reflexivity]|].
  rewrite Hshape. split.
  - cbn [app].
    apply sublist_skip, sublist_cons, sublist_app; [reflexivity|].
    apply sublist_cons, sublist_cons. reflexivity.
  - cbn [app length]. rewrite !length_app. simpl. lia.
Qed.

Lemma safe_add_math_comments_lines_witness :
  let lines := split_nl (lit "$$" ++ nl ++ lit "x + y = z" ++ nl ++ lit "$$")
  in
  let out :=
    split_nl (safe_add_math_comments
                (lit "$$" ++ nl ++ lit "x + y = z" ++ nl ++ lit "$$")
                (lit "eq.tex")) in
  let e := lit "% End: " ++ lit "eq.tex" in
  exists b,
    (b = lit "% Inline: " ++ lit "eq.tex"
     \/ b = lit "% Begin: " ++ lit "eq.tex")
    /\ (out = [b] ++ lines ++ [e; []]
        \/ lines = [first_line lines] ++ interior lines ++ [last_line lines]
           /\ out = [first_line lines; b] ++ interior lines
                      ++ [e; []; last_line lines])
    /\ lines `sublist_of` out
    /\ length out = length lines + 3.
Proof.
  apply (safe_add_math_comments_lines
           (lit "$$" ++ nl ++ lit "x + y = z" ++ nl ++ lit "$$")
           (lit "eq.tex")).
  apply no_newline_check. reflexivity.
Defined.

End Wrapped.

(** ** The resolver on whole texts *)

Section Resolver.

Context `{FS : FileSystem}.

Implicit Types (self : inliner) (content text : str) (dir p : path).

Lemma first_existing_exists ps p :
  first_existing ps = Returns (Some p) -> path_exists p = Returns true.
Proof.
  induction ps as [|q ps IH]; [discriminate|]. simpl.
  destruct (path_exists q) as [[|]|e] eqn:E; [|exact IH|discriminate].
  intros [= <-]. exact E.
Qed.

Lemma find_file_exists self dir file_arg p :
  find_file self dir file_arg = Returns (Some p) ->
  path_exists p = Returns true.
Proof.
  unfold find_file.
  destruct (path_exists (joinpath dir file_arg)) as [[|]|e] eqn:E;
    [| |discriminate].
  - intros [= <-]. exact E.
  - destruct (with_suffix _ _); [|discriminate].
    apply first_existing_exists.
Qed.

(** With every directive left as it is the text comes back whole. *)
Lemma re_sub_not_found rec content dir text : forall skip pos self,
  Forall (fun m => find_file self dir (file_arg_of m) = Returns None)
    (directives skip text) ->
  re_sub (replace_command rec content dir) skip pos text self
  = Some (Done (drop skip text)
            (Inliner _ (main_file self) (output_file self)
               (processed_files self) (current_depth self)
               (stdout self
                  ++ ((fun m => WarnNotFound (file_arg_of m))
                        <$> directives skip text)))).
Proof.
  induction text as [|c tl IH]; intros skip pos self H.
  { destruct skip, self; simpl; rewrite app_nil_r; reflexivity. }
  destruct skip as [|k].
  - rewrite re_sub_cons. cbn [directives] in H |- *.
    destruct (match_directive (c :: tl)) as [m|] eqn:Hm.
    + apply Forall_cons in H as [Hm0 Hrest].
      rewrite replace_command_not_found by exact Hm0.
      cbn [and_then].
      rewrite IH by exact Hrest. cbn [and_then].
      destruct (match_directive_group0 _ _ Hm) as (c' & d & Hg & Ht).
      f_equal. f_equal.
      * transitivity (group0 m ++ drop (length (group0 m)) (c :: tl));
          [|symmetry; exact Ht].
        rewrite Hg. cbn [length drop].
        replace (S (length d) - 1) with (length d) by lia. reflexivity.
      * cbn [main_file output_file processed_files current_depth stdout
               print fmap list_fmap].
        rewrite <- app_assoc. reflexivity.
    + rewrite IH by exact H. reflexivity.
  - rewrite re_sub_cons_skip. cbn [directives] in H |- *.
    apply IH, H.
Qed.

(** X7. When the search answers for every directive of a text that none
    of its candidate paths exists, [resolve_input_commands] returns the
    text unchanged, prints one warning for each directive, in order, and
    changes nothing else. *)
Theorem resolve_nothing_found fuel content dir self :
  current_depth self <= max_depth ->
  Forall (fun m => find_file self dir (file_arg_of m) = Returns None)
    (directives 0 content) ->
  resolve_input_commands (S fuel) content dir self
  = Some (Done content
            (Inliner _ (main_file self) (output_file self)
               (processed_files self) (current_depth self)
               (stdout self
                  ++ ((fun m => WarnNotFound (file_arg_of m))
                        <$> directives 0 content)))).
Proof.
  intros Hd H. rewrite resolve_below_ceiling by exact Hd.
  rewrite re_sub_not_found by exact H. cbn [and_then].
  unfold set_depth. cbn [main_file output_file processed_files
    current_depth stdout drop].
  do 3 f_equal. lia.
Qed.

Lemma marks_existing_same self self' :
  processed_files self' = processed_files self -> marks_existing self self'.
Proof. intros E p Hp. left. rewrite <- E. exact Hp. Qed.

Lemma marks_existing_refl self : marks_existing self self.
Proof. apply marks_existing_same. reflexivity. Qed.

Lemma marks_existing_trans s1 s2 s3 :
  marks_existing s1 s2 -> marks_existing s2 s3 -> marks_existing s1 s3.
Proof.
  intros H12 H23 p Hp. destruct (H23 p Hp) as [H|H]; [|right; exact H].
  apply H12, H.
Qed.

Lemma marks_existing_add self p :
  path_exists p = Returns true -> marks_existing self (add_processed p self).
Proof.
  intros Hp q Hq. simpl in Hq. apply elem_of_union in Hq as [Hq|Hq].
  - apply elem_of_singleton in Hq as ->. right. exact Hp.
  - left. exact Hq.
Qed.

Lemma replace_command_marks rec content dir m pos self r :
  (forall c d s r', rec c d s = Some r' ->
                    marks_existing s (final_state r')) ->
  replace_command rec content dir m pos self = Some r ->
  marks_existing self (final_state r).
Proof.
  intros Hrec.
  destruct (find_file self dir (file_arg_of m)) as [[p|]|e] eqn:Ef.
  3:{ rewrite (replace_command_raises _ _ _ _ _ _ e) by exact Ef.
      intros [= <-]. apply marks_existing_refl. }
  2:{ rewrite replace_command_not_found by exact Ef.
      intros [= <-]. apply marks_existing_same. reflexivity. }
  pose proof (find_file_exists _ _ _ _ Ef) as Hex.
  destruct (decide (p ∈ processed_files self)) as [Hin|Hin].
  { rewrite (replace_command_circular _ _ _ _ _ _ p) by assumption.
    intros [= <-]. apply marks_existing_same. reflexivity. }
  destruct (read_file p) as [c|e] eqn:Er.
  2:{ rewrite (replace_command_read_error _ _ _ _ _ _ p e) by assumption.
      intros [= <-]. apply (marks_existing_add self p Hex). }
  rewrite (replace_command_inline _ _ _ _ _ _ p c) by assumption.
  destruct (rec _ _ _) as [[o s2|e s2]|] eqn:Hr; [| |discriminate];
    intros [= <-]; apply Hrec in Hr; cbn [final_state] in *;
    (eapply marks_existing_trans; [apply (marks_existing_add self p Hex)|]).
  - exact Hr.
  - eapply marks_existing_trans; [exact Hr|].
    apply marks_existing_same. reflexivity.
Qed.

Lemma resolve_marks fuel : forall content dir self r,
  resolve_input_commands fuel content dir self = Some r ->
  marks_existing self (final_state r).
Proof.
  induction fuel as [|fuel IH]; intros content dir self r.
  - destruct (Nat.le_gt_cases (current_depth self) max_depth) as [Hle|Hgt].
    + simpl. destruct (Nat.ltb_spec max_depth (current_depth self));
        [lia|discriminate].
    + rewrite resolve_above_ceiling by lia.
      intros [= <-]. apply marks_existing_refl.
  - destruct (Nat.le_gt_cases (current_depth self) max_depth) as [Hle|Hgt].
    2:{ rewrite resolve_above_ceiling by lia.
        intros [= <-]. apply marks_existing_refl. }
    rewrite resolve_below_ceiling by exact Hle.
    destruct (re_sub _ 0 0 content _) as [r1|] eqn:Hr; [|discriminate].
    apply (re_sub_rel _ marks_existing marks_existing_refl
             marks_existing_trans) in Hr.
    2:{ intros m pos s r'. apply replace_command_marks. exact IH. }
    destruct r1 as [o s2|e s2]; cbn [and_then final_state] in *;
      intros [= <-]; exact Hr.
Qed.

(** X8. A run marks only paths that exist: however [inline_latex] ends,
    every path in [processed_files] afterwards was there before or is a
    path for which [exists()] returned true. *)
Theorem processed_files_exist fuel self r :
  inline_latex fuel self = Some r ->
  forall p, p ∈ processed_files (final_state r) ->
            p ∈ processed_files self \/ path_exists p = Returns true.
Proof.
  intros H.
  destruct (path_exists (main_file self)) as [[|]|e] eqn:Ex.
  3:{ rewrite (inline_latex_raises _ _ e) in H by exact Ex.
      injection H as <-. intros p Hp. left. exact Hp. }
  2:{ rewrite inline_latex_missing in H by exact Ex.
      injection H as <-. intros p Hp. left. exact Hp. }
  destruct (read_file (main_file self)) as [c|e] eqn:Er.
  2:{ rewrite (inline_latex_unreadable _ _ e) in H by assumption.
      injection H as <-. intros p Hp. left. exact Hp. }
  rewrite (inline_latex_read _ _ c) in H by assumption.
  destruct (resolve_input_commands _ _ _ _) as [r1|] eqn:Hr;
    [|discriminate].
  apply resolve_marks in Hr.
  assert (marks_existing self (final_state r1)) as Hm.
  { eapply marks_existing_trans; [|exact Hr].
    intros p Hp. simpl in Hp. apply elem_of_union in Hp as [Hp|Hp].
    - apply elem_of_singleton in Hp as ->. right. exact Ex.
    - left. exact Hp. }
  destruct r1 as [out s2|e s2]; cbn [final_state] in *.
  - destruct (open_write _ _); injection H as <-; exact Hm.
  - injection H as <-. exact Hm.
Qed.

Lemma resolve_no_directive fuel content dir self :
  has_directive content = false ->
  resolve_input_commands (S fuel) content dir self
  = Some (Done content self).
Proof.
  intros H.
  destruct (Nat.le_gt_cases (current_depth self) max_depth) as [Hle|Hgt].
  - rewrite resolve_below_ceiling by exact Hle.
    rewrite re_sub_no_directive by exact H. cbn [and_then].
    rewrite set_depth_restore. reflexivity.
  - apply resolve_above_ceiling. lia.
Qed.

(** X9. The normal case.  A text whose only directive names a readable
    file that was not marked and holds no directive of its own becomes the
    text with the directive replaced by the file's content between its
    comments (the content stripped when the directive is in math); the file
    is marked and one "Inlining" line is printed. *)
Theorem resolve_single_inline fuel pre m post dir self p file_content :
  current_depth self <= max_depth ->
  (forall i, i < length pre ->
     match_directive (drop i (pre ++ group0 m ++ post)) = None) ->
  match_directive (group0 m ++ post) = Some m ->
  has_directive post = false ->
  find_file self dir (file_arg_of m) = Returns (Some p) ->
  p ∉ processed_files self ->
  read_file p = inl file_content ->
  let in_math_mode :=
    is_in_math_mode (pre ++ group0 m ++ post) (length pre) in
  let body := if in_math_mode then strip file_content else file_content in
  has_directive body = false ->
  resolve_input_commands (S (S fuel)) (pre ++ group0 m ++ post) dir self
  = Some (Done (pre ++ add_inclusion_comments body (path_name p)
                        in_math_mode
                    ++ post)
            (print (MsgInlining p in_math_mode) (add_processed p self))).
Proof.
  intros Hd Hpre Hm Hpost Hf Hin Hr in_math_mode body Hbody.
  rewrite resolve_below_ceiling by exact Hd.
  rewrite re_sub_prefix by exact Hpre.
  rewrite (re_sub_match _ _ m _ _ Hm).
  rewrite (replace_command_inline _ _ _ _ _ _ p file_content)
    by assumption.
  cbn [plus]. fold in_math_mode. fold body.
  rewrite resolve_no_directive by exact Hbody.
  cbn [and_then]. rewrite drop_app_length.
  rewrite re_sub_no_directive by exact Hpost. cbn [and_then].
  do 2 f_equal. destruct self. unfold set_depth, print, add_processed.
  simpl. f_equal. lia.
Qed.

End Resolver.

(** ** Whole runs and the command line *)

Section Runs.

Context `{FS : FileSystem}.

Implicit Types (self : inliner) (content : str).

(** *** Where an exception comes from *)

Lemma first_existing_raises ps e :
  first_existing ps = Raises e -> exists p, path_exists p = Raises e.
Proof.
  induction ps as [|p ps IH]; [discriminate|]. simpl.
  destruct (path_exists p) as [[|]|e'] eqn:E; [discriminate|exact IH|].
  intros [= <-]. eauto.
Qed.

Lemma find_file_raises_origin self dir file_arg e :
  find_file self dir file_arg = Raises e ->
  (exists p, path_exists p = Raises e)
  \/ (exists p s, with_suffix p s = Raises e).
Proof.
  unfold find_file.
  destruct (path_exists (joinpath dir file_arg)) as [[|]|e'] eqn:E.
  - discriminate.
  - destruct (with_suffix _ _) as [q|e'] eqn:Ew.
    + intros H. left. eapply first_existing_raises, H.
    + intros [= <-]. right. eauto.
  - intros [= <-]. left. eauto.
Qed.

(** The handler of a directive catches what the recursive call raises:
    only the search raises out of the callback. *)
Lemma replace_command_raises_origin
    (rec : str -> path -> inliner -> result str) content dir m pos self e
    self' :
  replace_command rec content dir m pos self = Some (Raise e self') ->
  find_file self dir (file_arg_of m) = Raises e.
Proof.
  unfold replace_command.
  destruct (find_file self dir (file_arg_of m)) as [[p|]|e'].
  - destruct (bool_decide _); [discriminate|].
    destruct (read_file p) as [c|e0]; [|discriminate].
    destruct (rec _ _ _) as [[o s1|e1 s1]|]; discriminate.
  - discriminate.
  - intros [= <- _]. reflexivity.
Qed.

Lemma re_sub_raises_origin {S : Type}
    (repl : re_match -> nat -> S -> option (completion S str)) text :
  forall skip pos s e s',
    re_sub repl skip pos text s = Some (Raise e s') ->
    exists m pos' s1, repl m pos' s1 = Some (Raise e s').
Proof.
  induction text as [|c text IH]; intros skip pos s e s'; [discriminate|].
  destruct skip as [|k]; [|rewrite re_sub_cons_skip; apply IH].
  rewrite re_sub_cons.
  destruct (match_directive (c :: text)) as [m|].
  - destruct (repl m pos s) as [[r0 s0|e0 s0]|] eqn:E0; cbn [and_then];
      [| |discriminate].
    + destruct (re_sub repl _ _ text s0) as [[o1 s1|e1 s1]|] eqn:E1;
        cbn [and_then]; [discriminate| |discriminate].
      intros [= <- <-]. eapply IH, E1.
    + intros [= <- <-]. eauto.
  - destruct (re_sub repl _ _ text s) as [[o1 s1|e1 s1]|] eqn:E1;
      cbn [and_then]; [discriminate| |discriminate].
    intros [= <- <-]. eapply IH, E1.
Qed.

Lemma resolve_raises_origin fuel content dir self e self' :
  resolve_input_commands fuel content dir self = Some (Raise e self') ->
  (exists p, path_exists p = Raises e)
  \/ (exists p s, with_suffix p s = Raises e).
Proof.
  destruct (Nat.le_gt_cases (current_depth self) max_depth) as [Hle|Hgt].
  2:{ rewrite resolve_above_ceiling by lia. discriminate. }
  destruct fuel as [|fuel].
  { simpl. destruct (Nat.ltb_spec max_depth (current_depth self));
      [lia|discriminate]. }
  rewrite resolve_below_ceiling by exact Hle.
  destruct (re_sub _ 0 0 content _) as [[o s1|e1 s1]|] eqn:E;
    cbn [and_then]; [discriminate| |discriminate].
  intros [= <- <-].
  destruct (re_sub_raises_origin _ _ _ _ _ _ _ E) as (m & pos & s0 & H).
  apply replace_command_raises_origin in H.
  eapply find_file_raises_origin, H.
Qed.

Lemma inline_latex_cases fuel self :
  max_depth + 1 <= fuel + current_depth self ->
  exists r,
    inline_latex fuel self = Some r
    /\ main_file (final_state r) = main_file self
    /\ output_file (final_state r) = output_file self
    /\ (forall e s,
          r = Raise e s ->
          path_exists (main_file self) = Raises e /\ s = self)
    /\ (forall c self',
          r = Done (Written c) self' ->
          path_exists (main_file self) = Returns true
          /\ (exists main_content,
                read_file (main_file self) = inl main_content)
          /\ remove_blank_lines_in_math c = c
          /\ open_write (output_file self) c = None
          /\ last (stdout self')
             = Some (MsgSuccess (output_file self)
                       (size (processed_files self'))))
    /\ (path_exists (main_file self) = Returns true ->
        (exists main_content,
           read_file (main_file self) = inl main_content) ->
        (forall c, open_write (output_file self) c = None) ->
        (exists c self', r = Done (Written c) self')
        \/ (exists e self',
              r = Done Failed self'
              /\ last (stdout self') = Some (MsgError e)
              /\ ((exists p, path_exists p = Raises e)
                  \/ (exists p s, with_suffix p s = Raises e)))).
Proof.
  intros Hfuel.
  destruct (path_exists (main_file self)) as [[|]|e] eqn:Ex.
  3:{ rewrite (inline_latex_raises _ _ e) by exact Ex. eexists.
      split; [reflexivity|]. do 2 (split; [reflexivity|]).
      split; [intros e' s [= <- <-]; auto|].
      split; [discriminate|]. discriminate. }
  2:{ rewrite inline_latex_missing by exact Ex. eexists.
      split; [reflexivity|]. do 2 (split; [reflexivity|]).
      split; [discriminate|]. split; discriminate. }
  destruct (read_file (main_file self)) as [mc|e] eqn:Er.
  2:{ rewrite (inline_latex_unreadable _ _ e) by assumption. eexists.
      split; [reflexivity|]. do 2 (split; [reflexivity|]).
      split; [discriminate|]. split; [discriminate|].
      intros _ [c [=]]. }
  rewrite (inline_latex_read _ _ mc) by assumption.
  set (s1 := add_processed _ _).
  destruct (resolve_total fuel mc (parent (main_file self)) s1)
    as (r1 & E1 & Hm & Ho & _); [exact Hfuel|].
  rewrite E1.
  destruct r1 as [out s2|e s2]; cbn [final_state] in *.
  2:{ eexists. split; [reflexivity|]. cbn [final_state].
      split; [exact Hm|]. split; [exact Ho|].
      split; [discriminate|]. split; [discriminate|].
      intros _ _ _. right. exists e, (print (MsgError e) s2).
      split; [reflexivity|].
      split; [cbn [stdout print]; apply last_snoc|].
      eapply resolve_raises_origin, E1. }
  rewrite Ho. cbn [output_file s1 add_processed print].
  destruct (open_write (output_file self) _) as [e|] eqn:Ew;
    eexists; (split; [reflexivity|]); cbn [final_state];
    (split; [exact Hm|]); (split; [exact Ho|]);
    (split; [discriminate|]).
  - split; [discriminate|]. intros _ _ Hw. rewrite Hw in Ew. discriminate.
  - split; [|intros _ _ _; left; eauto]. intros c self' [= <- <-].
    split; [reflexivity|]. split; [eauto|].
    split.
    { unfold remove_blank_lines_in_math at 1.
      rewrite remove_blank_lines_lines, strip_loop_idempotent.
      reflexivity. }
    split; [exact Ew|].
    cbn [stdout print]. rewrite last_snoc. reflexivity.
Qed.

(** X10. What decides the outcome of a run.  With the fuel the ceiling
    calls for [inline_latex] ends; an exception leaves it only when the
    test of the main file raises, with nothing done.  When it reports
    success, the main file existed and was read, the text written is a
    fixed point of [remove_blank_lines_in_math], the write raised nothing,
    and the last line printed gives the size of [processed_files].  When
    the main file exists and is read and writing the output file does not
    raise, the run succeeds whatever the directives name, unless a path
    method raises: then it fails, and the error it prints last is one that
    [exists()] or [with_suffix()] raises on some path. *)
Theorem inline_latex_outcome fuel self :
  max_depth + 1 <= fuel + current_depth self ->
  exists r,
    inline_latex fuel self = Some r
    /\ (forall e s,
          r = Raise e s ->
          path_exists (main_file self) = Raises e /\ s = self)
    /\ (forall c self',
          r = Done (Written c) self' ->
          path_exists (main_file self) = Returns true
          /\ (exists main_content,
                read_file (main_file self) = inl main_content)
          /\ remove_blank_lines_in_math c = c
          /\ open_write (output_file self) c = None
          /\ last (stdout self')
             = Some (MsgSuccess (output_file self)
                       (size (processed_files self'))))
    /\ (path_exists (main_file self) = Returns true ->
        (exists main_content,
           read_file (main_file self) = inl main_content) ->
        (forall c, open_write (output_file self) c = None) ->
        (exists c self', r = Done (Written c) self')
        \/ (exists e self',
              r = Done Failed self'
              /\ last (stdout self') = Some (MsgError e)
              /\ ((exists p, path_exists p = Raises e)
                  \/ (exists p s, with_suffix p s = Raises e)))).
Proof.
  intros Hfuel.
  destruct (inline_latex_cases fuel self Hfuel)
    as (r & E & _ & _ & Hr & Hw & Hs).
  exists r. auto.
Qed.

(** What the constructor returns. *)
Lemma new_inliner_returns (main : path) (output : option path) self0 :
  new_inliner main output = Returns self0 ->
  exists out,
    self0 = fresh main out
    /\ match output with
       | Some o => out = o
       | None => with_suffix main (lit ".inline.tex") = Returns out
       end.
Proof.
  unfold new_inliner. destruct output as [o|].
  - intros [= <-]. eauto.
  - destruct (with_suffix main _) as [q|e]; [|discriminate].
    intros [= <-]. eauto.
Qed.

(** X11. The count a successful run reports.  A run of a new
    [LatexInliner] ends, and when it succeeds the size of
    [processed_files] it prints is one, for the main file, more than the
    number of "Inlining" lines it has printed. *)
Theorem processed_count (main : path) (output : option path) self0 :
  new_inliner main output = Returns self0 ->
  exists r,
    inline_latex (max_depth + 1) self0 = Some r
    /\ forall c self',
         r = Done (Written c) self' ->
         size (processed_files self')
         = 1 + length (inlined_paths (stdout self')).
Proof.
  intros Hnew. destruct (new_inliner_returns _ _ _ Hnew) as (o & -> & _).
  set (self0 := fresh main o).
  assert (main_file self0 = main) as Hmain by reflexivity.
  destruct (path_exists main) as [[|]|e] eqn:Ex.
  3:{ rewrite (inline_latex_raises _ _ e) by (rewrite Hmain; exact Ex).
      eexists. split; [reflexivity|]. discriminate. }
  2:{ rewrite inline_latex_missing by (rewrite Hmain; exact Ex).
      eexists. split; [reflexivity|]. discriminate. }
  destruct (read_file main) as [c|e] eqn:Er.
  2:{ rewrite (inline_latex_unreadable _ _ e)
        by (rewrite Hmain; assumption).
      eexists. split; [reflexivity|]. discriminate. }
  rewrite (inline_latex_read _ _ c) by (rewrite Hmain; assumption).
  rewrite Hmain.
  set (s1 := add_processed main (print _ self0)).
  destruct (resolve_total (max_depth + 1) c (parent main) s1)
    as (r1 & -> & Hm & Ho & Hd & new & Hs & Hn & Hf & Hp); [lia|].
  destruct r1 as [out s2|e s2]; cbn [final_state] in *.
  2:{ eexists. split; [reflexivity|]. discriminate. }
  destruct (open_write _ _) as [e|]; eexists;
    (split; [reflexivity|]); [discriminate|].
  intros c' self' [= _ <-]. cbn [processed_files stdout print].
  rewrite Hs, Hp.
  subst s1. cbn [processed_files stdout print add_processed self0 fresh].
  rewrite !inlined_paths_app. cbn [inlined_paths omap app].
  rewrite app_nil_r.
  rewrite size_union.
  - rewrite size_union by set_solver.
    rewrite size_singleton, size_empty, size_list_to_set by exact Hn.
    change (inlined_paths []) with (@nil path).
    change (inlined_paths [MsgStart main (output_file self0)])
      with (@nil path).
    cbn [app]. lia.
  - intros p Hp1 Hp2. apply elem_of_list_to_set in Hp2.
    apply (Hf p Hp2). exact Hp1.
Qed.

Section CommandLine.

Variable Path : str -> path.

(** X12. The command line.  [main] ends.  It prints the usage, and exits
    with 1, exactly when there are fewer than two words on the command
    line.  Otherwise it makes the object for the path of the first
    argument, writing to the path of the second or, when there is none or
    it is empty, to the main path with the suffix [.inline.tex], and runs
    [inline_latex] on it.  It ends on an exception nothing catches, with
    status 1, exactly when the default name cannot be made or the test of
    the main file raises.  The status is 0 or 1, and 0 exactly when the run
    has written its output. *)
Theorem main_exit_code (fuel : nat) (argv : list str) :
  max_depth + 1 <= fuel ->
  let main_path := Path (nth 1 argv []) in
  let given :=
    (2 <? length argv) && negb (is_empty (nth 2 argv [])) in
  exists r,
    main Path fuel argv = Some r
    /\ (length argv < 2 <-> r = Usage)
    /\ (forall e,
          r = Crashed e <->
          2 <= length argv
          /\ (given = false
              /\ with_suffix main_path (lit ".inline.tex") = Raises e
              \/ (given = true
                  \/ exists q,
                       with_suffix main_path (lit ".inline.tex")
                       = Returns q)
                 /\ path_exists main_path = Raises e))
    /\ (forall code o self',
          r = Ran code o self' ->
          2 <= length argv
          /\ main_file self' = main_path
          /\ (if given then output_file self' = Path (nth 2 argv [])
              else with_suffix main_path (lit ".inline.tex")
                   = Returns (output_file self'))
          /\ inline_latex fuel (fresh main_path (output_file self'))
             = Some (Done o self')
          /\ code = match o with Written _ => 0 | Failed => 1 end)
    /\ (exit_code r = 0 \/ exit_code r = 1)
    /\ (exit_code r = 0 <-> exists c self', r = Ran 0 (Written c) self')
    /\ (forall c self',
          r = Ran 0 (Written c) self' ->
          path_exists main_path = Returns true
          /\ open_write (output_file self') c = None).
Proof.
  intros Hfuel main_path given. unfold main.
  destruct (Nat.ltb_spec (length argv) 2) as [Hlt|Hge].
  { exists Usage. split; [reflexivity|]. split; [tauto|].
    split; [intros e; split; [discriminate|intros [H _]; lia]|].
    split; [discriminate|]. split; [right; reflexivity|].
    split; [split; [discriminate|intros (c & s & [=])]|discriminate]. }
  cbv zeta.
  assert (LatexInliner Path (nth 1 argv [])
            (if 2 <? length argv then Some (nth 2 argv []) else None)
          = new_inliner main_path
              (if given then Some (Path (nth 2 argv [])) else None)) as ->.
  { unfold LatexInliner. subst given main_path.
    destruct (2 <? length argv); cbn [andb]; [|reflexivity].
    destruct (is_empty (nth 2 argv [])); reflexivity. }
  unfold new_inliner.
  assert (forall out,
            (if given then out = Path (nth 2 argv [])
             else with_suffix main_path (lit ".inline.tex") = Returns out) ->
            exists r,
              match inline_latex fuel (fresh main_path out) with
              | Some (Done success self) =>
                  Some (Ran match success with
                            | Written _ => 0
                            | Failed => 1
                            end success self)
              | Some (Raise e _) => Some (Crashed e)
              | None => None
              end = Some r
              /\ (length argv < 2 <-> r = Usage)
              /\ (forall e,
                    r = Crashed e <->
                    2 <= length argv
                    /\ (given = false
                        /\ with_suffix main_path (lit ".inline.tex")
                           = Raises e
                        \/ (given = true
                            \/ exists q,
                                 with_suffix main_path (lit ".inline.tex")
                                 = Returns q)
                           /\ path_exists main_path = Raises e))
              /\ (forall code o self',
                    r = Ran code o self' ->
                    2 <= length argv
                    /\ main_file self' = main_path
                    /\ (if given
                        then output_file self' = Path (nth 2 argv [])
                        else with_suffix main_path (lit ".inline.tex")
                             = Returns (output_file self'))
                    /\ inline_latex fuel
                         (fresh main_path (output_file self'))
                       = Some (Done o self')
                    /\ code = match o with Written _ => 0 | Failed => 1 end)
              /\ (exit_code r = 0 \/ exit_code r = 1)
              /\ (exit_code r = 0 <->
                  exists c self', r = Ran 0 (Written c) self')
              /\ (forall c self',
                    r = Ran 0 (Written c) self' ->
                    path_exists main_path = Returns true
                    /\ open_write (output_file self') c = None)) as Hrun.
  { intros out Hout.
    assert (given = true
            \/ exists q,
                 with_suffix main_path (lit ".inline.tex") = Returns q)
      as Hmade by (destruct given; eauto).
    destruct (inline_latex_cases fuel (fresh main_path out))
      as (res & E & Hm & Ho & Hr & Hw & _).
    { change (current_depth (fresh main_path out)) with 0. lia. }
    rewrite E.
    destruct res as [o self'|e self']; cbn [final_state] in *.
    - eexists. split; [reflexivity|].
      split; [split; [lia|discriminate]|].
      split.
      { intros e. split; [discriminate|].
        intros (_ & [[Hg He]|[_ He]]).
        - destruct given; [discriminate|]. rewrite He in Hout.
          discriminate.
        - assert (path_exists main_path = Returns true
                  \/ path_exists main_path = Returns false
                  \/ exists e', inline_latex fuel (fresh main_path out)
                                = Some (Raise e' (fresh main_path out)))
            as Hcases.
          { destruct (path_exists main_path) as [[|]|e'] eqn:Ex; auto.
            right. right. exists e'. apply inline_latex_raises.
            exact Ex. }
          destruct Hcases as [Hc|[Hc|(e' & Hc)]].
          + rewrite Hc in He. discriminate.
          + rewrite Hc in He. discriminate.
          + rewrite Hc in E. discriminate. }
      split.
      { intros code o' s' [= <- <- <-]. split; [exact Hge|].
        split; [exact Hm|]. cbn [output_file fresh] in Ho. rewrite Ho.
        split; [exact Hout|]. split; [exact E|reflexivity]. }
      destruct o as [c|]; cbn [exit_code].
      + split; [left; reflexivity|].
        split; [split; eauto|].
        intros c' s' [= <- <-].
        destruct (Hw c self' eq_refl) as (Hex & _ & _ & Hwr & _).
        split; [exact Hex|]. rewrite Ho. exact Hwr.
      + split; [right; reflexivity|].
        split; [split; [discriminate|intros (c & s & [=])]|discriminate].
    - destruct (Hr e self' eq_refl) as [Hex _].
      eexists. split; [reflexivity|].
      split; [split; [lia|discriminate]|].
      split.
      { intros e'. split.
        - intros [= <-]. split; [exact Hge|]. right. split; assumption.
        - intros (_ & [[Hg He]|[_ He]]).
          + destruct given; [discriminate|]. rewrite He in Hout.
            discriminate.
          + change (main_file (fresh main_path out)) with main_path in Hex.
            rewrite Hex in He. injection He as <-. reflexivity. }
      split; [discriminate|].
      cbn [exit_code]. split; [right; reflexivity|].
      split; [split; [discriminate|intros (c & s & [=])]|discriminate]. }
  destruct given eqn:Hg.
  - apply Hrun. reflexivity.
  - destruct (with_suffix main_path (lit ".inline.tex")) as [q|e] eqn:Ews.
    + apply Hrun. reflexivity.
    + exists (Crashed e). split; [reflexivity|].
      split; [split; [lia|discriminate]|].
      split.
      { intros e'. split.
        - intros [= <-]. split; [exact Hge|]. left. split; reflexivity.
        - intros (_ & [[_ He]|[[Ht|(q & Hq)] _]]).
          + injection He as <-. reflexivity.
          + discriminate.
          + discriminate. }
      split; [discriminate|].
      cbn [exit_code]. split; [right; reflexivity|].
      split; [split; [discriminate|intros (c & s & [=])]|discriminate].
Qed.

End CommandLine.

End Runs.

(** ** The further properties on the example projects *)

(** Two directives to files that are not there, next to [sub.tex]. *)
Lemma resolve_nothing_found_witness :
  let FS := Posix.fs Examples.root_and_sub in
  let content := lit "a \input{one} b \include{two/three} c" in
  let self := Examples.started Examples.root_and_sub "main.tex" in
  resolve_input_commands 1 content [] self
  = Some (Done content
            (Inliner _ (main_file self) (output_file self)
               (processed_files self) (current_depth self)
               (stdout self
                  ++ ((fun m => WarnNotFound (file_arg_of m))
                        <$> directives 0 content)))).
Proof.
  intros FS content self.
  apply (resolve_nothing_found (FS := FS) 0 content [] self).
  - apply Nat.leb_le. vm_compute. reflexivity.
  - match goal with
    | |- Forall _ ?l =>
        let l' := eval vm_compute in l in
        replace l with l' by (vm_compute; reflexivity)
    end.
    repeat (constructor; [vm_compute; reflexivity|]). constructor.
Defined.

(** The run on [Examples.diamond]. *)
Lemma processed_files_exist_witness :
  let FS := Posix.fs Examples.diamond in
  let self := fresh (Posix.parse (lit "main.tex"))
                (Posix.parse (lit "out.tex")) in
  let p := Posix.parse (lit "shared.tex") in
  p ∈ processed_files self \/ path_exists p = Returns true.
Proof.
  intros FS self p.
  set (r := default (Raise [] self) (inline_latex 11 self)).
  apply (processed_files_exist (FS := FS) 11 self r).
  - assert (match inline_latex 11 self with
            | Some _ => true
            | None => false
            end = true) as Hrun by (vm_compute; reflexivity).
    subst r. destruct (inline_latex 11 self) as [r|]; [reflexivity|].
    discriminate Hrun.
  - vm_compute. reflexivity.
Defined.

(** [main.tex] of [Examples.root_and_sub]. *)
Lemma resolve_single_inline_witness :
  let FS := Posix.fs Examples.root_and_sub in
  let self := Examples.started Examples.root_and_sub "main.tex" in
  let p := Posix.parse (lit "sub.tex") in
  resolve_input_commands 2 (lit "\input{sub}") [] self
  = Some (Done (lit "% --- Begin included file: sub.tex ---" ++ nl
                ++ lit "x = 1" ++ nl
                ++ lit "% --- End included file: sub.tex ---" ++ nl)
            (print (MsgInlining p false) (add_processed p self))).
Proof.
  intros FS self p.
  apply (resolve_single_inline (FS := FS) 0 [] (Examples.input_match "sub")
           [] [] self p (lit "x = 1" ++ nl)).
  - vm_compute. lia.
  - intros i Hi. inversion Hi.
  - vm_compute. reflexivity.
  - reflexivity.
  - vm_compute. reflexivity.
  - apply (bool_decide_unpack _). vm_compute. exact I.
  - vm_compute. reflexivity.
  - vm_compute. reflexivity.
Defined.

Lemma inline_latex_outcome_witness :
  let FS := Posix.fs Examples.failures in
  let self := fresh (Posix.parse (lit "main.tex"))
                (Posix.parse (lit "out.tex")) in
  exists r,
    inline_latex 11 self = Some r
    /\ (forall e s,
          r = Raise e s ->
          path_exists (main_file self) = Raises e /\ s = self)
    /\ (forall c self',
          r = Done (Written c) self' ->
          path_exists (main_file self) = Returns true
          /\ (exists main_content,
                read_file (main_file self) = inl main_content)
          /\ remove_blank_lines_in_math c = c
          /\ open_write (output_file self) c = None
          /\ last (stdout self')
             = Some (MsgSuccess (output_file self)
                       (size (processed_files self'))))
    /\ (path_exists (main_file self) = Returns true ->
        (exists main_content,
           read_file (main_file self) = inl main_content) ->
        (forall c, open_write (output_file self) c = None) ->
        (exists c self', r = Done (Written c) self')
        \/ (exists e self',
              r = Done Failed self'
              /\ last (stdout self') = Some (MsgError e)
              /\ ((exists p, path_exists p = Raises e)
                  \/ (exists p s, with_suffix p s = Raises e)))).
Proof.
  intros FS self.
  apply (inline_latex_outcome (FS := FS) 11 self).
  vm_compute. lia.
Defined.

Lemma processed_count_witness :
  let FS := Posix.fs Examples.diamond in
  exists r,
    inline_latex (max_depth + 1)
      (fresh (Posix.parse (lit "main.tex"))
         (Posix.parse (lit "main.inline.tex"))) = Some r
    /\ forall c self',
         r = Done (Written c) self' ->
         size (processed_files self')
         = 1 + length (inlined_paths (stdout self')).
Proof.
  intros FS.
  apply (processed_count (FS := FS) (Posix.parse (lit "main.tex")) None).
  reflexivity.
Defined.

Lemma main_exit_code_witness :
  let FS := Posix.fs Examples.root_and_sub in
  let argv := [lit "latex-inliner.py"; lit "main.tex"; lit ""] in
  let main_path := Posix.parse (nth 1 argv []) in
  let given :=
    (2 <? length argv) && negb (is_empty (nth 2 argv [])) in
  exists r,
    main Posix.parse 11 argv = Some r
    /\ (length argv < 2 <-> r = Usage)
    /\ (forall e,
          r = Crashed e <->
          2 <= length argv
          /\ (given = false
              /\ with_suffix main_path (lit ".inline.tex") = Raises e
              \/ (given = true
                  \/ exists q,
                       with_suffix main_path (lit ".inline.tex")
                       = Returns q)
                 /\ path_exists main_path = Raises e))
    /\ (forall code o self',
          r = Ran code o self' ->
          2 <= length argv
          /\ main_file self' = main_path
          /\ (if given then output_file self' = Posix.parse (nth 2 argv [])
              else with_suffix main_path (lit ".inline.tex")
                   = Returns (output_file self'))
          /\ inline_latex 11 (fresh main_path (output_file self'))
             = Some (Done o self')
          /\ code = match o with Written _ => 0 | Failed => 1 end)
    /\ (exit_code r = 0 \/ exit_code r = 1)
    /\ (exit_code r = 0 <-> exists c self', r = Ran 0 (Written c) self')
    /\ (forall c self',
          r = Ran 0 (Written c) self' ->
          path_exists main_path = Returns true
          /\ open_write (output_file self') c = None).
Proof.
  intros FS argv.
  apply (main_exit_code (FS := FS) Posix.parse 11 argv).
  vm_compute. lia.
Defined.
